(** * A shallow embedding of the 32-bit CPU emulator (cpu.c)

    The machine of [struct cpu] is a record; every handler of the dispatch
    table is a computation in a small state monad over the machine and its
    standard streams, in which [None] stands for behaviour that C leaves
    undefined (an access outside the memory buffer or the register array).
    Signed 32-bit arithmetic is written with its wrap-around ([wrap32]),
    except the division of [INT_MIN] by -1, which traps and is undefined;
    assertions are taken as enabled (the Makefile does not define NDEBUG),
    and the allocator and the C library streams are explicit inputs.

    The first part of the file is the embedding, the second the vocabulary
    of the statements, the third the lemmas and theorems. *)

From Stdlib Require Import ZArith Lia ZifyBool.
From Stdlib.Strings Require Import Byte.
From stdpp Require Import base tactics option list.

Local Open Scope Z_scope.

(** ** Machine integers *)

Module Int32.

(** The value an [int32_t] holds after a computation whose mathematical
    result is [z] (two's complement wrap-around). *)
Definition wrap32 (z : Z) : Z := (z + 2^31) mod 2^32 - 2^31.

(** Conversion to [uint32_t]. *)
Definition to_u32 (z : Z) : Z := z mod 2^32.

(** Conversion to [size_t] (64 bits). *)
Definition to_size (z : Z) : Z := z mod 2^64.

(** The values an [int32_t] can hold. *)
Definition int32 (z : Z) : Prop := - 2^31 <= z < 2^31.

End Int32.
Export Int32.

(** ** The C library calls of the handlers

    [getchar], [scanf("%d")] and [printf] belong to the C library; they are
    modelled on a list of pending input bytes and a list of output events. *)

Module Libc.

Definition EOF : Z := -1.

(** What [printf("%d", v)] and [printf("%c", v)] send to the output. *)
Inductive output : Type :=
| OutDecimal (v : Z)
| OutChar (v : Z).

Definition byte_val (b : byte) : Z := Z.of_N (Byte.to_N b).

(** [getchar()]: the next byte as an [int], or [EOF]. *)
Definition getchar (input : list byte) : Z * list byte :=
  match input with
  | [] => (EOF, [])
  | b :: rest => (byte_val b, rest)
  end.

Definition is_space (c : Z) : bool :=
  (c =? 32) || ((9 <=? c) && (c <=? 13)).

Definition is_digit (c : Z) : bool := (48 <=? c) && (c <=? 57).

Fixpoint skip_space (input : list byte) : list byte :=
  match input with
  | b :: rest => if is_space (byte_val b) then skip_space rest else input
  | [] => []
  end.

(** The digits at the head of the input: their value (if there is at
    least one digit) and the input left. *)
Fixpoint read_digits (input : list byte) (acc : option Z) : option Z * list byte :=
  match input with
  | b :: rest =>
      if is_digit (byte_val b)
      then read_digits rest (Some (10 * default 0 acc + (byte_val b - 48)))
      else (acc, input)
  | [] => (acc, [])
  end.

(** The number that a [%d] field denotes: white space is skipped, then an
    optional sign and the decimal digits are read.  [Some n] with the
    integer [n] the characters denote, of whatever size, when there is at
    least one digit, [None] otherwise; with the input left. *)
Definition scan_number (input : list byte) : option Z * list byte :=
  match skip_space input with
  | [] => (None, [])
  | b :: rest =>
      if byte_val b =? 45 then
        let (v, left) := read_digits rest None in (Z.opp <$> v, left)
      else if byte_val b =? 43 then
        read_digits rest None
      else
        read_digits (b :: rest) None
  end.

Definition LONG_MAX : Z := 2^63 - 1.
Definition LONG_MIN : Z := - 2^63.

(** The conversion of [strtol]: a number outside [long] becomes [LONG_MAX]
    or [LONG_MIN]. *)
Definition strtol_value (n : Z) : Z := Z.max LONG_MIN (Z.min LONG_MAX n).

(** [scanf("%d", &input)]: [Some v] when it returns 1 having stored [v],
    [None] when it returns 0 or [EOF]; with the input left.  The number is
    converted as by [strtol], and the [long] is stored in the [int], which
    keeps its low 32 bits: a number that fits an [int] is stored as it is,
    and for one that does not (which the C standard leaves undefined) this
    is what the library of the build stores. *)
Definition scanf_d (input : list byte) : option Z * list byte :=
  let (n, left) := scan_number input in
  (wrap32 <$> (strtol_value <$> n), left).

End Libc.
Export Libc.

(** ** The machine state *)

(** Modelled from the spec: [enum cpu_status] is declared in cpu.h, which is
    not among the sources; the constructors are the names cpu.c uses, for
    the statuses the spec lists (Ok, Halted, IllegalInstruction,
    IllegalOperand, DivisionByZero, InvalidAddress, InvalidStackOperation,
    IoError). *)
Inductive cpu_status : Type :=
| CPU_OK
| CPU_HALTED
| CPU_ILLEGAL_INSTRUCTION
| CPU_ILLEGAL_OPERAND
| CPU_INVALID_ADDRESS
| CPU_INVALID_STACK_OPERATION
| CPU_DIV_BY_ZERO
| CPU_IO_ERROR.

#[global] Instance cpu_status_eq_dec : EqDecision cpu_status.
Proof. solve_decision. Defined.

(** Modelled from the spec: [enum cpu_register] is declared in cpu.h;
    registers A, B, C, D have indices 0 to 3 and the result register 4. *)
Definition REGISTER_A : Z := 0.
Definition REGISTER_B : Z := 1.
Definition REGISTER_C : Z := 2.
Definition REGISTER_D : Z := 3.
Definition REGISTER_RESULT : Z := 4.

(** [int32_t registers[5]] *)
Record regfile : Type := Regs {
  reg_a : Z; reg_b : Z; reg_c : Z; reg_d : Z; reg_result : Z
}.

(** [registers[i]]; outside 0..4 the access is out of the array. *)
Definition reg_get (rs : regfile) (i : Z) : option Z :=
  match i with
  | 0 => Some (reg_a rs)
  | 1 => Some (reg_b rs)
  | 2 => Some (reg_c rs)
  | 3 => Some (reg_d rs)
  | 4 => Some (reg_result rs)
  | _ => None
  end.

(** [registers[i] = v] *)
Definition reg_set (rs : regfile) (i v : Z) : option regfile :=
  match i with
  | 0 => Some (Regs v (reg_b rs) (reg_c rs) (reg_d rs) (reg_result rs))
  | 1 => Some (Regs (reg_a rs) v (reg_c rs) (reg_d rs) (reg_result rs))
  | 2 => Some (Regs (reg_a rs) (reg_b rs) v (reg_d rs) (reg_result rs))
  | 3 => Some (Regs (reg_a rs) (reg_b rs) (reg_c rs) v (reg_result rs))
  | 4 => Some (Regs (reg_a rs) (reg_b rs) (reg_c rs) (reg_d rs) v)
  | _ => None
  end.

Definition zero_regs : regfile := Regs 0 0 0 0 0.

(** [struct cpu].  [memory] is the buffer itself, a list of 32-bit words;
    [stack_bottom], a pointer into that buffer in the source, is the index
    of the word it points to. *)
Record cpu : Type := Cpu {
  memory : list Z;
  stack_bottom : Z;
  stack_capacity : Z;
  status : cpu_status;
  inst_index : Z;
  stack_size : Z;
  registers : regfile;
  end_of_stack : Z;
  memory_size : Z
}.

Definition with_memory (c : cpu) (m : list Z) : cpu :=
  Cpu m (stack_bottom c) (stack_capacity c) (status c) (inst_index c)
      (stack_size c) (registers c) (end_of_stack c) (memory_size c).
Definition with_status (c : cpu) (s : cpu_status) : cpu :=
  Cpu (memory c) (stack_bottom c) (stack_capacity c) s (inst_index c)
      (stack_size c) (registers c) (end_of_stack c) (memory_size c).
Definition with_inst_index (c : cpu) (i : Z) : cpu :=
  Cpu (memory c) (stack_bottom c) (stack_capacity c) (status c) i
      (stack_size c) (registers c) (end_of_stack c) (memory_size c).
Definition with_stack_size (c : cpu) (n : Z) : cpu :=
  Cpu (memory c) (stack_bottom c) (stack_capacity c) (status c) (inst_index c)
      n (registers c) (end_of_stack c) (memory_size c).
Definition with_registers (c : cpu) (rs : regfile) : cpu :=
  Cpu (memory c) (stack_bottom c) (stack_capacity c) (status c) (inst_index c)
      (stack_size c) rs (end_of_stack c) (memory_size c).

(** [m[i]] for a buffer [m]; [None] outside the buffer. *)
Definition mem_read (m : list Z) (i : Z) : option Z :=
  if 0 <=? i then m !! Z.to_nat i else None.

(** [m[i] = v]; [None] outside the buffer. *)
Definition mem_write (m : list Z) (i v : Z) : option (list Z) :=
  if (0 <=? i) && (i <? Z.of_nat (length m))
  then Some (<[Z.to_nat i := v]> m) else None.

(** The machine together with the process's standard streams. *)
Record world : Type := World {
  cpu_of : cpu;
  stdin : list byte;
  stdout : list output
}.

(** ** The monad of the handlers: state, and [None] for undefined behaviour *)

Definition M (A : Type) : Type := world -> option (A * world).

Definition ret {A} (a : A) : M A := fun w => Some (a, w).
Definition bind {A B} (m : M A) (k : A -> M B) : M B :=
  fun w => match m w with
           | Some (a, w') => k a w'
           | None => None
           end.
Definition undefined {A} : M A := fun _ => None.

Notation "x <- m ;; k" := (bind m (fun x => k))
  (at level 100, m at next level, k at level 200, right associativity).
Notation "m ;;; k" := (bind m (fun _ => k))
  (at level 100, k at level 200, right associativity).

Definition get_cpu : M cpu := fun w => Some (cpu_of w, w).
Definition put_cpu (c : cpu) : M unit :=
  fun w => Some (tt, World c (stdin w) (stdout w)).
Definition lift_option {A} (o : option A) : M A :=
  match o with Some a => ret a | None => undefined end.

(** [cpu->memory[i]] *)
Definition read_memory (i : Z) : M Z :=
  c <- get_cpu ;; lift_option (mem_read (memory c) i).

(** [cpu->stack_bottom[k]] *)
Definition read_stack (k : Z) : M Z :=
  c <- get_cpu ;; lift_option (mem_read (memory c) (stack_bottom c + k)).

(** [cpu->stack_bottom[k] = v] *)
Definition write_stack (k v : Z) : M unit :=
  c <- get_cpu ;;
  m <- lift_option (mem_write (memory c) (stack_bottom c + k) v) ;;
  put_cpu (with_memory c m).

(** [cpu->registers[i]] *)
Definition read_register (i : Z) : M Z :=
  c <- get_cpu ;; lift_option (reg_get (registers c) i).

(** [cpu->registers[i] = v] *)
Definition write_register (i v : Z) : M unit :=
  c <- get_cpu ;;
  rs <- lift_option (reg_set (registers c) i v) ;;
  put_cpu (with_registers c rs).

Definition set_status (s : cpu_status) : M unit :=
  c <- get_cpu ;; put_cpu (with_status c s).
Definition set_inst_index (i : Z) : M unit :=
  c <- get_cpu ;; put_cpu (with_inst_index c i).
Definition set_stack_size (n : Z) : M unit :=
  c <- get_cpu ;; put_cpu (with_stack_size c n).

(** [cpu->inst_index += k] *)
Definition advance (k : Z) : M unit :=
  c <- get_cpu ;; set_inst_index (wrap32 (inst_index c + k)).

(** ** Accessors and validation *)

Definition cpu_get_stack_size : M Z :=
  c <- get_cpu ;; ret (stack_size c).

(** [cpu_set_register]: its assertion admits the indices 0..4 only. *)
Definition cpu_set_register (reg value : Z) : M unit :=
  write_register reg value.

Definition cpu_get_register (reg : Z) : M Z :=
  read_register reg.

Definition is_valid_reg (reg : Z) : M bool :=
  if (reg <? 0) || (reg >? 4)
  then set_status CPU_ILLEGAL_OPERAND ;;; ret false
  else ret true.

(** ** The handlers of the dispatch table

    Each returns 1 on success and 0 on failure, as in the source. *)

Definition execute_nop : M Z :=
  set_status CPU_OK ;;; ret 1.

Definition execute_halt : M Z :=
  set_status CPU_HALTED ;;; ret 0.

Definition execute_add : M Z :=
  c <- get_cpu ;;
  reg_to_add <- read_memory (inst_index c + 1) ;;
  advance 1 ;;;
  valid <- is_valid_reg reg_to_add ;;
  if negb valid then ret 0 else
  a <- read_register REGISTER_A ;;
  b <- read_register reg_to_add ;;
  write_register REGISTER_A (wrap32 (a + b)) ;;;
  a' <- read_register 0 ;;
  write_register 4 a' ;;;
  set_status CPU_OK ;;;
  ret 1.

Definition execute_sub : M Z :=
  c <- get_cpu ;;
  reg_to_sub <- read_memory (inst_index c + 1) ;;
  advance 1 ;;;
  valid <- is_valid_reg reg_to_sub ;;
  if negb valid then ret 0 else
  a <- read_register REGISTER_A ;;
  b <- read_register reg_to_sub ;;
  write_register REGISTER_A (wrap32 (a - b)) ;;;
  a' <- read_register 0 ;;
  write_register 4 a' ;;;
  set_status CPU_OK ;;;
  ret 1.

Definition execute_mul : M Z :=
  c <- get_cpu ;;
  reg_to_mul <- read_memory (inst_index c + 1) ;;
  advance 1 ;;;
  valid <- is_valid_reg reg_to_mul ;;
  if negb valid then ret 0 else
  a <- read_register REGISTER_A ;;
  b <- read_register reg_to_mul ;;
  write_register REGISTER_A (wrap32 (a * b)) ;;;
  a' <- read_register 0 ;;
  write_register 4 a' ;;;
  set_status CPU_OK ;;;
  ret 1.

(** C's [/] on [int32_t]: it truncates toward zero ([Z.quot]).  The one
    quotient that does not fit, [INT_MIN / -1], is undefined: the division
    traps and the process is killed. *)
Definition div32 (a b : Z) : option Z :=
  if (a =? - 2^31) && (b =? -1) then None else Some (Z.quot a b).

Definition execute_div : M Z :=
  c <- get_cpu ;;
  reg_to_div <- read_memory (inst_index c + 1) ;;
  advance 1 ;;;
  valid <- is_valid_reg reg_to_div ;;
  if negb valid then ret 0 else
  b <- read_register reg_to_div ;;
  if b =? 0 then set_status CPU_DIV_BY_ZERO ;;; ret 0 else
  a <- read_register REGISTER_A ;;
  b <- read_register reg_to_div ;;
  quotient <- lift_option (div32 a b) ;;
  write_register REGISTER_A (wrap32 quotient) ;;;
  a' <- read_register 0 ;;
  write_register 4 a' ;;;
  set_status CPU_OK ;;;
  ret 1.

Definition execute_inc : M Z :=
  c <- get_cpu ;;
  reg_input <- read_memory (inst_index c + 1) ;;
  advance 1 ;;;
  valid <- is_valid_reg reg_input ;;
  if negb valid then ret 0 else
  v <- read_register reg_input ;;
  write_register reg_input (wrap32 (v + 1)) ;;;
  v' <- read_register reg_input ;;
  write_register 4 v' ;;;
  set_status CPU_OK ;;;
  ret 1.

Definition execute_dec : M Z :=
  c <- get_cpu ;;
  reg_input <- read_memory (inst_index c + 1) ;;
  advance 1 ;;;
  valid <- is_valid_reg reg_input ;;
  if negb valid then ret 0 else
  v <- read_register reg_input ;;
  write_register reg_input (wrap32 (v - 1)) ;;;
  v' <- read_register reg_input ;;
  write_register 4 v' ;;;
  set_status CPU_OK ;;;
  ret 1.

Definition execute_loop : M Z :=
  c <- get_cpu ;;
  index_to_jump <- read_memory (inst_index c + 1) ;;
  advance 1 ;;;
  rc <- read_register 2 ;;
  (if negb (rc =? 0) then set_inst_index (wrap32 (index_to_jump - 1))
   else ret tt) ;;;
  set_status CPU_OK ;;;
  ret 1.

Definition execute_movr : M Z :=
  c <- get_cpu ;;
  to_reg <- read_memory (inst_index c + 1) ;;
  word <- read_memory (inst_index c + 2) ;;
  let num := to_u32 word in
  advance 2 ;;;
  valid <- is_valid_reg to_reg ;;
  if negb valid then ret 0 else
  cpu_set_register to_reg (wrap32 num) ;;;
  set_status CPU_OK ;;;
  ret 1.

(** [scanf("%d", &input)] on the process's input. *)
Definition scan_int : M (option Z) :=
  fun w => let (v, left) := scanf_d (stdin w) in
           Some (v, World (cpu_of w) left (stdout w)).

(** [getchar()] on the process's input. *)
Definition get_char : M Z :=
  fun w => let (v, left) := getchar (stdin w) in
           Some (v, World (cpu_of w) left (stdout w)).

(** [printf] of one event. *)
Definition print (o : output) : M unit :=
  fun w => Some (tt, World (cpu_of w) (stdin w) (stdout w ++ [o])).

Definition execute_in : M Z :=
  c <- get_cpu ;;
  reg_to_add <- read_memory (inst_index c + 1) ;;
  valid <- is_valid_reg reg_to_add ;;
  if negb valid then ret 0 else
  advance 1 ;;;
  scanned <- scan_int ;;
  match scanned with
  | None => set_status CPU_IO_ERROR ;;; ret 0
  | Some input =>
      cpu_set_register reg_to_add input ;;;
      ret 1
  end.

Definition execute_get : M Z :=
  c <- get_cpu ;;
  reg_to_input <- read_memory (inst_index c + 1) ;;
  advance 1 ;;;
  valid <- is_valid_reg reg_to_input ;;
  if negb valid then ret 0 else
  input_value <- get_char ;;
  if input_value =? EOF then
    cpu_set_register REGISTER_C 0 ;;;
    cpu_set_register reg_to_input (-1) ;;;
    set_status CPU_OK ;;;
    ret 1
  else
    cpu_set_register reg_to_input input_value ;;;
    set_status CPU_OK ;;;
    ret 1.

Definition execute_out : M Z :=
  c <- get_cpu ;;
  reg_to_print <- read_memory (inst_index c + 1) ;;
  advance 1 ;;;
  valid <- is_valid_reg reg_to_print ;;
  if negb valid then ret 0 else
  v <- read_register reg_to_print ;;
  print (OutDecimal v) ;;;
  set_status CPU_OK ;;;
  ret 1.

Definition execute_put : M Z :=
  c <- get_cpu ;;
  reg_index <- read_memory (inst_index c + 1) ;;
  advance 1 ;;;
  valid <- is_valid_reg reg_index ;;
  if negb valid then ret 0 else
  reg_value <- read_register reg_index ;;
  if (reg_value <? 0) || (reg_value >? 255)
  then set_status CPU_ILLEGAL_OPERAND ;;; ret 0 else
  print (OutChar reg_value) ;;;
  set_status CPU_OK ;;;
  ret 1.

Definition execute_swap : M Z :=
  c <- get_cpu ;;
  reg_index_1 <- read_memory (inst_index c + 1) ;;
  reg_index_2 <- read_memory (inst_index c + 2) ;;
  advance 2 ;;;
  valid1 <- is_valid_reg reg_index_1 ;;
  if negb valid1 then ret 0 else
  valid2 <- is_valid_reg reg_index_2 ;;
  if negb valid2 then ret 0 else
  temp <- read_register reg_index_1 ;;
  v2 <- read_register reg_index_2 ;;
  write_register reg_index_1 v2 ;;;
  write_register reg_index_2 temp ;;;
  set_status CPU_OK ;;;
  ret 1.

Definition execute_load : M Z :=
  c <- get_cpu ;;
  reg_index <- read_memory (inst_index c + 1) ;;
  num <- read_memory (inst_index c + 2) ;;
  advance 2 ;;;
  end_ <- cpu_get_stack_size ;;
  d <- read_register REGISTER_D ;;
  let stack_index := wrap32 (wrap32 (end_ - wrap32 (d + num)) - 1) in
  valid <- is_valid_reg reg_index ;;
  if negb valid then ret 0 else
  d <- read_register REGISTER_D ;;
  if wrap32 (d + num) <? 0
  then set_status CPU_INVALID_STACK_OPERATION ;;; ret 0 else
  if (stack_index >? end_) || (stack_index <? 0) || (end_ =? 0)
  then set_status CPU_INVALID_STACK_OPERATION ;;; ret 0 else
  v <- read_stack (wrap32 (- stack_index)) ;;
  cpu_set_register reg_index v ;;;
  set_status CPU_OK ;;;
  ret 1.

Definition execute_store : M Z :=
  c <- get_cpu ;;
  reg_index <- read_memory (inst_index c + 1) ;;
  num <- read_memory (inst_index c + 2) ;;
  advance 2 ;;;
  end_ <- cpu_get_stack_size ;;
  d <- read_register REGISTER_D ;;
  let stack_index := wrap32 (wrap32 (wrap32 (end_ - d) - num) - 1) in
  valid <- is_valid_reg reg_index ;;
  if negb valid then ret 0 else
  d <- read_register REGISTER_D ;;
  if wrap32 (d + num) <? 0
  then set_status CPU_INVALID_STACK_OPERATION ;;; ret 0 else
  if (stack_index >? end_) || (stack_index <? 0) || (end_ =? 0)
  then set_status CPU_INVALID_STACK_OPERATION ;;; ret 0 else
  v <- cpu_get_register reg_index ;;
  write_stack (wrap32 (- stack_index)) v ;;;
  set_status CPU_OK ;;;
  ret 1.

Definition execute_push : M Z :=
  c <- get_cpu ;;
  reg_index <- read_memory (inst_index c + 1) ;;
  advance 1 ;;;
  let capacity := wrap32 (stack_capacity c) in
  valid <- is_valid_reg reg_index ;;
  if negb valid then ret 0 else
  size <- cpu_get_stack_size ;;
  if size >=? capacity
  then set_status CPU_INVALID_STACK_OPERATION ;;; ret 0 else
  reg_value <- read_register reg_index ;;
  size <- cpu_get_stack_size ;;
  write_stack (wrap32 (- size)) reg_value ;;;
  c <- get_cpu ;;
  set_stack_size (wrap32 (stack_size c + 1)) ;;;
  set_status CPU_OK ;;;
  ret 1.

Definition execute_pop : M Z :=
  c <- get_cpu ;;
  reg_index <- read_memory (inst_index c + 1) ;;
  advance 1 ;;;
  valid <- is_valid_reg reg_index ;;
  if negb valid then ret 0 else
  size <- cpu_get_stack_size ;;
  if size <=? 0
  then set_status CPU_INVALID_STACK_OPERATION ;;; ret 0 else
  size <- cpu_get_stack_size ;;
  let end_stack_index := wrap32 (- wrap32 (size - 1)) in
  v <- read_stack end_stack_index ;;
  cpu_set_register reg_index v ;;;
  write_stack end_stack_index 0 ;;;
  c <- get_cpu ;;
  set_stack_size (wrap32 (stack_size c - 1)) ;;;
  set_status CPU_OK ;;;
  ret 1.

Definition execute_call : M Z :=
  c <- get_cpu ;;
  index_to_jump <- read_memory (inst_index c + 1) ;;
  index_to_save <- read_memory (inst_index c + 2) ;;
  advance 2 ;;;
  let stack_capac := wrap32 (stack_capacity c) in
  size <- cpu_get_stack_size ;;
  if size >=? stack_capac
  then set_status CPU_INVALID_STACK_OPERATION ;;; ret 0 else
  size <- cpu_get_stack_size ;;
  write_stack (wrap32 (- size)) index_to_save ;;;
  c <- get_cpu ;;
  set_stack_size (wrap32 (stack_size c + 1)) ;;;
  set_status CPU_OK ;;;
  set_inst_index (wrap32 (index_to_jump - 1)) ;;;
  ret 1.

Definition execute_ret : M Z :=
  size <- cpu_get_stack_size ;;
  if size =? 0
  then set_status CPU_INVALID_STACK_OPERATION ;;; ret 0 else
  size <- cpu_get_stack_size ;;
  ind_to_jump <- read_stack (wrap32 (- wrap32 (size - 1))) ;;
  size <- cpu_get_stack_size ;;
  write_stack (wrap32 (- wrap32 (size - 1))) 0 ;;;
  set_inst_index (wrap32 (ind_to_jump - 1)) ;;;
  c <- get_cpu ;;
  set_stack_size (wrap32 (stack_size c - 1)) ;;;
  set_status CPU_OK ;;;
  ret 1.

Definition execute_cmp : M Z :=
  c <- get_cpu ;;
  reg_index_1 <- read_memory (inst_index c + 1) ;;
  reg_index_2 <- read_memory (inst_index c + 2) ;;
  advance 2 ;;;
  valid1 <- is_valid_reg reg_index_1 ;;
  if negb valid1 then ret 0 else
  valid2 <- is_valid_reg reg_index_2 ;;
  if negb valid2 then ret 0 else
  v1 <- read_register reg_index_1 ;;
  v2 <- read_register reg_index_2 ;;
  let result := wrap32 (v1 - v2) in
  write_register 4 result ;;;
  set_status CPU_OK ;;;
  ret 1.

Definition execute_jmp : M Z :=
  c <- get_cpu ;;
  index_to_jump <- read_memory (inst_index c + 1) ;;
  advance 1 ;;;
  set_inst_index (wrap32 (index_to_jump - 1)) ;;;
  set_status CPU_OK ;;;
  ret 1.

Definition execute_jz : M Z :=
  c <- get_cpu ;;
  index_to_jump <- read_memory (inst_index c + 1) ;;
  advance 1 ;;;
  r <- read_register 4 ;;
  (if r =? 0 then set_inst_index (wrap32 (index_to_jump - 1)) else ret tt) ;;;
  ret 1.

Definition execute_jnz : M Z :=
  c <- get_cpu ;;
  index_to_jump <- read_memory (inst_index c + 1) ;;
  advance 1 ;;;
  r <- read_register 4 ;;
  (if negb (r =? 0) then set_inst_index (wrap32 (index_to_jump - 1))
   else ret tt) ;;;
  ret 1.

Definition execute_jgt : M Z :=
  c <- get_cpu ;;
  index_to_jump <- read_memory (inst_index c + 1) ;;
  advance 1 ;;;
  r <- read_register 4 ;;
  (if r >? 0 then set_inst_index (wrap32 (index_to_jump - 1)) else ret tt) ;;;
  ret 1.

(** [struct instruction] and the lookup table, in the order of the source. *)
Record instruction : Type := Instr { opcode : Z; execute : M Z }.

Definition instructions : list instruction :=
  [ Instr 0x00 execute_nop;
    Instr 0x01 execute_halt;
    Instr 0x02 execute_add;
    Instr 0x03 execute_sub;
    Instr 0x04 execute_mul;
    Instr 0x05 execute_div;
    Instr 0x06 execute_inc;
    Instr 0x07 execute_dec;
    Instr 0x08 execute_loop;
    Instr 0x09 execute_movr;
    Instr 0x0C execute_in;
    Instr 0x0E execute_out;
    Instr 0x0F execute_put;
    Instr 0x0D execute_get;
    Instr 0x0A execute_load;
    Instr 0x0B execute_store;
    Instr 0x11 execute_push;
    Instr 0x10 execute_swap;
    Instr 0x12 execute_pop;
    Instr 0x18 execute_call;
    Instr 0x19 execute_ret;
    Instr 19 execute_cmp;
    Instr 20 execute_jmp;
    Instr 21 execute_jz;
    Instr 22 execute_jnz;
    Instr 23 execute_jgt ].

(** ** The step and run engine *)

(** The loop of [cpu_step] over the table: the first entry whose opcode is
    the fetched word runs its handler, and the scan stops there. *)
Fixpoint lookup_instruction (table : list instruction) (word : Z) : option (M Z) :=
  match table with
  | [] => None
  | i :: rest =>
      if opcode i =? word then Some (execute i)
      else lookup_instruction rest word
  end.

Definition cpu_step : M Z :=
  c <- get_cpu ;;
  if negb (bool_decide (status c = CPU_OK)) then ret 0 else
  if (inst_index c <? 0) || (inst_index c >? end_of_stack c)
  then set_status CPU_INVALID_ADDRESS ;;; ret 0 else
  word <- read_memory (inst_index c) ;;
  let instruction := to_u32 word in
  match lookup_instruction instructions instruction with
  | Some handler =>
      executed <- handler ;;
      if executed =? 0 then ret 0 else
      advance 1 ;;;
      ret 1
  | None =>
      set_status CPU_ILLEGAL_INSTRUCTION ;;; ret 0
  end.

(** The [for] loop of [cpu_run], with [steps - i] iterations left; it
    yields [executed_steps] and [error_steps]. *)
Fixpoint run_loop (left : nat) (executed_steps error_steps : Z) : M (Z * Z) :=
  match left with
  | O => ret (executed_steps, error_steps)
  | S left' =>
      result <- cpu_step ;;
      c <- get_cpu ;;
      if bool_decide (status c = CPU_HALTED)
      then ret (executed_steps + 1, error_steps)
      else if result =? 0
      then ret (executed_steps, error_steps + 1)
      else run_loop left' (executed_steps + 1) error_steps
  end.

(** [cpu_run]; the counters are [long long], which holds every count up to
    a budget below 2^63. *)
Definition cpu_run (steps : nat) : M Z :=
  c <- get_cpu ;;
  if negb (bool_decide (status c = CPU_OK)) then ret 0 else
  counts <- run_loop steps 0 0 ;;
  let (executed_steps, error_steps) := counts : Z * Z in
  if error_steps >? 0
  then ret (- (error_steps + executed_steps))
  else ret executed_steps.

(** ** Creation and reset *)

(** [memset(m + start, 0, nbytes)] on a buffer of 32-bit words, [nbytes]
    being a [size_t]; both callers pass a multiple of [sizeof(int32_t)].
    [None] when the range leaves the buffer (or ends inside a word, which
    a buffer of whole words does not represent). *)
Definition memset_zero (m : list Z) (start nbytes : Z) : option (list Z) :=
  let n := nbytes / 4 in
  if (0 <=? start) && (0 <=? nbytes)
     && (start + n <=? Z.of_nat (length m)) && (nbytes mod 4 =? 0)
  then Some (take (Z.to_nat start) m
             ++ replicate (Z.to_nat n) 0
             ++ drop (Z.to_nat (start + n)) m)
  else None.

Definition sizeof_int32 : Z := 4.

(** [cpu_reset]. *)
Definition cpu_reset (c : cpu) : option cpu :=
  let c := with_registers c zero_regs in
  let c := with_stack_size c 0 in
  let c := with_status c CPU_OK in
  let stack_size_bytes := to_size (stack_capacity c * sizeof_int32) in
  m ← memset_zero (memory c) (stack_bottom c - stack_capacity c) stack_size_bytes;
  Some (with_memory c m).

(** [cpu_create], when its [malloc] succeeds. *)
Definition cpu_create (memory : list Z) (stack_bottom stack_capacity : Z) : cpu :=
  let stack_end := stack_bottom - stack_capacity in
  {| memory := memory;
     stack_bottom := stack_bottom;
     stack_capacity := stack_capacity;
     inst_index := 0;
     status := CPU_OK;
     registers := zero_regs;
     stack_size := 0;
     end_of_stack := wrap32 (stack_end - 0);
     memory_size := to_size (to_size ((stack_bottom - 0) * sizeof_int32) + sizeof_int32) |}.

(** ** The program loader *)

(** The allocator as the loader sees it: whether a request for a number of
    bytes succeeds, and the word that storage obtained from it holds at a
    given index before anything is written there ([malloc] and the grown
    part of [realloc] are uninitialised). *)
Record heap : Type := Heap {
  can_alloc : Z -> bool;
  fresh : Z -> Z
}.

(** How a call of [cpu_create_memory] ends. *)
Inductive load_result : Type :=
| Loaded (memory : list Z) (stack_bottom : Z)  (* the buffer and [*stack_bottom] *)
| LoadNull                                     (* [return NULL] *)
| LoadAborted                                  (* [assert] failed *)
| LoadOverrun.                                 (* a write outside the buffer *)

Definition BLOCK_SIZE : Z := 4096 / sizeof_int32.

(** [realloc(memory, (memory_size + BLOCK_SIZE) * sizeof(int32_t))] *)
Definition realloc_block (h : heap) (memory : list Z) (memory_size : Z)
  : option (list Z) :=
  if can_alloc h (to_size ((memory_size + BLOCK_SIZE) * sizeof_int32))
  then Some (memory ++ (fresh h <$> seqZ memory_size BLOCK_SIZE))
  else None.

(** The locals of [cpu_create_memory] that the reading loop updates. *)
Record loader : Type := Loader {
  l_memory : list Z;
  l_memory_size : Z;
  l_memory_index : Z;
  l_cycle_index : Z;
  l_result : Z
}.

(** The loop [while ((ch = fgetc(program)) != EOF)]: [inl] when the input
    is exhausted, [inr] when the function returns from inside the loop. *)
Fixpoint read_program (h : heap) (program : list byte) (l : loader)
  : loader + load_result :=
  match program with
  | [] => inl l
  | b :: rest =>
      let ch := byte_val b in
      let grown :=
        if l_memory_index l =? l_memory_size l then
          match realloc_block h (l_memory l) (l_memory_size l) with
          | Some new_memory => Some (new_memory, l_memory_size l + BLOCK_SIZE)
          | None => None
          end
        else Some (l_memory l, l_memory_size l) in
      match grown with
      | None => inr LoadNull
      | Some (memory, memory_size) =>
          let result :=
            Z.lor (l_result l)
                  (to_u32 (wrap32 (Z.shiftl ch (l_cycle_index l * 8)))) in
          let cycle_index := l_cycle_index l + 1 in
          let stored :=
            if cycle_index =? 4 then
              match mem_write memory (l_memory_index l) (wrap32 result) with
              | Some memory' =>
                  Some (Loader memory' memory_size (l_memory_index l + 1) 0 0)
              | None => None
              end
            else Some (Loader memory memory_size (l_memory_index l)
                              cycle_index result) in
          match stored with
          | None => inr LoadOverrun
          | Some l' =>
              if ch =? EOF then inr LoadNull
              else read_program h rest l'
          end
      end
  end.

(** The loop [while ((memory_index + stack_capacity) > memory_size)], run
    for at most [fuel] iterations: [None] when the fuel runs out. *)
Fixpoint extend_for_stack (h : heap) (fuel : nat) (memory : list Z)
    (memory_size memory_index stack_capacity : Z)
  : option ((list Z * Z) + load_result) :=
  if to_size (memory_index + stack_capacity) >? memory_size then
    match fuel with
    | O => None
    | S fuel' =>
        match realloc_block h memory memory_size with
        | None => Some (inr LoadNull)
        | Some new_memory =>
            extend_for_stack h fuel' new_memory (memory_size + BLOCK_SIZE)
                             memory_index stack_capacity
        end
    end
  else Some (inl (memory, memory_size)).

(** Iterations that always suffice for [extend_for_stack]. *)
Definition extend_fuel (memory_index stack_capacity : Z) : nat :=
  Z.to_nat (to_size (memory_index + stack_capacity) / BLOCK_SIZE + 1).

(** [cpu_create_memory] on the bytes of the file. *)
Definition cpu_create_memory (h : heap) (program : list byte) (stack_capacity : Z)
  : load_result :=
  let memory_size := BLOCK_SIZE in
  if negb (can_alloc h (to_size (memory_size * sizeof_int32))) then LoadNull else
  let memory := fresh h <$> seqZ 0 memory_size in
  match read_program h program (Loader memory memory_size 0 0 0) with
  | inr r => r
  | inl l =>
      if negb (l_cycle_index l =? 0) then LoadAborted else
      match extend_for_stack h (extend_fuel (l_memory_index l) stack_capacity)
                             (l_memory l) (l_memory_size l)
                             (l_memory_index l) stack_capacity with
      | None => LoadOverrun
      | Some (inr r) => r
      | Some (inl (memory, memory_size)) =>
          match memset_zero memory (l_memory_index l)
                  (to_size (memory_size - l_memory_index l * sizeof_int32)) with
          | None => LoadOverrun
          | Some memory' => Loaded memory' (memory_size - 1)
          end
      end
  end.

(** * The vocabulary of the statements *)

(** [post m w Q]: whenever [m] returns from [w], [Q] holds of the value and
    the state.  [wp m w Q]: [m] does return from [w], and [Q] holds. *)
Definition post {A} (m : M A) (w : world) (Q : A -> world -> Prop) : Prop :=
  forall a w', m w = Some (a, w') -> Q a w'.

Definition wp {A} (m : M A) (w : world) (Q : A -> world -> Prop) : Prop :=
  exists a w', m w = Some (a, w') /\ Q a w'.

(** What [cpu_step] and the handlers report: 1 with the status still
    [CPU_OK], or 0 with a status that is not [CPU_OK]. *)
Definition reports_status (r : Z) (w' : world) : Prop :=
  (r = 1 /\ status (cpu_of w') = CPU_OK) \/
  (r = 0 /\ status (cpu_of w') <> CPU_OK).

Definition handler_reports (h : M Z) : Prop :=
  forall w, status (cpu_of w) = CPU_OK -> post h w reports_status.

(** The opcode word that the next step fetches. *)
Definition fetched (w : world) : option Z :=
  to_u32 <$> mem_read (memory (cpu_of w)) (inst_index (cpu_of w)).

(** The [k]-th word after the opcode at the instruction pointer. *)
Definition operand (w : world) (k : Z) : option Z :=
  mem_read (memory (cpu_of w)) (inst_index (cpu_of w) + k).

(** The word in stack slot [k], counted from the stack bottom. *)
Definition stack_slot (c : cpu) (k : Z) : option Z :=
  mem_read (memory c) (stack_bottom c - k).

(** [succeeds n w w']: [n] consecutive calls of [cpu_step], each returning
    1, lead from [w] to [w']. *)
Inductive succeeds : nat -> world -> world -> Prop :=
| succeeds_O w : succeeds 0 w w
| succeeds_S n w w1 w' :
    cpu_step w = Some (1, w1) -> succeeds n w1 w' -> succeeds (S n) w w'.

(** The three ways the loop of [cpu_run] ends, with the counters
    [(executed_steps, error_steps)] it leaves: the budget is used up, a step
    halts the machine, a step fails. *)
Definition loop_outcome (n : nat) (w : world) (ex er : Z)
    (counts : Z * Z) (w' : world) : Prop :=
  (succeeds n w w' /\ counts = (ex + Z.of_nat n, er)) \/
  (exists k w1 r, (k < n)%nat /\ succeeds k w w1 /\
     cpu_step w1 = Some (r, w') /\ status (cpu_of w') = CPU_HALTED /\
     counts = (ex + Z.of_nat k + 1, er)) \/
  (exists k w1, (k < n)%nat /\ succeeds k w w1 /\
     cpu_step w1 = Some (0, w') /\ status (cpu_of w') <> CPU_HALTED /\
     counts = (ex + Z.of_nat k, er + 1)).

(** The instructions that jump, with the address [addr] each one jumps to
    in the state [w] where it is about to execute. *)
Inductive jump_taken (w : world) (addr : Z) : Prop :=
| jump_loop :
    fetched w = Some 0x08 -> operand w 1 = Some addr ->
    reg_c (registers (cpu_of w)) <> 0 -> jump_taken w addr
| jump_jmp :
    fetched w = Some 20 -> operand w 1 = Some addr -> jump_taken w addr
| jump_jz :
    fetched w = Some 21 -> operand w 1 = Some addr ->
    reg_result (registers (cpu_of w)) = 0 -> jump_taken w addr
| jump_jnz :
    fetched w = Some 22 -> operand w 1 = Some addr ->
    reg_result (registers (cpu_of w)) <> 0 -> jump_taken w addr
| jump_jgt :
    fetched w = Some 23 -> operand w 1 = Some addr ->
    reg_result (registers (cpu_of w)) > 0 -> jump_taken w addr
| jump_call retaddr :
    fetched w = Some 0x18 -> operand w 1 = Some addr ->
    operand w 2 = Some retaddr ->
    0 <= stack_size (cpu_of w) < wrap32 (stack_capacity (cpu_of w)) ->
    is_Some (stack_slot (cpu_of w) (stack_size (cpu_of w))) ->
    jump_taken w addr
| jump_ret :
    fetched w = Some 0x19 ->
    0 < stack_size (cpu_of w) < 2^31 ->
    stack_slot (cpu_of w) (stack_size (cpu_of w) - 1) = Some addr ->
    jump_taken w addr.

(** A call of the public stepping interface. *)
Inductive api_call : Type :=
| CallStep
| CallRun (steps : nat).

Definition do_call (c : api_call) : M Z :=
  match c with
  | CallStep => cpu_step
  | CallRun steps => cpu_run steps
  end.

(** A sequence of calls, with the values they return. *)
Fixpoint do_calls (cs : list api_call) : M (list Z) :=
  match cs with
  | [] => ret []
  | c :: rest => r <- do_call c ;; rs <- do_calls rest ;; ret (r :: rs)
  end.

Definition valid_index (r : Z) : Prop := 0 <= r <= 4.

(** ADD, SUB, MUL, DIV, INC, DEC, GET, OUT, PUT, PUSH, POP: one operand, a
    register index. *)
Definition one_register_opcodes : list Z :=
  [0x02; 0x03; 0x04; 0x05; 0x06; 0x07; 0x0D; 0x0E; 0x0F; 0x11; 0x12].

(** MOVR, LOAD, STORE: a register index and an immediate. *)
Definition register_immediate_opcodes : list Z := [0x09; 0x0A; 0x0B].

(** SWAP, CMP: two register indices. *)
Definition two_register_opcodes : list Z := [0x10; 19].

(** [bad_operand w op n]: the instruction with opcode [op] has [n] operand
    words, present in memory after the instruction pointer of [w], and one
    that is a register index is outside 0..4.  IN (0x0C) is not among
    these opcodes. *)
Inductive bad_operand (w : world) (op : Z) : Z -> Prop :=
| bad_one r :
    op ∈ one_register_opcodes ->
    operand w 1 = Some r -> ~ valid_index r ->
    bad_operand w op 1
| bad_register_immediate r n :
    op ∈ register_immediate_opcodes ->
    operand w 1 = Some r -> operand w 2 = Some n -> ~ valid_index r ->
    bad_operand w op 2
| bad_two r1 r2 :
    op ∈ two_register_opcodes ->
    operand w 1 = Some r1 -> operand w 2 = Some r2 ->
    ~ valid_index r1 \/ ~ valid_index r2 ->
    bad_operand w op 2.

(** What a failed validation leaves: status [CPU_ILLEGAL_OPERAND], the
    instruction pointer at [ip], and the rest of the state as in [w]. *)
Definition rejected (w : world) (ip : Z) (w' : world) : Prop :=
  status (cpu_of w') = CPU_ILLEGAL_OPERAND /\
  inst_index (cpu_of w') = ip /\
  registers (cpu_of w') = registers (cpu_of w) /\
  memory (cpu_of w') = memory (cpu_of w) /\
  stack_size (cpu_of w') = stack_size (cpu_of w) /\
  stdin w' = stdin w /\ stdout w' = stdout w.

(** The words of [m] from [from] up to [size] are as the allocator left
    them. *)
Definition fresh_from (h : heap) (m : list Z) (from size : Z) : Prop :=
  forall i, from <= i < size -> mem_read m i = Some (fresh h i).

(** What the reading loop maintains: the buffer has [memory_size] words,
    the next word to write is inside or just past it, fewer than four bytes
    of a word are pending, and nothing was written from [memory_index] on. *)
Definition loader_ok (h : heap) (l : loader) : Prop :=
  Z.of_nat (length (l_memory l)) = l_memory_size l /\
  0 <= l_memory_index l <= l_memory_size l /\
  0 <= l_cycle_index l < 4 /\
  fresh_from h (l_memory l) (l_memory_index l) (l_memory_size l) /\
  BLOCK_SIZE <= l_memory_size l.

(** The slots of the stack region from [stack_size] up hold zero. *)
Definition free_slots_zero (c : cpu) : Prop :=
  forall k, stack_size c <= k < stack_capacity c -> stack_slot c k = Some 0.

(** The invariant of the stack: the slots from [stack_size] up hold zero,
    and [stack_size] is a non-negative [int32_t]. *)
Definition stack_invariant (c : cpu) : Prop :=
  free_slots_zero c /\ 0 <= stack_size c < 2^31.

(** The stack layout of [c'] is that of [c]. *)
Definition same_stack_layout (c c' : cpu) : Prop :=
  stack_bottom c' = stack_bottom c /\ stack_capacity c' = stack_capacity c.

Definition keeps_stack (h : M Z) : Prop :=
  forall w, stack_invariant (cpu_of w) ->
    post h w (fun _ w' => stack_invariant (cpu_of w') /\
                          same_stack_layout (cpu_of w) (cpu_of w')).

(** The states that steps reach from [w], whatever each step returns. *)
Inductive reaches (w : world) : world -> Prop :=
| reaches_here : reaches w w
| reaches_step w1 r w2 :
    reaches w w1 -> cpu_step w1 = Some (r, w2) -> reaches w w2.

(** ** Concrete machines *)

Module Demo.

(** A machine over [mem], whose last [cap] words are the stack, with an
    empty input. *)
Definition boot (mem : list Z) (cap : Z) : world :=
  World (cpu_create mem (Z.of_nat (length mem) - 1) cap) [] [].

Definition set_regs (w : world) (rs : regfile) : world :=
  World (with_registers (cpu_of w) rs) (stdin w) (stdout w).

Definition halt (w : world) : world :=
  World (with_status (cpu_of w) CPU_HALTED) (stdin w) (stdout w).

(** MOVR A,5; MOVR B,3; ADD B; HALT, and three more words. *)
Definition sum : world :=
  boot [0x09; 0; 5; 0x09; 1; 3; 0x02; 1; 0x01; 0; 0; 0] 2.

(** DIV B; HALT with A = 10 and B = 0. *)
Definition div_zero : world :=
  set_regs (boot [0x05; 1; 0x01; 0; 0; 0] 2) (Regs 10 0 0 0 0).

(** JMP 3. *)
Definition jmp : world := boot [20; 3; 0; 0x01; 0; 0; 0] 2.

(** ADD with the register index 7. *)
Definition add_bad : world := boot [0x02; 7; 0x01; 0; 0; 0] 2.

(** IN with the register index 7. *)
Definition in_bad : world := boot [0x0C; 7; 0x01; 0; 0; 0] 2.

(** DIV B; HALT with A = -7 and B = 2. *)
Definition div_two : world :=
  set_regs (boot [0x05; 1; 0x01; 0; 0; 0] 2) (Regs (-7) 2 0 0 0).

(** CALL 4, 7 at index 0, and RET at index 4. *)
Definition call : world := boot [0x18; 4; 7; 0; 0x19; 0; 0; 0x01; 0; 0; 0] 2.

(** MOVR A,7; PUSH A. *)
Definition push : world := boot [0x09; 0; 7; 0x11; 0; 0x01; 0; 0; 0] 2.

(** MOVR A,7; PUSH A; HALT, then the data word 9 at index 6, which is
    [end_of_stack], and two stack slots at indices 7 and 8. *)
Definition push_halt : world := boot [0x09; 0; 7; 0x11; 0; 0x01; 9; 0; 0] 2.

(** An allocator that never fails, whose fresh storage holds zeros. *)
Definition clean_heap : heap := Heap (fun _ => true) (fun _ => 0).

(** An allocator that never fails, whose fresh storage holds 0x55555555
    in every word. *)
Definition dirty_heap : heap := Heap (fun _ => true) (fun _ => 0x55555555).

End Demo.

(** The state in which [Demo.sum] halts. *)
Definition sum_halted : world :=
  World (Cpu [0x09; 0; 5; 0x09; 1; 3; 0x02; 1; 0x01; 0; 0; 0] 11 2
             CPU_HALTED 8 0 (Regs 8 3 0 0 8) 9 48) [] [].

(** ** The vocabulary of the further properties *)

(** The bookkeeping of the stack is within its bounds: [stack_size] lies
    between 0 and [stack_capacity], which fits an [int32_t]. *)
Definition stack_bounded (c : cpu) : Prop :=
  0 <= stack_size c <= stack_capacity c /\ stack_capacity c < 2^31.

(** [c'] has the layout of [c] and the words of [c] below the stack slots
    (the indices up to [stack_bottom - stack_capacity]); the buffer has
    kept its length. *)
Definition lower_words_kept (c c' : cpu) : Prop :=
  stack_bottom c' = stack_bottom c /\
  stack_capacity c' = stack_capacity c /\
  end_of_stack c' = end_of_stack c /\
  length (memory c') = length (memory c) /\
  forall i, i <= stack_bottom c - stack_capacity c ->
            mem_read (memory c') i = mem_read (memory c) i.

Definition keeps_lower_words (h : M Z) : Prop :=
  forall w, stack_bounded (cpu_of w) ->
    post h w (fun _ w' => stack_bounded (cpu_of w') /\
                          lower_words_kept (cpu_of w) (cpu_of w')).

(** [stack_refused w ip]: the instruction at hand in [w] is a stack
    instruction that the state of the stack forbids (PUSH or CALL on a full
    stack, POP or RET on an empty one); [ip] is where its handler leaves
    the instruction pointer when it refuses: past the operands it has
    read, and for RET, which reads none, where it was. *)
Inductive stack_refused (w : world) : Z -> Prop :=
| refused_push r :
    fetched w = Some 0x11 -> operand w 1 = Some r -> valid_index r ->
    stack_size (cpu_of w) >= wrap32 (stack_capacity (cpu_of w)) ->
    stack_refused w (wrap32 (inst_index (cpu_of w) + 1))
| refused_pop r :
    fetched w = Some 0x12 -> operand w 1 = Some r -> valid_index r ->
    stack_size (cpu_of w) <= 0 ->
    stack_refused w (wrap32 (inst_index (cpu_of w) + 1))
| refused_call addr retaddr :
    fetched w = Some 0x18 ->
    operand w 1 = Some addr -> operand w 2 = Some retaddr ->
    stack_size (cpu_of w) >= wrap32 (stack_capacity (cpu_of w)) ->
    stack_refused w (wrap32 (inst_index (cpu_of w) + 2))
| refused_ret :
    fetched w = Some 0x19 -> stack_size (cpu_of w) = 0 ->
    stack_refused w (inst_index (cpu_of w)).

(** What a refused instruction leaves: the given status, the instruction
    pointer at [ip], and the rest of the state as in [w]. *)
Definition failed_with (s : cpu_status) (w : world) (ip : Z) (w' : world) : Prop :=
  status (cpu_of w') = s /\
  inst_index (cpu_of w') = ip /\
  registers (cpu_of w') = registers (cpu_of w) /\
  memory (cpu_of w') = memory (cpu_of w) /\
  stack_size (cpu_of w') = stack_size (cpu_of w) /\
  stdin w' = stdin w /\ stdout w' = stdout w.

(** Four consecutive bytes of the file, in file order, and the word they
    denote: the first byte is the lowest, and the 32 bits are read as an
    [int32_t]. *)
Definition quad : Type := (byte * byte * byte * byte)%type.

Definition le_word (q : quad) : Z :=
  let '(b0, b1, b2, b3) := q in
  wrap32 (byte_val b0 + 2^8 * byte_val b1 + 2^16 * byte_val b2
          + 2^24 * byte_val b3).

(** The file that holds the given words. *)
Fixpoint program_of (quads : list quad) : list byte :=
  match quads with
  | [] => []
  | (b0, b1, b2, b3) :: rest => b0 :: b1 :: b2 :: b3 :: program_of rest
  end.

(** The words below [below] are the same in both buffers. *)
Definition same_below (m m' : list Z) (below : Z) : Prop :=
  forall i, i < below -> mem_read m' i = mem_read m i.

(** What a successful step that does not jump leaves besides the registers:
    status [CPU_OK], the instruction pointer [k] words further, and the
    memory, the stack size, the input and the output as in [w]. *)
Definition advanced (k : Z) (w w' : world) : Prop :=
  status (cpu_of w') = CPU_OK /\
  inst_index (cpu_of w') = wrap32 (inst_index (cpu_of w) + k) /\
  memory (cpu_of w') = memory (cpu_of w) /\
  stack_size (cpu_of w') = stack_size (cpu_of w) /\
  stdin w' = stdin w /\ stdout w' = stdout w.

(** ADD, SUB and MUL, with the exact value of each on [a] and [b]. *)
Inductive arithmetic (a b : Z) : Z -> Z -> Prop :=
| arithmetic_add : arithmetic a b 0x02 (a + b)
| arithmetic_sub : arithmetic a b 0x03 (a - b)
| arithmetic_mul : arithmetic a b 0x04 (a * b).

(** INC and DEC, with the exact value of each on [v]. *)
Inductive counting (v : Z) : Z -> Z -> Prop :=
| counting_inc : counting v 0x06 (v + 1)
| counting_dec : counting v 0x07 (v - 1).

(** JZ, JNZ and JGT, with the comparison of [v1] and [v2] on which each
    jumps after CMP. *)
Inductive branches (v1 v2 : Z) : Z -> bool -> Prop :=
| branches_jz : branches v1 v2 21 (v1 =? v2)
| branches_jnz : branches v1 v2 22 (negb (v1 =? v2))
| branches_jgt : branches v1 v2 23 (v1 >? v2).

(** [not_executable w s]: the step from [w] cannot fetch an instruction,
    and [s] is the status that tells why: the instruction pointer is
    outside [0 .. end_of_stack], or the word there, read as unsigned, is
    none of the opcodes 0..25. *)
Inductive not_executable (w : world) : cpu_status -> Prop :=
| bad_address :
    ~ 0 <= inst_index (cpu_of w) <= end_of_stack (cpu_of w) ->
    not_executable w CPU_INVALID_ADDRESS
| bad_opcode op :
    0 <= inst_index (cpu_of w) <= end_of_stack (cpu_of w) ->
    fetched w = Some op -> ~ 0 <= op <= 25 ->
    not_executable w CPU_ILLEGAL_INSTRUCTION.

(** The state after [n] calls of [cpu_step] from [w], whatever they
    return. *)
Fixpoint after_steps (n : nat) (w : world) : world :=
  match n with
  | O => w
  | S n' =>
      match cpu_step w with
      | Some (_, w1) => after_steps n' w1
      | None => w
      end
  end.

(** ** More concrete machines *)

Module Sample.

(** [w] with the instruction pointer at [i]. *)
Definition at_index (w : world) (i : Z) : world :=
  World (with_inst_index (cpu_of w) i) (stdin w) (stdout w).

(** [w] with [input] waiting on the standard input. *)
Definition feed (w : world) (input : list byte) : world :=
  World (cpu_of w) input (stdout w).

(** A machine whose first word, 77, is no opcode. *)
Definition data : world := Demo.boot [77; 0; 0; 0] 2.

(** POP A on an empty stack. *)
Definition pop_empty : world := Demo.boot [0x12; 0; 0x01; 0; 0] 2.

(** [Demo.push] after MOVR A,7: about to PUSH A. *)
Definition at_push : world := after_steps 1 Demo.push.

(** GET B with the letter A on the input. *)
Definition get : world := feed (Demo.boot [0x0D; 1; 0x01; 0; 0] 2) [x41].

(** IN B with the digits 42 on the input. *)
Definition scan : world := feed (Demo.boot [0x0C; 1; 0x01; 0; 0] 2) [x34; x32].

(** OUT A with A = 65. *)
Definition out : world :=
  Demo.set_regs (Demo.boot [0x0E; 0; 0x01; 0; 0] 2) (Regs 65 0 0 0 0).

(** MOVR A,7; PUSH A; LOAD B,0; HALT after its first two instructions:
    about to LOAD B,0 with 7 on the stack. *)
Definition at_load : world :=
  after_steps 2 (Demo.boot [0x09; 0; 7; 0x11; 0; 0x0A; 1; 0; 0x01; 0; 0] 2).

(** [Demo.sum] after its two MOVR: about to ADD B with A = 5 and B = 3. *)
Definition at_add : world := after_steps 2 Demo.sum.

(** INC A with A = 41. *)
Definition inc : world :=
  Demo.set_regs (Demo.boot [0x06; 0; 0x01; 0; 0] 2) (Regs 41 0 0 0 0).

(** CMP A,B; JZ 6; HALT; HALT with A = B = 5. *)
Definition cmp_jz : world :=
  Demo.set_regs (Demo.boot [19; 0; 1; 21; 6; 0x01; 0x01; 0; 0] 2)
                (Regs 5 5 0 0 0).

(** DIV B; HALT with A = [INT_MIN] and B = -1. *)
Definition div_overflow : world :=
  Demo.set_regs (Demo.boot [0x05; 1; 0x01; 0; 0; 0] 2)
                (Regs (- 2^31) (-1) 0 0 0).

(** SWAP A,B with A = 1 and B = 2. *)
Definition swap : world :=
  Demo.set_regs (Demo.boot [0x10; 0; 1; 0x01; 0; 0] 2) (Regs 1 2 0 0 0).

(** The file of MOVR A,5 and HALT: four words of four bytes each. *)
Definition file : list quad :=
  [ (x09, x00, x00, x00); (x00, x00, x00, x00);
    (x05, x00, x00, x00); (x01, x00, x00, x00) ].

(** The buffer that the loader returns for [file] with two stack words,
    from an allocator whose storage holds 0x55555555. *)
Definition loaded : list Z :=
  match cpu_create_memory Demo.dirty_heap (program_of file) 2 with
  | Loaded m _ => m
  | _ => []
  end.

(** The state in which [Demo.push_halt] halts, and its reset. *)
Definition pushed : cpu :=
  Cpu [0x09; 0; 7; 0x11; 0; 0x01; 9; 0; 7] 8 2
      CPU_HALTED 5 1 (Regs 7 0 0 0 0) 6 36.

Definition pushed_reset : cpu :=
  Cpu [0x09; 0; 7; 0x11; 0; 0x01; 0; 0; 7] 8 2
      CPU_OK 5 0 zero_regs 6 36.

End Sample.

(** * Machine integers: wrap-around *)

Lemma wrap32_id z : int32 z -> wrap32 z = z.
Proof.
  unfold int32, wrap32. intros Hz.
  rewrite Z.mod_small by lia. lia.
Qed.

Lemma wrap32_range z : int32 (wrap32 z).
Proof.
  unfold int32, wrap32.
  pose proof (Z.mod_pos_bound (z + 2^31) (2^32)). lia.
Qed.

Lemma wrap32_idem z : wrap32 (wrap32 z) = wrap32 z.
Proof. apply wrap32_id, wrap32_range. Qed.

(** Wrapping commutes with adding a constant afterwards. *)
Lemma wrap32_add_l z k : wrap32 (wrap32 z + k) = wrap32 (z + k).
Proof.
  unfold wrap32.
  replace ((z + 2^31) mod 2^32 - 2^31 + k + 2^31)
    with ((z + 2^31) mod 2^32 + k) by lia.
  rewrite Zplus_mod_idemp_l. f_equal. f_equal. lia.
Qed.

Lemma wrap32_pred_succ z : int32 z -> wrap32 (wrap32 (z - 1) + 1) = z.
Proof.
  intros Hz. rewrite wrap32_add_l.
  replace (z - 1 + 1) with z by lia. by apply wrap32_id.
Qed.

Lemma wrap32_succ_pred z : int32 z -> wrap32 (wrap32 (z + 1) - 1) = z.
Proof.
  intros Hz. replace (wrap32 (z + 1) - 1) with (wrap32 (z + 1) + (-1)) by lia.
  rewrite wrap32_add_l.
  replace (z + 1 + -1) with z by lia. by apply wrap32_id.
Qed.

Lemma wrap32_shift z : exists q, wrap32 z = z + 2^32 * q.
Proof.
  unfold wrap32. exists (- ((z + 2^31) / 2^32)).
  pose proof (Z.div_mod (z + 2^31) (2^32)). lia.
Qed.

(** The truncated quotient of two [int32_t] values fits, except for
    [INT_MIN / -1]. *)
Lemma quot_fits a v :
  int32 a -> int32 v -> v <> 0 -> ~ (a = - 2^31 /\ v = -1) ->
  int32 (Z.quot a v).
Proof.
  unfold int32. intros Ha Hv Hnz Hmin.
  pose proof (Z.quot_rem' a v) as Hqr.
  assert (Z.abs (Z.rem a v) < Z.abs v) as Hr by (apply Z.rem_bound_abs; lia).
  assert (0 <= Z.rem a v * a) as Hs by (apply Z.rem_sign_mul; lia).
  nia.
Qed.

(** * Reasoning about the handlers *)

(** Arithmetic and buffer accesses stay folded during symbolic execution. *)
Arguments wrap32 : simpl never.
Arguments to_u32 : simpl never.
Arguments to_size : simpl never.
Arguments mem_read : simpl never.
Arguments mem_write : simpl never.
Arguments scanf_d : simpl never.
Arguments div32 : simpl never.
Arguments getchar : simpl never.
#[local] Arguments Z.add : simpl never.
#[local] Arguments Z.sub : simpl never.
#[local] Arguments Z.mul : simpl never.
#[local] Arguments Z.opp : simpl never.
#[local] Arguments Z.quot : simpl never.
#[local] Arguments Z.ltb : simpl never.
#[local] Arguments Z.gtb : simpl never.
#[local] Arguments Z.leb : simpl never.
#[local] Arguments Z.geb : simpl never.
#[local] Arguments Z.eqb : simpl never.

Section Rules.
Context {A B : Type}.

Lemma post_ret (a : A) w Q : Q a w -> post (ret a) w Q.
Proof. intros HQ a' w' [= <- <-]. exact HQ. Qed.

Lemma post_bind (m : M A) (k : A -> M B) w Q :
  post m w (fun a w1 => post (k a) w1 Q) -> post (bind m k) w Q.
Proof.
  intros Hm b w'. unfold bind.
  destruct (m w) as [[a w1]|] eqn:E; [|done].
  intros Hk. exact (Hm a w1 E b w' Hk).
Qed.

Lemma post_lift (o : option A) w Q :
  (forall a, o = Some a -> Q a w) -> post (lift_option o) w Q.
Proof.
  intros H a w'. destruct o as [x|]; cbn; [|done].
  intros [= <- <-]. by apply H.
Qed.

Lemma post_conseq (m : M A) w (Q Q' : A -> world -> Prop) :
  post m w Q -> (forall a w', Q a w' -> Q' a w') -> post m w Q'.
Proof. intros H HQ a w' E. apply HQ, (H a w' E). Qed.

Lemma wp_ret (a : A) w Q : Q a w -> wp (ret a) w Q.
Proof. intros HQ. by exists a, w. Qed.

Lemma wp_bind (m : M A) (k : A -> M B) w Q :
  wp m w (fun a w1 => wp (k a) w1 Q) -> wp (bind m k) w Q.
Proof.
  intros (a & w1 & E & b & w' & Ek & HQ).
  exists b, w'. unfold bind. by rewrite E.
Qed.

Lemma wp_lift (o : option A) (a : A) w Q :
  o = Some a -> Q a w -> wp (lift_option o) w Q.
Proof. intros -> HQ. by exists a, w. Qed.

Lemma wp_post (m : M A) w (Q Q' : A -> world -> Prop) :
  wp m w Q -> post m w Q' -> wp m w (fun a w' => Q a w' /\ Q' a w').
Proof. intros (a & w' & E & HQ) HP. exists a, w'. eauto. Qed.

Lemma wp_elim (m : M A) w Q a w' :
  wp m w Q -> m w = Some (a, w') -> Q a w'.
Proof. intros (a0 & w0 & E & HQ) E'. congruence. Qed.
End Rules.

Lemma post_get_cpu w Q : Q (cpu_of w) w -> post get_cpu w Q.
Proof. intros HQ a w' [= <- <-]. exact HQ. Qed.

Lemma post_put_cpu c w Q :
  Q tt (World c (stdin w) (stdout w)) -> post (put_cpu c) w Q.
Proof. intros HQ a w' [= <- <-]. exact HQ. Qed.

Lemma post_scan_int w Q :
  (forall v left, scanf_d (stdin w) = (v, left) ->
                  Q v (World (cpu_of w) left (stdout w))) ->
  post scan_int w Q.
Proof.
  intros HQ a w'. unfold scan_int.
  destruct (scanf_d (stdin w)) as [v left] eqn:E.
  intros [= <- <-]. by apply HQ.
Qed.

Lemma post_get_char w Q :
  (forall v left, getchar (stdin w) = (v, left) ->
                  Q v (World (cpu_of w) left (stdout w))) ->
  post get_char w Q.
Proof.
  intros HQ a w'. unfold get_char.
  destruct (getchar (stdin w)) as [v left] eqn:E.
  intros [= <- <-]. by apply HQ.
Qed.

Lemma post_print o w Q :
  Q tt (World (cpu_of w) (stdin w) (stdout w ++ [o])) -> post (print o) w Q.
Proof. intros HQ a w' [= <- <-]. exact HQ. Qed.

Lemma wp_get_cpu w Q : Q (cpu_of w) w -> wp get_cpu w Q.
Proof. intros HQ. by exists (cpu_of w), w. Qed.

Lemma wp_put_cpu c w Q :
  Q tt (World c (stdin w) (stdout w)) -> wp (put_cpu c) w Q.
Proof. intros HQ. by eexists tt, _. Qed.

Lemma wp_print o w Q :
  Q tt (World (cpu_of w) (stdin w) (stdout w ++ [o])) -> wp (print o) w Q.
Proof. intros HQ. by eexists tt, _. Qed.

Lemma wp_scan_int w Q :
  Q (scanf_d (stdin w)).1 (World (cpu_of w) (scanf_d (stdin w)).2 (stdout w)) ->
  wp scan_int w Q.
Proof.
  intros HQ. unfold wp, scan_int.
  destruct (scanf_d (stdin w)) as [v left]. eauto.
Qed.

Lemma wp_get_char w Q :
  Q (getchar (stdin w)).1 (World (cpu_of w) (getchar (stdin w)).2 (stdout w)) ->
  wp get_char w Q.
Proof.
  intros HQ. unfold wp, get_char.
  destruct (getchar (stdin w)) as [v left]. eauto.
Qed.

(** The derived operations, unfolded by the tactics below. *)
Create HintDb cpu_ops.
#[global] Hint Unfold read_memory read_stack write_stack read_register
  write_register set_status set_inst_index set_stack_size advance
  cpu_get_stack_size cpu_set_register cpu_get_register is_valid_reg : cpu_ops.

Create HintDb handlers.
#[global] Hint Unfold execute_nop execute_halt execute_add execute_sub
  execute_mul execute_div execute_inc execute_dec execute_loop execute_movr
  execute_in execute_get execute_out execute_put execute_swap execute_load
  execute_store execute_push execute_pop execute_call execute_ret
  execute_cmp execute_jmp execute_jz execute_jnz execute_jgt : handlers.

(** One step of symbolic execution of a [post] goal. *)
Ltac post_step :=
  lazymatch goal with
  | |- post (bind _ _) _ _ => apply post_bind
  | |- post (ret _) _ _ => apply post_ret
  | |- post get_cpu _ _ => apply post_get_cpu
  | |- post (put_cpu _) _ _ => apply post_put_cpu
  | |- post (lift_option _) _ _ =>
      let a := fresh "v" in let H := fresh "Hv" in
      apply post_lift; intros a H
  | |- post scan_int _ _ =>
      let a := fresh "v" in let l := fresh "left" in let H := fresh "Hscan" in
      apply post_scan_int; intros a l H
  | |- post get_char _ _ =>
      let a := fresh "v" in let l := fresh "left" in let H := fresh "Hget" in
      apply post_get_char; intros a l H
  | |- post (print _) _ _ => apply post_print
  | |- post (if ?b then _ else _) _ _ =>
      let H := fresh "Hb" in destruct b eqn:H
  | |- post (match ?o with Some _ => _ | None => _ end) _ _ =>
      let H := fresh "Ho" in destruct o eqn:H
  | |- post _ _ _ => progress autounfold with cpu_ops
  end; cbn [negb cpu_of stdin stdout].

Ltac post_run := repeat post_step.

(** One step of symbolic execution of a [wp] goal: reads succeed by the
    hypotheses at hand, and a branch is taken when arithmetic decides it. *)
Ltac wp_branch b :=
  let H := fresh "Hb" in
  destruct b eqn:H; [ try (exfalso; lia) | try (exfalso; lia) ].

Ltac wp_step :=
  lazymatch goal with
  | |- wp (bind _ _) _ _ => apply wp_bind
  | |- wp (ret _) _ _ => apply wp_ret
  | |- wp get_cpu _ _ => apply wp_get_cpu
  | |- wp (put_cpu _) _ _ => apply wp_put_cpu
  | |- wp (lift_option _) _ _ =>
      eapply wp_lift; [ first [ eassumption | reflexivity ] | ]
  | |- wp scan_int _ _ => apply wp_scan_int
  | |- wp get_char _ _ => apply wp_get_char
  | |- wp (print _) _ _ => apply wp_print
  | |- wp (if ?b then _ else _) _ _ => wp_branch b
  | |- wp _ _ _ => progress autounfold with cpu_ops
  end; cbn.

Ltac wp_run := repeat wp_step.

(** * Reads and writes of the buffer *)

Lemma mem_write_is_Some m i v :
  0 <= i < Z.of_nat (length m) -> is_Some (mem_write m i v).
Proof.
  intros Hi. unfold mem_write.
  replace ((0 <=? i) && (i <? Z.of_nat (length m))) with true by lia. eauto.
Qed.

Lemma mem_read_bounds m i v :
  mem_read m i = Some v -> 0 <= i < Z.of_nat (length m).
Proof.
  unfold mem_read. destruct (0 <=? i) eqn:E; [|done].
  intros H%lookup_lt_Some. lia.
Qed.

Lemma mem_read_write_eq m i v m' :
  mem_write m i v = Some m' -> mem_read m' i = Some v.
Proof.
  unfold mem_write, mem_read.
  destruct ((0 <=? i) && (i <? Z.of_nat (length m))) eqn:E; [|done].
  intros [= <-]. replace (0 <=? i) with true by lia.
  apply list_lookup_insert_eq. lia.
Qed.

Lemma mem_read_write_ne m i j v m' :
  mem_write m i v = Some m' -> i <> j -> mem_read m' j = mem_read m j.
Proof.
  unfold mem_write, mem_read.
  destruct ((0 <=? i) && (i <? Z.of_nat (length m))) eqn:E; [|done].
  intros [= <-] Hne. destruct (0 <=? j) eqn:Ej; [|done].
  apply list_lookup_insert_ne. lia.
Qed.

Lemma mem_write_length m i v m' :
  mem_write m i v = Some m' -> length m' = length m.
Proof.
  unfold mem_write. case_match; [|done]. intros [= <-].
  apply length_insert.
Qed.

Lemma memset_zero_guard m start nbytes m' :
  memset_zero m start nbytes = Some m' ->
  0 <= start /\ 0 <= nbytes /\
  start + nbytes / 4 <= Z.of_nat (length m) /\ nbytes mod 4 = 0.
Proof.
  unfold memset_zero.
  destruct ((0 <=? start) && (0 <=? nbytes)
            && (start + nbytes / 4 <=? Z.of_nat (length m))
            && (nbytes mod 4 =? 0)) eqn:Hguard; [|done].
  intros _. lia.
Qed.

Lemma memset_zero_length m start nbytes m' :
  memset_zero m start nbytes = Some m' -> length m' = length m.
Proof.
  intros Hset. destruct (memset_zero_guard _ _ _ _ Hset) as (? & ? & ? & ?).
  assert (0 <= nbytes / 4) by (apply Z.div_pos; lia).
  unfold memset_zero in Hset.
  destruct ((0 <=? start) && (0 <=? nbytes)
            && (start + nbytes / 4 <=? Z.of_nat (length m))
            && (nbytes mod 4 =? 0)); [|done].
  injection Hset as <-.
  rewrite !length_app, length_take, length_replicate, length_drop. lia.
Qed.

Lemma memset_zero_read m start nbytes m' i :
  memset_zero m start nbytes = Some m' ->
  mem_read m' i =
    if (start <=? i) && (i <? start + nbytes / 4) then Some 0
    else mem_read m i.
Proof.
  unfold memset_zero.
  destruct ((0 <=? start) && (0 <=? nbytes)
            && (start + nbytes / 4 <=? Z.of_nat (length m))
            && (nbytes mod 4 =? 0)) eqn:Hguard; [|done].
  intros [= <-].
  assert (0 <= nbytes / 4) as Hn by (apply Z.div_pos; lia).
  unfold mem_read. destruct (0 <=? i) eqn:Hi.
  2:{ by replace ((start <=? i) && (i <? start + nbytes / 4)) with false by lia. }
  destruct (decide (i < start)) as [Hlt|Hge].
  { replace ((start <=? i) && (i <? start + nbytes / 4)) with false by lia.
    rewrite lookup_app_l by (rewrite length_take; lia).
    apply lookup_take_lt. lia. }
  rewrite lookup_app_r by (rewrite length_take; lia).
  rewrite length_take, Nat.min_l by lia.
  destruct (decide (i < start + nbytes / 4)) as [Hin|Hout].
  - replace ((start <=? i) && (i <? start + nbytes / 4)) with true by lia.
    rewrite lookup_app_l by (rewrite length_replicate; lia).
    apply lookup_replicate_2. lia.
  - replace ((start <=? i) && (i <? start + nbytes / 4)) with false by lia.
    rewrite lookup_app_r by (rewrite length_replicate; lia).
    rewrite length_replicate, lookup_drop. f_equal. lia.
Qed.

(** * The outcome of a step *)

Ltac finish_status :=
  unfold reports_status; cbn;
  first [ left; split; [reflexivity | congruence]
        | right; split; [reflexivity | congruence] ].

Lemma handlers_report :
  Forall (fun i => handler_reports (execute i)) instructions.
Proof.
  unfold instructions.
  repeat (apply Forall_cons_2;
          [ cbn [execute]; intros w Hw; autounfold with handlers;
            post_run; finish_status | ]).
  apply Forall_nil_2.
Qed.

Lemma lookup_instruction_Some table word h :
  lookup_instruction table word = Some h ->
  exists i, i ∈ table /\ opcode i = word /\ execute i = h.
Proof.
  induction table as [|i table IH]; cbn; [done|].
  destruct (opcode i =? word) eqn:E.
  - intros [= <-]. exists i. split; [left|]. split; [lia|done].
  - intros (j & Hj & ?)%IH. exists j. split; [by right|done].
Qed.

Lemma cpu_step_reports w :
  status (cpu_of w) = CPU_OK -> post cpu_step w reports_status.
Proof.
  intros Hw. unfold cpu_step. post_run; try finish_status.
  { by rewrite bool_decide_eq_true_2 in Hb. }
  apply lookup_instruction_Some in Ho as (i & Hi & _ & <-).
  pose proof handlers_report as Hall.
  rewrite Forall_forall in Hall. specialize (Hall i Hi w Hw).
  eapply post_conseq; [exact Hall|].
  intros r w1 Hr. cbn beta. post_run.
  - destruct Hr as [[-> _]|[_ Hr]]; [done|]. by right.
  - destruct Hr as [[_ Hr]|[-> _]]; [|done]. left. by cbn.
Qed.

(** Only the handler of opcode 0x01 (HALT) sets the status [CPU_HALTED]. *)
Lemma handlers_halt :
  Forall (fun i => opcode i <> 0x01 ->
                   forall w, status (cpu_of w) = CPU_OK ->
                   post (execute i) w
                        (fun _ w' => status (cpu_of w') <> CPU_HALTED))
         instructions.
Proof.
  unfold instructions.
  repeat (apply Forall_cons_2;
          [ cbn [execute opcode]; intros Hop w Hw; try done;
            autounfold with handlers; post_run; cbn; congruence | ]).
  apply Forall_nil_2.
Qed.

Lemma cpu_step_halted w r w' :
  status (cpu_of w) = CPU_OK ->
  cpu_step w = Some (r, w') ->
  status (cpu_of w') = CPU_HALTED ->
  r = 0 /\ fetched w = Some 0x01.
Proof.
  intros Hw Hstep Hhalt.
  split.
  { destruct (cpu_step_reports w Hw r w' Hstep) as [[_ ?]|[? _]];
      [congruence|done]. }
  revert r w' Hstep Hhalt. change (post cpu_step w
    (fun _ w' => status (cpu_of w') = CPU_HALTED -> fetched w = Some 1)).
  unfold cpu_step. post_run; cbn; try congruence.
  apply lookup_instruction_Some in Ho as (i & Hi & Hop & <-).
  pose proof handlers_halt as Hall.
  rewrite Forall_forall in Hall. specialize (Hall i Hi).
  destruct (decide (opcode i = 1)) as [Hone|Hne].
  - intros r w1 _. post_run; cbn; intros _;
      unfold fetched; rewrite Hv; cbn; congruence.
  - eapply post_conseq; [exact (Hall Hne w Hw)|].
    intros r w1 Hr. cbn beta. post_run; cbn; congruence.
Qed.

Arguments lookup_instruction : simpl never.

(** The entry of [cpu_step] on a machine that may run: the word at the
    instruction pointer selects the handler. *)
Lemma cpu_step_dispatch w op h Q :
  status (cpu_of w) = CPU_OK ->
  0 <= inst_index (cpu_of w) <= end_of_stack (cpu_of w) ->
  fetched w = Some op ->
  lookup_instruction instructions op = Some h ->
  wp h w (fun executed w1 =>
            if executed =? 0 then Q 0 w1
            else Q 1 (World (with_inst_index (cpu_of w1)
                               (wrap32 (inst_index (cpu_of w1) + 1)))
                            (stdin w1) (stdout w1))) ->
  wp cpu_step w Q.
Proof.
  intros Hw Hip Hop Hh Hwp. unfold fetched in Hop.
  destruct (mem_read _ _) as [word|] eqn:Hword; [|done].
  injection Hop as Hop.
  unfold cpu_step. apply wp_bind, wp_get_cpu. cbn beta.
  rewrite bool_decide_eq_true_2 by done. cbn [negb].
  replace ((inst_index (cpu_of w) <? 0)
           || (inst_index (cpu_of w) >? end_of_stack (cpu_of w)))
    with false by lia.
  wp_run.
  rewrite Hop, Hh. apply wp_bind.
  destruct Hwp as (a & w1 & E & HQ). exists a, w1. split; [done|].
  destruct (a =? 0); wp_run; done.
Qed.

(** * The count that [cpu_run] returns *)

Lemma cpu_step_one w w1 :
  status (cpu_of w) = CPU_OK -> cpu_step w = Some (1, w1) ->
  status (cpu_of w1) = CPU_OK.
Proof.
  intros Hw Hstep.
  destruct (cpu_step_reports w Hw _ _ Hstep) as [[_ ?]|[? _]]; [done|lia].
Qed.

Lemma succeeds_status n w w' :
  succeeds n w w' -> status (cpu_of w) = CPU_OK -> status (cpu_of w') = CPU_OK.
Proof.
  induction 1 as [|n w w1 w' Hstep _ IH]; [done|].
  intros Hw. apply IH. by eapply cpu_step_one.
Qed.

Lemma loop_outcome_step n w w1 ex er counts w' :
  cpu_step w = Some (1, w1) ->
  loop_outcome n w1 (ex + 1) er counts w' ->
  loop_outcome (S n) w ex er counts w'.
Proof.
  intros Hstep [[Hs ->]|[(k & w2 & r & Hk & Hs & Hlast & Hh & ->)
                        |(k & w2 & Hk & Hs & Hlast & Hh & ->)]].
  - left. split; [by econstructor|]. f_equal. lia.
  - right; left. exists (S k), w2, r.
    split; [lia|]. split; [by econstructor|]. repeat split; try done.
    f_equal. lia.
  - right; right. exists (S k), w2.
    split; [lia|]. split; [by econstructor|]. repeat split; try done.
    f_equal. lia.
Qed.

(** The loop, unfolded once on a step that returned. *)
Lemma run_loop_S n ex er w r w1 :
  cpu_step w = Some (r, w1) ->
  run_loop (S n) ex er w =
    if bool_decide (status (cpu_of w1) = CPU_HALTED)
    then Some ((ex + 1, er), w1)
    else if r =? 0 then Some ((ex, er + 1), w1)
    else run_loop n (ex + 1) er w1.
Proof.
  intros Hstep. cbn [run_loop]. unfold bind at 1. rewrite Hstep.
  unfold bind, get_cpu. by repeat case_match.
Qed.

Lemma run_loop_sound n : forall w ex er counts w',
  status (cpu_of w) = CPU_OK ->
  run_loop n ex er w = Some (counts, w') ->
  loop_outcome n w ex er counts w'.
Proof.
  induction n as [|n IH]; intros w ex er counts w' Hw.
  - intros [= <- <-]. left. split; [constructor|]. f_equal. cbn. lia.
  - destruct (cpu_step w) as [[r w1]|] eqn:Hstep.
    2:{ cbn [run_loop]. unfold bind at 1. by rewrite Hstep. }
    rewrite (run_loop_S _ _ _ _ _ _ Hstep).
    pose proof (cpu_step_reports w Hw _ _ Hstep) as Hr.
    case_bool_decide as Hh.
    { intros [= <- <-]. right; left. exists 0%nat, w, r.
      split; [lia|]. split; [constructor|]. repeat split; try done.
      f_equal. cbn. lia. }
    destruct Hr as [[-> Hok]|[-> Hbad]].
    + replace (1 =? 0) with false by lia. intros Hrun.
      eapply loop_outcome_step; [done|]. by apply IH.
    + replace (0 =? 0) with true by lia. intros [= <- <-].
      right; right. exists 0%nat, w.
      split; [lia|]. split; [constructor|]. repeat split; try done.
      f_equal. cbn. lia.
Qed.

Lemma run_loop_budget n w w' : succeeds n w w' ->
  forall ex er, status (cpu_of w) = CPU_OK ->
  run_loop n ex er w = Some ((ex + Z.of_nat n, er), w').
Proof.
  induction 1 as [w|n w w1 w' Hstep Hs IH]; intros ex er Hw.
  - cbn. unfold ret. do 3 f_equal. lia.
  - rewrite (run_loop_S _ _ _ _ _ _ Hstep).
    pose proof (cpu_step_one _ _ Hw Hstep) as Hok.
    rewrite bool_decide_eq_false_2 by congruence.
    replace (1 =? 0) with false by lia.
    rewrite IH by done. do 3 f_equal. lia.
Qed.

Lemma run_loop_last k w w1 : succeeds k w w1 ->
  forall n ex er r w',
  (k < n)%nat -> status (cpu_of w) = CPU_OK ->
  cpu_step w1 = Some (r, w') ->
  run_loop n ex er w =
    if bool_decide (status (cpu_of w') = CPU_HALTED)
    then Some ((ex + Z.of_nat k + 1, er), w')
    else if r =? 0 then Some ((ex + Z.of_nat k, er + 1), w')
    else run_loop (n - S k) (ex + Z.of_nat k + 1) er w'.
Proof.
  induction 1 as [w|k w w1 w2 Hstep Hs IH]; intros n ex er r w' Hk Hw Hlast.
  - destruct n as [|n]; [lia|].
    rewrite (run_loop_S _ _ _ _ _ _ Hlast).
    replace (ex + Z.of_nat 0) with ex by lia.
    by replace (S n - 1)%nat with n by lia.
  - destruct n as [|n]; [lia|].
    rewrite (run_loop_S _ _ _ _ _ _ Hstep).
    pose proof (cpu_step_one _ _ Hw Hstep) as Hok.
    rewrite bool_decide_eq_false_2 by congruence.
    replace (1 =? 0) with false by lia.
    rewrite (IH n (ex + 1) er r w') by (done || lia).
    replace (ex + 1 + Z.of_nat k) with (ex + Z.of_nat (S k)) by lia.
    by replace (S n - S (S k))%nat with (n - S k)%nat by lia.
Qed.

Lemma run_loop_complete n w ex er counts w' :
  status (cpu_of w) = CPU_OK ->
  loop_outcome n w ex er counts w' ->
  run_loop n ex er w = Some (counts, w').
Proof.
  intros Hw [[Hs ->]|[(k & w1 & r & Hk & Hs & Hlast & Hh & ->)
                     |(k & w1 & Hk & Hs & Hlast & Hh & ->)]].
  - by apply run_loop_budget.
  - rewrite (run_loop_last _ _ _ Hs n ex er r w') by done.
    by rewrite bool_decide_eq_true_2.
  - rewrite (run_loop_last _ _ _ Hs n ex er 0 w') by done.
    by rewrite bool_decide_eq_false_2.
Qed.

(** C1.  Let the machine be in status [CPU_OK].  [cpu_run steps] returns
    [r] and leaves the state [w'] exactly when one of these holds:
    - each of the [steps] calls of [cpu_step] returned 1, and [r = steps]
      (the budget is exhausted);
    - [k < steps] calls returned 1, the next one fetched HALT (0x01) and
      left the status [CPU_HALTED], and [r = k + 1]: the halting step is
      counted;
    - [k < steps] calls returned 1, the next one returned 0 leaving an
      error status, and [r = - (k + 1)]: the steps attempted, the failing
      one included, negated.
    So the value is the non-negative count of executed steps on a normal
    stop and the negated count of attempted steps on an error, and
    [cpu_run] does return whenever its steps do. *)
Theorem cpu_run_count (steps : nat) (w : world) (r : Z) (w' : world) :
  status (cpu_of w) = CPU_OK ->
  cpu_run steps w = Some (r, w') <->
    (succeeds steps w w' /\ r = Z.of_nat steps) \/
    (exists k w1, (k < steps)%nat /\ succeeds k w w1 /\
       fetched w1 = Some 0x01 /\ cpu_step w1 = Some (0, w') /\
       status (cpu_of w') = CPU_HALTED /\ r = Z.of_nat k + 1) \/
    (exists k w1, (k < steps)%nat /\ succeeds k w w1 /\
       cpu_step w1 = Some (0, w') /\
       status (cpu_of w') <> CPU_OK /\ status (cpu_of w') <> CPU_HALTED /\
       r = - (Z.of_nat k + 1)).
Proof.
  intros Hw.
  assert (cpu_run steps w =
          match run_loop steps 0 0 w with
          | Some ((ex, er), w1) =>
              Some (if er >? 0 then - (er + ex) else ex, w1)
          | None => None
          end) as ->.
  { unfold cpu_run, bind, get_cpu. rewrite bool_decide_eq_true_2 by done.
    cbn [negb]. destruct (run_loop steps 0 0 w) as [[[ex er] w1]|]; [|done].
    by destruct (er >? 0). }
  split.
  - destruct (run_loop steps 0 0 w) as [[[ex er] w1]|] eqn:Hloop; [|done].
    intros [= <- <-].
    apply run_loop_sound in Hloop; [|done].
    destruct Hloop as [[Hs [= -> ->]]
                      |[(k & w2 & r0 & Hk & Hs & Hlast & Hh & [= -> ->])
                       |(k & w2 & Hk & Hs & Hlast & Hh & [= -> ->])]].
    + left. split; [done|]. replace (0 >? 0) with false by lia. lia.
    + right; left. exists k, w2.
      pose proof (succeeds_status _ _ _ Hs Hw) as Hw2.
      destruct (cpu_step_halted _ _ _ Hw2 Hlast Hh) as [-> Hf].
      repeat split; try done.
      all: try (replace (0 >? 0) with false by lia; lia).
    + right; right. exists k, w2.
      pose proof (succeeds_status _ _ _ Hs Hw) as Hw2.
      destruct (cpu_step_reports _ Hw2 _ _ Hlast) as [[? _]|[_ Hbad]]; [lia|].
      repeat split; try done.
      all: try (replace (0 + 1 >? 0) with true by lia; lia).
  - intros [[Hs ->]|[(k & w1 & Hk & Hs & _ & Hlast & Hh & ->)
                    |(k & w1 & Hk & Hs & Hlast & _ & Hh & ->)]].
    + rewrite (run_loop_complete steps w 0 0 (0 + Z.of_nat steps, 0) w')
        by (done || (left; done)).
      replace (0 >? 0) with false by lia. by rewrite Z.add_0_l.
    + rewrite (run_loop_complete steps w 0 0 (0 + Z.of_nat k + 1, 0) w').
      * replace (0 >? 0) with false by lia. by rewrite Z.add_0_l.
      * done.
      * right; left. by exists k, w1, 0.
    + rewrite (run_loop_complete steps w 0 0 (0 + Z.of_nat k, 0 + 1) w').
      * replace (0 + 1 >? 0) with true by lia. do 2 f_equal. lia.
      * done.
      * right; right. by exists k, w1.
Qed.

(** [cpu_run_count] at the four-instruction program of [Demo.sum]: the run
    with budget 10 returns 4 in [sum_halted], so one of the three cases
    holds there (the second, with three steps before the HALT). *)
Lemma cpu_run_count_witness :
  (succeeds 10 Demo.sum sum_halted /\ 4 = Z.of_nat 10) \/
  (exists k w1, (k < 10)%nat /\ succeeds k Demo.sum w1 /\
     fetched w1 = Some 0x01 /\ cpu_step w1 = Some (0, sum_halted) /\
     status (cpu_of sum_halted) = CPU_HALTED /\ 4 = Z.of_nat k + 1) \/
  (exists k w1, (k < 10)%nat /\ succeeds k Demo.sum w1 /\
     cpu_step w1 = Some (0, sum_halted) /\
     status (cpu_of sum_halted) <> CPU_OK /\
     status (cpu_of sum_halted) <> CPU_HALTED /\
     4 = - (Z.of_nat k + 1)).
Proof.
  apply (cpu_run_count 10 Demo.sum 4 sum_halted).
  - reflexivity.
  - vm_compute. reflexivity.
Defined.

(** * A register-index operand out of range *)

Ltac elem_cases H :=
  repeat (apply elem_of_cons in H as [H|H]; [subst|]);
  try (by apply elem_of_nil in H).

(** C2, as amended.  On a machine in status [CPU_OK] with the instruction
    pointer within bounds: when the fetched instruction is one of ADD, SUB,
    MUL, DIV, INC, DEC, MOVR, GET, OUT, PUT, SWAP, LOAD, STORE, PUSH, POP,
    CMP and one of its register-index operands is outside 0..4, the step
    returns 0 with status [CPU_ILLEGAL_OPERAND] and the instruction pointer
    already advanced by the operand count [n] (a 32-bit addition), the
    registers, memory, stack size and streams being as before.  IN (0x0C)
    validates first: on the same failure its instruction pointer has not
    moved. *)
Theorem illegal_operand_pointer w op :
  status (cpu_of w) = CPU_OK ->
  0 <= inst_index (cpu_of w) <= end_of_stack (cpu_of w) ->
  fetched w = Some op ->
  (forall n, bad_operand w op n ->
     exists w', cpu_step w = Some (0, w') /\
       rejected w (wrap32 (inst_index (cpu_of w) + n)) w') /\
  (forall r, op = 0x0C -> operand w 1 = Some r -> ~ valid_index r ->
     exists w', cpu_step w = Some (0, w') /\
       rejected w (inst_index (cpu_of w)) w').
Proof.
  intros Hw Hip Hop. unfold valid_index, operand, rejected. split.
  - intros n Hbad.
    enough (wp cpu_step w (fun a w' => a = 0 /\
              rejected w (wrap32 (inst_index (cpu_of w) + n)) w'))
      as (a & w' & E & -> & H); [by exists w'|].
    unfold rejected.
    destruct Hbad as [r Hin Hr Hbad|r i Hin Hr Hi Hbad|r1 r2 Hin H1 H2 Hbad];
      unfold operand, valid_index in *; elem_cases Hin.
    all: (eapply cpu_step_dispatch; [done..|reflexivity|]);
      cbn [execute]; autounfold with handlers; wp_run; done.
  - intros r -> Hr Hbad.
    enough (wp cpu_step w (fun a w' => a = 0 /\
              rejected w (inst_index (cpu_of w)) w'))
      as (a & w' & E & -> & H); [by exists w'|].
    unfold rejected.
    eapply cpu_step_dispatch; [done..|reflexivity|].
    unfold execute_in. wp_run. done.
Qed.

(** [illegal_operand_pointer] at [Demo.add_bad], an ADD whose operand is
    7: the step fails with the instruction pointer moved from 0 to 1. *)
Lemma illegal_operand_pointer_witness :
  exists w', cpu_step Demo.add_bad = Some (0, w') /\
    rejected Demo.add_bad (wrap32 (inst_index (cpu_of Demo.add_bad) + 1)) w'.
Proof.
  apply (illegal_operand_pointer Demo.add_bad 0x02).
  - reflexivity.
  - vm_compute. split; discriminate.
  - reflexivity.
  - apply (bad_one _ _ 7).
    + vm_compute. left.
    + reflexivity.
    + unfold valid_index. lia.
Defined.

(** C2 fails for IN: with the register index 7, [Demo.in_bad] ends in
    status [CPU_ILLEGAL_OPERAND] with the instruction pointer where it was,
    not past the operand word. *)
Lemma in_validates_before_advancing :
  fetched Demo.in_bad = Some 0x0C /\
  operand Demo.in_bad 1 = Some 7 /\
  exists w', cpu_step Demo.in_bad = Some (0, w') /\
    status (cpu_of w') = CPU_ILLEGAL_OPERAND /\
    inst_index (cpu_of w') = inst_index (cpu_of Demo.in_bad) /\
    inst_index (cpu_of w') <> wrap32 (inst_index (cpu_of Demo.in_bad) + 1).
Proof.
  split; [reflexivity|]. split; [reflexivity|].
  eexists. split; [vm_compute; reflexivity|]. split; [reflexivity|].
  split; [reflexivity|]. vm_compute. discriminate.
Qed.

(** * The loader on its input *)

Lemma byte_val_nonneg b : 0 <= byte_val b.
Proof. unfold byte_val. lia. Qed.

Lemma realloc_block_length h m size m' :
  realloc_block h m size = Some m' ->
  Z.of_nat (length m') = Z.of_nat (length m) + BLOCK_SIZE.
Proof.
  unfold realloc_block. destruct (can_alloc h _); [|done].
  intros H. apply (inj Some) in H. subst m'.
  rewrite length_app, length_fmap, length_seqZ.
  change BLOCK_SIZE with 1024. lia.
Qed.

Lemma fresh_block_read h m size i :
  Z.of_nat (length m) = size ->
  size <= i < size + BLOCK_SIZE ->
  mem_read (m ++ (fresh h <$> seqZ size BLOCK_SIZE)) i = Some (fresh h i).
Proof.
  intros Hlen Hi. unfold mem_read. replace (0 <=? i) with true by lia.
  rewrite lookup_app_r by lia.
  rewrite list_lookup_fmap.
  rewrite (lookup_seqZ_lt _ _ _) by lia.
  cbn. do 2 f_equal. lia.
Qed.

Lemma realloc_block_fresh h m size m' from :
  Z.of_nat (length m) = size ->
  realloc_block h m size = Some m' ->
  fresh_from h m from size ->
  fresh_from h m' from (size + BLOCK_SIZE).
Proof.
  intros Hlen Hre Hfresh i Hi.
  unfold realloc_block in Hre. destruct (can_alloc h _); [|done].
  apply (inj Some) in Hre. subst m'.
  destruct (decide (i < size)) as [Hlt|Hge].
  - rewrite <- (Hfresh i) by lia. unfold mem_read.
    destruct (0 <=? i) eqn:E; [|done]. apply lookup_app_l. lia.
  - apply fresh_block_read; [done|lia].
Qed.

Lemma read_program_spec h program : forall l,
  loader_ok h l ->
  match read_program h program l with
  | inl l' =>
      loader_ok h l' /\
      l_cycle_index l' = (l_cycle_index l + Z.of_nat (length program)) mod 4
  | inr r => r = LoadNull /\ exists n, can_alloc h n = false
  end.
Proof.
  induction program as [|b rest IH]; intros l (Hlen & Hidx & Hcyc & Hfresh & Hblock).
  - cbn. split; [done|]. rewrite Z.add_0_r, Z.mod_small; lia.
  - cbn [read_program].
    set (grown := if l_memory_index l =? l_memory_size l then _ else _).
    assert (match grown with
            | Some (m, size) =>
                Z.of_nat (length m) = size /\ l_memory_index l < size /\
                fresh_from h m (l_memory_index l) size /\ BLOCK_SIZE <= size
            | None => exists n, can_alloc h n = false
            end) as Hgrown.
    { subst grown. destruct (l_memory_index l =? l_memory_size l) eqn:E.
      - destruct (realloc_block h _ _) as [m'|] eqn:Hre.
        + pose proof (realloc_block_fresh _ _ _ _ _ Hlen Hre Hfresh).
          apply realloc_block_length in Hre.
          change BLOCK_SIZE with 1024 in *.
          split; [lia|]. split; [lia|]. split; [done|lia].
        + unfold realloc_block in Hre. case_match; [done|]. eauto.
      - split; [done|]. split; [lia|]. split; done. }
    destruct grown as [[m size]|]; [|done].
    destruct Hgrown as (Hm & Hlt & Hfresh' & Hblock').
    pose proof (byte_val_nonneg b) as Hb.
    destruct (l_cycle_index l + 1 =? 4) eqn:E4.
    + destruct (mem_write_is_Some m (l_memory_index l)
                  (wrap32 (Z.lor (l_result l)
                     (to_u32 (wrap32 (Z.shiftl (byte_val b)
                                                (l_cycle_index l * 8)))))))
        as [m' Hm']; [lia|].
      rewrite Hm'. replace (byte_val b =? EOF) with false by (unfold EOF; lia).
      assert (loader_ok h (Loader m' size (l_memory_index l + 1) 0 0)) as Hok'.
      { unfold loader_ok; cbn. rewrite (mem_write_length _ _ _ _ Hm').
        split; [done|]. split; [lia|]. split; [lia|]. split; [|done].
        intros i Hi. rewrite (mem_read_write_ne _ _ _ _ _ Hm') by lia.
        apply Hfresh'. lia. }
      specialize (IH _ Hok').
      destruct (read_program h rest _) as [l'|r]; [|done].
      destruct IH as [Hok ->].
      split; [done|]. cbn [l_cycle_index length].
      replace (l_cycle_index l) with 3 by lia.
      replace (3 + Z.of_nat (S (length rest)))
        with (0 + Z.of_nat (length rest) + 1 * 4) by lia.
      by rewrite Z.mod_add.
    + replace (byte_val b =? EOF) with false by (unfold EOF; lia).
      assert (loader_ok h (Loader m size (l_memory_index l)
                (l_cycle_index l + 1)
                (Z.lor (l_result l)
                   (to_u32 (wrap32 (Z.shiftl (byte_val b)
                                              (l_cycle_index l * 8)))))))
        as Hok'.
      { unfold loader_ok; cbn.
        split; [done|]. split; [lia|]. split; [lia|]. split; done. }
      specialize (IH _ Hok').
      destruct (read_program h rest _) as [l'|r]; [|done].
      destruct IH as [Hok ->].
      split; [done|]. cbn [l_cycle_index length]. f_equal. lia.
Qed.

Lemma initial_loader_ok h :
  loader_ok h (Loader (fresh h <$> seqZ 0 BLOCK_SIZE) BLOCK_SIZE 0 0 0).
Proof.
  unfold loader_ok. cbn. rewrite length_fmap, length_seqZ.
  change BLOCK_SIZE with 1024.
  split; [lia|]. split; [lia|]. split; [lia|]. split; [|lia].
  intros i Hi. change 1024 with BLOCK_SIZE.
  apply (fresh_block_read h [] 0 i); [done|].
  change BLOCK_SIZE with 1024. lia.
Qed.

(** When the length of the input is not a multiple of 4, the loader, its
    assertions enabled, returns no buffer: either an allocation fails and
    it returns [NULL], or its assertion [cycle_index == 0] fails; and when
    every allocation succeeds it is the assertion that stops it, so no
    null result is returned in that case. *)
Theorem truncated_input_never_loads h program stack_capacity :
  Z.of_nat (length program) mod 4 <> 0 ->
  (cpu_create_memory h program stack_capacity = LoadNull \/
   cpu_create_memory h program stack_capacity = LoadAborted) /\
  ((forall n, can_alloc h n = true) ->
   cpu_create_memory h program stack_capacity = LoadAborted).
Proof.
  intros Hlen. unfold cpu_create_memory.
  destruct (can_alloc h _) eqn:Halloc; cbn [negb].
  2:{ split; [by left|]. intros Hall. by rewrite Hall in Halloc. }
  pose proof (read_program_spec h program _ (initial_loader_ok h)) as Hread.
  destruct (read_program h program _) as [l|r].
  - destruct Hread as [_ Hcyc].
    cbn [l_cycle_index] in Hcyc. rewrite Z.add_0_l in Hcyc.
    replace (l_cycle_index l =? 0) with false by lia. cbn [negb].
    split; [by right|done].
  - destruct Hread as [-> [n Hn]].
    split; [by left|]. intros Hall. by rewrite Hall in Hn.
Qed.

(** [truncated_input_never_loads] at an input of one byte. *)
Lemma truncated_input_never_loads_witness :
  (cpu_create_memory Demo.clean_heap [x01] 0 = LoadNull \/
   cpu_create_memory Demo.clean_heap [x01] 0 = LoadAborted) /\
  ((forall n, can_alloc Demo.clean_heap n = true) ->
   cpu_create_memory Demo.clean_heap [x01] 0 = LoadAborted).
Proof.
  apply (truncated_input_never_loads Demo.clean_heap [x01] 0).
  vm_compute. discriminate.
Defined.

(** C4, evaluated where the code departs from it.  On an input of one
    byte, with an allocator that never fails, the loader does not return
    [NULL]: the test [ch == EOF] inside the reading loop never holds (the
    loop condition has excluded it), so the return of [NULL] that follows
    it is dead, and the pending partial word is met by the assertion
    [cycle_index == 0] after the loop, which fails. *)
Lemma truncated_input_aborts :
  cpu_create_memory Demo.clean_heap [x01] 0 = LoadAborted /\
  cpu_create_memory Demo.clean_heap [x01] 0 <> LoadNull.
Proof. split; [by vm_compute|]. vm_compute. discriminate. Qed.

(** The second loop of the loader keeps what the first established. *)
Lemma extend_for_stack_spec h fuel : forall m size idx cap,
  Z.of_nat (length m) = size ->
  fresh_from h m idx size ->
  match extend_for_stack h fuel m size idx cap with
  | Some (inl (m', size')) =>
      Z.of_nat (length m') = size' /\ size <= size' /\
      fresh_from h m' idx size'
  | Some (inr r) => r = LoadNull
  | None => True
  end.
Proof.
  induction fuel as [|fuel IH]; intros m size idx cap Hlen Hfresh;
    cbn [extend_for_stack].
  - destruct (to_size (idx + cap) >? size); [done|]. split; [done|]. split; [lia|done].
  - destruct (to_size (idx + cap) >? size).
    2:{ split; [done|]. split; [lia|done]. }
    destruct (realloc_block h m size) as [m1|] eqn:Hre; [|done].
    pose proof (realloc_block_fresh _ _ _ _ _ Hlen Hre Hfresh) as Hfresh1.
    apply realloc_block_length in Hre.
    specialize (IH m1 (size + BLOCK_SIZE) idx cap ltac:(lia) Hfresh1).
    destruct (extend_for_stack h fuel m1 _ idx cap) as [[[m' size']|]|]; [|done..].
    destruct IH as (? & ? & ?). change BLOCK_SIZE with 1024 in *.
    split; [done|]. split; [lia|done].
Qed.

(** The fuel given to the second loop of the loader is never used up. *)
Lemma extend_for_stack_fuel h fuel : forall m size idx cap,
  to_size (idx + cap) - size < BLOCK_SIZE * Z.of_nat fuel ->
  extend_for_stack h fuel m size idx cap <> None.
Proof.
  change BLOCK_SIZE with 1024.
  induction fuel as [|fuel IH]; intros m size idx cap Hfuel; cbn [extend_for_stack].
  - by replace (to_size (idx + cap) >? size) with false by lia.
  - destruct (to_size (idx + cap) >? size); [|done].
    destruct (realloc_block h m size); [|done].
    apply IH. change BLOCK_SIZE with 1024. lia.
Qed.

Lemma extend_fuel_enough h m size idx cap :
  0 <= size ->
  extend_for_stack h (extend_fuel idx cap) m size idx cap <> None.
Proof.
  intros Hsize. apply extend_for_stack_fuel. unfold extend_fuel.
  change BLOCK_SIZE with 1024.
  assert (0 <= to_size (idx + cap)) as Hpos
    by (unfold to_size; apply Z.mod_pos_bound; lia).
  pose proof (Z.div_pos (to_size (idx + cap)) 1024 Hpos ltac:(lia)) as Hdiv.
  rewrite Z2Nat.id by lia.
  pose proof (Z.mul_succ_div_gt (to_size (idx + cap)) 1024). lia.
Qed.

(** Whenever the loader returns a buffer, the word at the stack bottom is
    the word the allocator left there: the final [memset] ends at a quarter
    of the buffer. *)
Lemma loaded_stack_bottom_is_fresh h program stack_capacity m sb :
  cpu_create_memory h program stack_capacity = Loaded m sb ->
  Z.of_nat (length m) < 2^64 ->
  sb = Z.of_nat (length m) - 1 /\ mem_read m sb = Some (fresh h sb).
Proof.
  unfold cpu_create_memory.
  destruct (can_alloc h _); cbn [negb]; [|done].
  pose proof (read_program_spec h program _ (initial_loader_ok h)) as Hread.
  destruct (read_program h program _) as [l|r].
  2:{ destruct Hread as [-> _]. done. }
  destruct Hread as [(Hlen & Hidx & Hcyc & Hfresh & Hblock) _].
  destruct (l_cycle_index l =? 0); cbn [negb]; [|done].
  pose proof (extend_for_stack_spec h (extend_fuel (l_memory_index l) stack_capacity)
                _ _ _ stack_capacity Hlen Hfresh) as Hext.
  destruct (extend_for_stack h _ _ _ _ _) as [[[m1 size1]|r]|];
    [|by subst r|done].
  destruct Hext as (Hlen1 & Hge & Hfresh1).
  destruct (memset_zero m1 _ _) as [m2|] eqn:Hset; [|done].
  intros [= <- <-] Hwords.
  pose proof (memset_zero_read _ _ _ _ (size1 - 1) Hset) as Hread.
  pose proof (memset_zero_length _ _ _ _ Hset) as Hlen2.
  pose proof (memset_zero_guard _ _ _ _ Hset) as (Hstart & Hbytes & Hend & Hmod).
  split; [lia|]. rewrite Hread.
  change BLOCK_SIZE with 1024 in *. unfold sizeof_int32, to_size in *.
  pose proof (Z.div_mod (size1 - l_memory_index l * 4) (2^64) ltac:(lia)) as Hq.
  pose proof (Z.div_mod ((size1 - l_memory_index l * 4) mod 2^64) 4
                ltac:(lia)) as Hq4.
  replace ((l_memory_index l <=? size1 - 1)
           && (size1 - 1 <? l_memory_index l
                 + ((size1 - l_memory_index l * 4) mod 2^64) / 4))
    with false by lia.
  apply Hfresh1. lia.
Qed.

(** * Jumps *)

(** C5.  On a machine in status [CPU_OK] with the instruction pointer
    within bounds, when the instruction at hand jumps to [addr] (LOOP with
    register C non-zero, JMP, a taken JZ, JNZ or JGT, CALL on a stack that
    is not full, RET on a stack that is not empty, see [jump_taken]) and
    [addr] is a 32-bit value, the step succeeds and leaves the instruction
    pointer exactly on [addr]: the handler stores [addr - 1] and the engine
    adds one. *)
Theorem jump_lands_on_target w addr :
  status (cpu_of w) = CPU_OK ->
  0 <= inst_index (cpu_of w) <= end_of_stack (cpu_of w) ->
  jump_taken w addr ->
  int32 addr ->
  exists w', cpu_step w = Some (1, w') /\ inst_index (cpu_of w') = addr.
Proof.
  intros Hw Hip Hjump Haddr.
  enough (wp cpu_step w (fun a w' => a = 1 /\ inst_index (cpu_of w') = addr))
    as (a & w' & E & -> & H); [by exists w'|].
  pose proof (wrap32_pred_succ addr Haddr) as Hland.
  destruct Hjump; unfold operand, stack_slot in *.
  - eapply cpu_step_dispatch; [done..|reflexivity|].
    unfold execute_loop. wp_run. done.
  - eapply cpu_step_dispatch; [done..|reflexivity|].
    unfold execute_jmp. wp_run. done.
  - eapply cpu_step_dispatch; [done..|reflexivity|].
    unfold execute_jz. wp_run. done.
  - eapply cpu_step_dispatch; [done..|reflexivity|].
    unfold execute_jnz. wp_run. done.
  - eapply cpu_step_dispatch; [done..|reflexivity|].
    unfold execute_jgt. wp_run. done.
  - pose proof (wrap32_range (stack_capacity (cpu_of w))) as Hcap.
    unfold int32 in Hcap.
    assert (wrap32 (- stack_size (cpu_of w)) = - stack_size (cpu_of w)) as Hneg
      by (apply wrap32_id; unfold int32; lia).
    destruct H3 as [old Hold]. apply mem_read_bounds in Hold.
    destruct (mem_write_is_Some (memory (cpu_of w))
                (stack_bottom (cpu_of w) + wrap32 (- stack_size (cpu_of w)))
                retaddr) as [m' Hm']; [lia|].
    eapply cpu_step_dispatch; [done..|reflexivity|].
    unfold execute_call. wp_run. done.
  - assert (wrap32 (stack_size (cpu_of w) - 1) = stack_size (cpu_of w) - 1)
      as Hpred by (apply wrap32_id; unfold int32; lia).
    assert (wrap32 (- (stack_size (cpu_of w) - 1))
            = - (stack_size (cpu_of w) - 1)) as Hneg
      by (apply wrap32_id; unfold int32; lia).
    assert (stack_bottom (cpu_of w)
              + wrap32 (- wrap32 (stack_size (cpu_of w) - 1))
            = stack_bottom (cpu_of w) - (stack_size (cpu_of w) - 1)) as Hslot
      by (rewrite Hpred, Hneg; lia).
    pose proof (mem_read_bounds _ _ _ H1) as Hin.
    destruct (mem_write_is_Some (memory (cpu_of w))
                (stack_bottom (cpu_of w)
                 + wrap32 (- wrap32 (stack_size (cpu_of w) - 1)))
                0) as [m' Hm']; [lia|].
    rewrite <- Hslot in H1.
    eapply cpu_step_dispatch; [done..|reflexivity|].
    unfold execute_ret. wp_run. done.
Qed.

(** [jump_lands_on_target] at [Demo.jmp], a JMP to index 3. *)
Lemma jump_lands_on_target_witness :
  exists w', cpu_step Demo.jmp = Some (1, w') /\ inst_index (cpu_of w') = 3.
Proof.
  apply (jump_lands_on_target Demo.jmp 3).
  - reflexivity.
  - vm_compute. split; discriminate.
  - apply jump_jmp; reflexivity.
  - unfold int32. lia.
Defined.

(** * Division *)

Lemma div32_quot a b :
  ~ (a = - 2^31 /\ b = -1) -> div32 a b = Some (Z.quot a b).
Proof.
  intros Hno. unfold div32.
  destruct ((a =? - 2^31) && (b =? -1)) eqn:E; [|done].
  exfalso. apply Hno. lia.
Qed.

(** On a machine in status [CPU_OK] with the instruction pointer within
    bounds, let DIV be fetched with a valid register index [r], and let
    [v] be the value of that register.  If [v = 0] the step returns 0 with
    status [CPU_DIV_BY_ZERO] and leaves every register (register A in
    particular), the memory and the stack size unchanged.  Otherwise,
    unless A is [INT_MIN] and [v] is -1, the step returns 1, register A
    holds the quotient of A by [v] truncated toward zero, and the result
    register equals the new A. *)
Lemma div_by_zero_or_quotient w r v :
  status (cpu_of w) = CPU_OK ->
  0 <= inst_index (cpu_of w) <= end_of_stack (cpu_of w) ->
  fetched w = Some 0x05 ->
  mem_read (memory (cpu_of w)) (inst_index (cpu_of w) + 1) = Some r ->
  0 <= r <= 4 ->
  reg_get (registers (cpu_of w)) r = Some v ->
  (v = 0 ->
   exists w', cpu_step w = Some (0, w') /\
     status (cpu_of w') = CPU_DIV_BY_ZERO /\
     registers (cpu_of w') = registers (cpu_of w) /\
     memory (cpu_of w') = memory (cpu_of w) /\
     stack_size (cpu_of w') = stack_size (cpu_of w)) /\
  (v <> 0 ->
   int32 (reg_a (registers (cpu_of w))) -> int32 v ->
   ~ (reg_a (registers (cpu_of w)) = - 2^31 /\ v = -1) ->
   exists w', cpu_step w = Some (1, w') /\
     status (cpu_of w') = CPU_OK /\
     reg_a (registers (cpu_of w')) = Z.quot (reg_a (registers (cpu_of w))) v /\
     reg_result (registers (cpu_of w')) = reg_a (registers (cpu_of w'))).
Proof.
  intros Hw Hip Hop Hr Hrange Hv.
  split.
  - intros Hz.
    enough (wp cpu_step w (fun a w' => a = 0 /\
       status (cpu_of w') = CPU_DIV_BY_ZERO /\
       registers (cpu_of w') = registers (cpu_of w) /\
       memory (cpu_of w') = memory (cpu_of w) /\
       stack_size (cpu_of w') = stack_size (cpu_of w)))
      as (a & w' & E & -> & H); [by exists w'|].
    eapply cpu_step_dispatch; [done..|reflexivity|].
    unfold execute_div. wp_run. done.
  - intros Hz HA Hv32 Hmin.
    pose proof (div32_quot _ _ Hmin) as Hdiv.
    enough (wp cpu_step w (fun a w' => a = 1 /\
       status (cpu_of w') = CPU_OK /\
       reg_a (registers (cpu_of w')) =
         wrap32 (Z.quot (reg_a (registers (cpu_of w))) v) /\
       reg_result (registers (cpu_of w')) = reg_a (registers (cpu_of w'))))
      as (a & w' & E & -> & Hs & Ha & Hres).
    { exists w'. repeat split; try done.
      rewrite Ha. by apply wrap32_id, quot_fits. }
    eapply cpu_step_dispatch; [done..|reflexivity|].
    unfold execute_div. wp_run. done.
Qed.

(** [div_by_zero_or_quotient] at [Demo.div_zero] (DIV B with A = 10 and
    B = 0: the step fails and A is still 10) and at [Demo.div_two] (A = -7
    and B = 2: A becomes -3, the quotient truncated toward zero). *)
Lemma div_by_zero_or_quotient_witness :
  (exists w', cpu_step Demo.div_zero = Some (0, w') /\
     status (cpu_of w') = CPU_DIV_BY_ZERO /\
     registers (cpu_of w') = Regs 10 0 0 0 0 /\
     memory (cpu_of w') = memory (cpu_of Demo.div_zero) /\
     stack_size (cpu_of w') = stack_size (cpu_of Demo.div_zero)) /\
  (exists w', cpu_step Demo.div_two = Some (1, w') /\
     status (cpu_of w') = CPU_OK /\
     reg_a (registers (cpu_of w')) = Z.quot (-7) 2 /\
     reg_result (registers (cpu_of w')) = reg_a (registers (cpu_of w'))).
Proof.
  split.
  - apply (div_by_zero_or_quotient Demo.div_zero 1 0).
    + reflexivity.
    + vm_compute. split; discriminate.
    + reflexivity.
    + reflexivity.
    + lia.
    + reflexivity.
    + reflexivity.
  - apply (div_by_zero_or_quotient Demo.div_two 1 2).
    + reflexivity.
    + vm_compute. split; discriminate.
    + reflexivity.
    + reflexivity.
    + lia.
    + reflexivity.
    + lia.
    + unfold int32. cbn. lia.
    + unfold int32. lia.
    + cbn. lia.
Defined.

(** C6, evaluated where the code departs from it.  In
    [Sample.div_overflow] DIV B is fetched with A = [INT_MIN] and B = -1.
    The divisor is not zero, so the handler performs the C division; the
    quotient, 2^31, is no [int32_t], the division is undefined (the
    processor traps and the process is killed), and neither [cpu_step]
    nor [cpu_run] returns: A is not divided, the result register mirrors
    nothing and no status reports the failure. *)
Theorem div_overflow_is_undefined :
  status (cpu_of Sample.div_overflow) = CPU_OK /\
  fetched Sample.div_overflow = Some 0x05 /\
  operand Sample.div_overflow 1 = Some 1 /\
  registers (cpu_of Sample.div_overflow) = Regs (- 2^31) (-1) 0 0 0 /\
  ~ int32 (Z.quot (- 2^31) (-1)) /\
  cpu_step Sample.div_overflow = None /\
  cpu_run 1 Sample.div_overflow = None.
Proof.
  repeat split; try reflexivity.
  unfold int32. vm_compute. intros [_ H]. discriminate.
Qed.

(** * Reset *)

(** X21. What [cpu_reset] does when it is defined: registers zero, status
    [CPU_OK], stack size 0; the instruction pointer, [end_of_stack],
    [stack_capacity] and [stack_bottom] as before; and in memory exactly the
    words at the indices [stack_bottom - stack_capacity] up to [stack_bottom
    - 1] set to zero. The word at [stack_bottom] itself, the first slot of
    the stack, is not among them, while the word at [end_of_stack], below
    the stack slots, is. *)
Lemma cpu_reset_effect c c' :
  0 <= stack_capacity c < 2^62 ->
  cpu_reset c = Some c' ->
  registers c' = zero_regs /\ status c' = CPU_OK /\ stack_size c' = 0 /\
  inst_index c' = inst_index c /\ end_of_stack c' = end_of_stack c /\
  stack_capacity c' = stack_capacity c /\ stack_bottom c' = stack_bottom c /\
  (forall i, mem_read (memory c') i =
     if (stack_bottom c - stack_capacity c <=? i) && (i <? stack_bottom c)
     then Some 0 else mem_read (memory c) i).
Proof.
  intros Hcap. unfold cpu_reset. cbn.
  destruct (memset_zero _ _ _) as [m|] eqn:Hset; [|done].
  intros [= <-]. cbn. repeat split; try done.
  intros i. rewrite (memset_zero_read _ _ _ _ i Hset).
  unfold to_size, sizeof_int32. rewrite Z.mod_small by lia.
  rewrite Z.div_mul by lia.
  by replace (stack_bottom c - stack_capacity c + stack_capacity c)
    with (stack_bottom c) by lia.
Qed.

(** C7, evaluated where the code departs from it.  [Demo.push_halt] runs
    MOVR A,7; PUSH A; HALT: the stack slot at [stack_bottom] = 8 then holds
    7, and the data word 9 sits at index 6 = [end_of_stack], below the two
    stack slots.  [cpu_reset] leaves the 7 in the stack slot and zeroes the
    word 9; the registers, status and stack size are reset and the
    instruction pointer, [end_of_stack] and [stack_capacity] are kept. *)
Theorem reset_touches_wrong_words :
  cpu_run 3 Demo.push_halt
  = Some (3, World (Cpu [0x09; 0; 7; 0x11; 0; 0x01; 9; 0; 7] 8 2
                        CPU_HALTED 5 1 (Regs 7 0 0 0 0) 6 36) [] []) /\
  cpu_reset (Cpu [0x09; 0; 7; 0x11; 0; 0x01; 9; 0; 7] 8 2
                 CPU_HALTED 5 1 (Regs 7 0 0 0 0) 6 36)
  = Some (Cpu [0x09; 0; 7; 0x11; 0; 0x01; 0; 0; 7] 8 2
              CPU_OK 5 0 zero_regs 6 36).
Proof. split; by vm_compute. Qed.

(** C3, evaluated where the code departs from it.  A load of the empty
    program with one stack word returns a buffer whose stack word still
    holds what the allocator left there (0x55555555); a load of 257 words
    passes [memset] a length that wraps around and writes past the buffer;
    and a reset after PUSH of 7 leaves 7 in the first stack slot. *)
Theorem loader_and_reset_leave_stack_words :
  (exists m sb,
     cpu_create_memory Demo.dirty_heap [] 1 = Loaded m sb /\
     mem_read m sb = Some 0x55555555) /\
  cpu_create_memory Demo.clean_heap (replicate 1028 x00) 1 = LoadOverrun /\
  (exists w c,
     cpu_run 2 Demo.push = Some (2, w) /\
     stack_slot (cpu_of w) 0 = Some 7 /\
     cpu_reset (cpu_of w) = Some c /\
     stack_slot c 0 = Some 7).
Proof.
  split; [|split].
  - do 2 eexists. split; [vm_compute; reflexivity|]. by vm_compute.
  - by vm_compute.
  - do 2 eexists. split; [vm_compute; reflexivity|]. split; [by vm_compute|].
    split; [vm_compute; reflexivity|]. by vm_compute.
Qed.

(** * CALL followed by RET *)

(** C8, as amended.  On a machine in status [CPU_OK] with the instruction
    pointer within bounds, let CALL be fetched with operands [addr] and
    [retaddr] while the stack is not full.  The step succeeds, the stack
    grows by one and [retaddr] is on its top.  From any later state [w2]
    with that stack size, [retaddr] still on top and RET fetched, the step
    succeeds, leaves the instruction pointer on [retaddr], the second
    operand of the CALL, and the stack size as it was before the CALL.  The
    pointer is on the instruction after the CALL exactly when the program
    wrote that index, the CALL position plus 3, as [retaddr]. *)
Theorem call_then_ret w addr retaddr :
  status (cpu_of w) = CPU_OK ->
  0 <= inst_index (cpu_of w) <= end_of_stack (cpu_of w) ->
  fetched w = Some 0x18 ->
  operand w 1 = Some addr ->
  operand w 2 = Some retaddr ->
  int32 retaddr ->
  0 <= stack_size (cpu_of w) < wrap32 (stack_capacity (cpu_of w)) ->
  is_Some (stack_slot (cpu_of w) (stack_size (cpu_of w))) ->
  exists w1,
    cpu_step w = Some (1, w1) /\
    stack_size (cpu_of w1) = stack_size (cpu_of w) + 1 /\
    stack_bottom (cpu_of w1) = stack_bottom (cpu_of w) /\
    stack_slot (cpu_of w1) (stack_size (cpu_of w)) = Some retaddr /\
    forall w2,
      status (cpu_of w2) = CPU_OK ->
      0 <= inst_index (cpu_of w2) <= end_of_stack (cpu_of w2) ->
      fetched w2 = Some 0x19 ->
      stack_size (cpu_of w2) = stack_size (cpu_of w1) ->
      stack_slot (cpu_of w2) (stack_size (cpu_of w)) = Some retaddr ->
      exists w3,
        cpu_step w2 = Some (1, w3) /\
        inst_index (cpu_of w3) = retaddr /\
        stack_size (cpu_of w3) = stack_size (cpu_of w).
Proof.
  intros Hw Hip Hop Haddr Hret Hret32 Hsize Hslot.
  pose proof (wrap32_range (stack_capacity (cpu_of w))) as Hcap.
  unfold int32 in Hcap.
  assert (wrap32 (- stack_size (cpu_of w)) = - stack_size (cpu_of w)) as Hneg
    by (apply wrap32_id; unfold int32; lia).
  assert (wrap32 (stack_size (cpu_of w) + 1) = stack_size (cpu_of w) + 1)
    as Hsucc by (apply wrap32_id; unfold int32; lia).
  unfold operand, stack_slot in *.
  destruct Hslot as [old Hold]. apply mem_read_bounds in Hold.
  destruct (mem_write_is_Some (memory (cpu_of w))
              (stack_bottom (cpu_of w) + wrap32 (- stack_size (cpu_of w)))
              retaddr) as [m' Hm']; [lia|].
  assert (wp cpu_step w (fun a w1 => a = 1 /\
            stack_size (cpu_of w1) = stack_size (cpu_of w) + 1 /\
            stack_bottom (cpu_of w1) = stack_bottom (cpu_of w) /\
            memory (cpu_of w1) = m'))
    as (a & w1 & E & -> & Hsize1 & Hsb1 & Hmem1).
  { eapply cpu_step_dispatch; [done..|reflexivity|].
    unfold execute_call. wp_run. done. }
  exists w1. split; [done|]. split; [done|]. split; [done|].
  split.
  { rewrite Hmem1, Hsb1. rewrite Hneg in Hm'.
    replace (stack_bottom (cpu_of w) - stack_size (cpu_of w))
      with (stack_bottom (cpu_of w) + - stack_size (cpu_of w)) by lia.
    by eapply mem_read_write_eq. }
  intros w2 Hw2 Hip2 Hop2 Hsize2 Htop.
  enough (wp cpu_step w2 (fun a w3 => a = 1 /\
            inst_index (cpu_of w3) = retaddr /\
            stack_size (cpu_of w3) = stack_size (cpu_of w)))
    as (a & w3 & E3 & -> & H3); [by exists w3|].
  rewrite Hsize1 in Hsize2.
  assert (wrap32 (stack_size (cpu_of w2) - 1) = stack_size (cpu_of w))
    as Hpred.
  { rewrite Hsize2.
    replace (stack_size (cpu_of w) + 1 - 1) with (stack_size (cpu_of w)) by lia.
    apply wrap32_id. unfold int32. lia. }
  assert (stack_bottom (cpu_of w2)
            + wrap32 (- wrap32 (stack_size (cpu_of w2) - 1))
          = stack_bottom (cpu_of w2) - stack_size (cpu_of w)) as Hslot2
    by (rewrite Hpred, Hneg; lia).
  pose proof (mem_read_bounds _ _ _ Htop) as Hin.
  destruct (mem_write_is_Some (memory (cpu_of w2))
              (stack_bottom (cpu_of w2)
               + wrap32 (- wrap32 (stack_size (cpu_of w2) - 1)))
              0) as [m2 Hm2]; [lia|].
  rewrite <- Hslot2 in Htop.
  pose proof (wrap32_pred_succ retaddr Hret32) as Hland.
  eapply cpu_step_dispatch; [done..|reflexivity|].
  unfold execute_ret. wp_run. done.
Qed.

(** [call_then_ret] at [Demo.call]: CALL 4, 7 on an empty stack. *)
Lemma call_then_ret_witness :
  exists w1,
    cpu_step Demo.call = Some (1, w1) /\
    stack_size (cpu_of w1) = stack_size (cpu_of Demo.call) + 1 /\
    stack_bottom (cpu_of w1) = stack_bottom (cpu_of Demo.call) /\
    stack_slot (cpu_of w1) (stack_size (cpu_of Demo.call)) = Some 7 /\
    forall w2,
      status (cpu_of w2) = CPU_OK ->
      0 <= inst_index (cpu_of w2) <= end_of_stack (cpu_of w2) ->
      fetched w2 = Some 0x19 ->
      stack_size (cpu_of w2) = stack_size (cpu_of w1) ->
      stack_slot (cpu_of w2) (stack_size (cpu_of Demo.call)) = Some 7 ->
      exists w3,
        cpu_step w2 = Some (1, w3) /\
        inst_index (cpu_of w3) = 7 /\
        stack_size (cpu_of w3) = stack_size (cpu_of Demo.call).
Proof.
  apply (call_then_ret Demo.call 4 7).
  - reflexivity.
  - vm_compute. split; discriminate.
  - reflexivity.
  - reflexivity.
  - reflexivity.
  - unfold int32. lia.
  - vm_compute. split; [discriminate|reflexivity].
  - eexists. reflexivity.
Defined.

(** C8 fails as stated: in [Demo.call] the CALL at index 0 names the return
    address 7, and the RET at index 4 leaves the instruction pointer on 7,
    not on 3, the index after the CALL and its two operands. *)
Lemma call_ret_returns_to_operand :
  fetched Demo.call = Some 0x18 /\
  exists w1 w2,
    cpu_step Demo.call = Some (1, w1) /\
    fetched w1 = Some 0x19 /\
    cpu_step w1 = Some (1, w2) /\
    inst_index (cpu_of w2) = 7 /\
    inst_index (cpu_of w2) <> inst_index (cpu_of Demo.call) + 3.
Proof.
  split; [reflexivity|]. do 2 eexists.
  split; [vm_compute; reflexivity|]. split; [reflexivity|].
  split; [vm_compute; reflexivity|].
  split; [reflexivity|]. vm_compute. discriminate.
Qed.

(** * A machine that is not in status [CPU_OK] *)

(** C9.  On a machine whose status is not [CPU_OK], [cpu_step] returns 0
    and [cpu_run] returns 0 for every budget, both leaving the whole state
    (machine and streams) unchanged; and so does every sequence of such
    calls. *)
Theorem inert_unless_ok w :
  status (cpu_of w) <> CPU_OK ->
  cpu_step w = Some (0, w) /\
  (forall steps, cpu_run steps w = Some (0, w)) /\
  (forall cs, do_calls cs w = Some (replicate (length cs) 0, w)).
Proof.
  intros Hw.
  assert (cpu_step w = Some (0, w)) as Hstep.
  { unfold cpu_step, bind, get_cpu.
    by rewrite bool_decide_eq_false_2. }
  assert (forall steps, cpu_run steps w = Some (0, w)) as Hrun.
  { intros steps. unfold cpu_run, bind, get_cpu.
    by rewrite bool_decide_eq_false_2. }
  split; [done|]. split; [done|].
  induction cs as [|c cs IH]; [done|].
  cbn [do_calls length replicate]. unfold bind at 1.
  assert (do_call c w = Some (0, w)) as ->
    by (destruct c; cbn [do_call]; auto).
  unfold bind. by rewrite IH.
Qed.

(** [inert_unless_ok] at the halted machine [sum_halted]. *)
Lemma inert_unless_ok_witness :
  cpu_step sum_halted = Some (0, sum_halted) /\
  (forall steps, cpu_run steps sum_halted = Some (0, sum_halted)) /\
  (forall cs, do_calls cs sum_halted
              = Some (replicate (length cs) 0, sum_halted)).
Proof. apply (inert_unless_ok sum_halted). vm_compute. discriminate. Defined.

(** * Zero in the unused stack slots *)

(** The slot that STORE writes lies below [stack_size]. *)
Lemma store_index_below size d num :
  0 <= size < 2^31 ->
  0 <= wrap32 (d + num) ->
  wrap32 (wrap32 (wrap32 (size - d) - num) - 1) < size.
Proof.
  intros Hsize He.
  pose proof (wrap32_range (d + num)) as Hr1.
  pose proof (wrap32_range (wrap32 (wrap32 (size - d) - num) - 1)) as Hr2.
  destruct (wrap32_shift (d + num)) as [q1 H1].
  destruct (wrap32_shift (size - d)) as [q2 H2].
  destruct (wrap32_shift (wrap32 (size - d) - num)) as [q3 H3].
  destruct (wrap32_shift (wrap32 (wrap32 (size - d) - num) - 1)) as [q4 H4].
  unfold int32 in *. lia.
Qed.

Ltac unchanged_stack Hinv :=
  unfold stack_invariant, same_stack_layout, free_slots_zero, stack_slot in *;
  cbn; (split; [exact Hinv | split; reflexivity]).

Ltac open_stack Hinv Hfree Hsize :=
  unfold stack_invariant, same_stack_layout, free_slots_zero, stack_slot in *;
  cbn in *; destruct Hinv as [Hfree Hsize].

Ltac small_wrap t :=
  let H := fresh "Hwrap" in
  assert (wrap32 t = t) as H by (apply wrap32_id; unfold int32; lia);
  rewrite ?H in *.

Lemma push_keeps_stack : keeps_stack execute_push.
Proof.
  intros w Hinv. unfold execute_push. post_run; try unchanged_stack Hinv.
  open_stack Hinv Hfree Hsize.
  pose proof (wrap32_range (stack_capacity (cpu_of w))) as Hcap.
  unfold int32 in Hcap.
  small_wrap (stack_size (cpu_of w) + 1).
  small_wrap (- stack_size (cpu_of w)).
  split; [|done]. split; [|lia].
  intros k Hk. rewrite (mem_read_write_ne _ _ _ _ _ Hv1) by lia.
  apply Hfree. lia.
Qed.

Lemma call_keeps_stack : keeps_stack execute_call.
Proof.
  intros w Hinv. unfold execute_call. post_run; try unchanged_stack Hinv.
  open_stack Hinv Hfree Hsize.
  pose proof (wrap32_range (stack_capacity (cpu_of w))) as Hcap.
  unfold int32 in Hcap.
  small_wrap (stack_size (cpu_of w) + 1).
  small_wrap (- stack_size (cpu_of w)).
  split; [|done]. split; [|lia].
  intros k Hk. rewrite (mem_read_write_ne _ _ _ _ _ Hv1) by lia.
  apply Hfree. lia.
Qed.

Lemma pop_keeps_stack : keeps_stack execute_pop.
Proof.
  intros w Hinv. unfold execute_pop. post_run; try unchanged_stack Hinv.
  open_stack Hinv Hfree Hsize.
  small_wrap (stack_size (cpu_of w) - 1).
  small_wrap (- (stack_size (cpu_of w) - 1)).
  split; [|done]. split; [|lia].
  intros k Hk.
  destruct (decide (k = stack_size (cpu_of w) - 1)) as [->|Hne].
  - replace (stack_bottom (cpu_of w) - (stack_size (cpu_of w) - 1))
      with (stack_bottom (cpu_of w) + - (stack_size (cpu_of w) - 1)) by lia.
    by eapply mem_read_write_eq.
  - rewrite (mem_read_write_ne _ _ _ _ _ Hv2) by lia.
    apply Hfree. lia.
Qed.

Lemma ret_keeps_stack : keeps_stack execute_ret.
Proof.
  intros w Hinv. unfold execute_ret. post_run; try unchanged_stack Hinv.
  open_stack Hinv Hfree Hsize.
  small_wrap (stack_size (cpu_of w) - 1).
  small_wrap (- (stack_size (cpu_of w) - 1)).
  split; [|done]. split; [|lia].
  intros k Hk.
  destruct (decide (k = stack_size (cpu_of w) - 1)) as [->|Hne].
  - replace (stack_bottom (cpu_of w) - (stack_size (cpu_of w) - 1))
      with (stack_bottom (cpu_of w) + - (stack_size (cpu_of w) - 1)) by lia.
    by eapply mem_read_write_eq.
  - rewrite (mem_read_write_ne _ _ _ _ _ Hv0) by lia.
    apply Hfree. lia.
Qed.

Lemma store_keeps_stack : keeps_stack execute_store.
Proof.
  intros w Hinv. unfold execute_store. post_run; try unchanged_stack Hinv.
  open_stack Hinv Hfree Hsize.
  injection Hv1 as <-. injection Hv2 as <-.
  pose proof (store_index_below (stack_size (cpu_of w))
                (reg_d (registers (cpu_of w))) v0 Hsize ltac:(lia)) as Hbelow.
  set (stack_index :=
         wrap32 (wrap32 (wrap32 (stack_size (cpu_of w)
                                 - reg_d (registers (cpu_of w))) - v0) - 1))
    in *.
  small_wrap (- stack_index).
  split; [|done]. split; [|lia].
  intros k Hk. rewrite (mem_read_write_ne _ _ _ _ _ Hv4) by lia.
  apply Hfree. lia.
Qed.

Lemma handlers_keep_stack :
  Forall (fun i => keeps_stack (execute i)) instructions.
Proof.
  unfold instructions.
  repeat (apply Forall_cons_2;
          [ cbn [execute];
            first [ apply push_keeps_stack | apply pop_keeps_stack
                  | apply call_keeps_stack | apply ret_keeps_stack
                  | apply store_keeps_stack
                  | intros w Hinv; autounfold with handlers;
                    post_run; unchanged_stack Hinv ] | ]).
  apply Forall_nil_2.
Qed.

Lemma step_keeps_stack w r w' :
  stack_invariant (cpu_of w) ->
  cpu_step w = Some (r, w') ->
  stack_invariant (cpu_of w') /\ same_stack_layout (cpu_of w) (cpu_of w').
Proof.
  intros Hinv. revert r w'.
  change (post cpu_step w (fun _ w' => stack_invariant (cpu_of w') /\
                             same_stack_layout (cpu_of w) (cpu_of w'))).
  unfold cpu_step. post_run; try unchanged_stack Hinv.
  apply lookup_instruction_Some in Ho as (i & Hi & _ & <-).
  pose proof handlers_keep_stack as Hall.
  rewrite Forall_forall in Hall. specialize (Hall i Hi w Hinv).
  eapply post_conseq; [exact Hall|].
  intros r w1 [Hinv1 Hsame]. cbn beta. post_run; [done|].
  unfold stack_invariant, same_stack_layout, free_slots_zero, stack_slot in *.
  cbn. done.
Qed.

(** X5. From a state whose unused stack slots hold zero and whose stack size
    is a non-negative 32-bit value, every state that steps reach has its
    unused stack slots zero, a non-negative stack size and the same stack
    layout: PUSH and CALL write the slot at [stack_size] before growing, POP
    and RET zero the slot they vacate, STORE writes below [stack_size]. *)
Lemma steps_keep_free_slots_zero w w' :
  stack_invariant (cpu_of w) ->
  reaches w w' ->
  free_slots_zero (cpu_of w') /\
  0 <= stack_size (cpu_of w') /\
  same_stack_layout (cpu_of w) (cpu_of w').
Proof.
  intros Hinv Hreach.
  enough (stack_invariant (cpu_of w') /\
          same_stack_layout (cpu_of w) (cpu_of w'))
    as [[Hfree Hsize] Hsame] by (split; [done|split; [lia|done]]).
  induction Hreach as [|w1 r w2 _ [Hinv1 Hsame1] Hstep].
  - split; [done|]. by split.
  - destruct (step_keeps_stack _ _ _ Hinv1 Hstep) as [Hinv2 Hsame2].
    split; [done|]. unfold same_stack_layout in *.
    destruct Hsame1, Hsame2. split; congruence.
Qed.

(** C10, evaluated where the code departs from it.  After MOVR A,7 and
    PUSH A the unused slots are zero; [cpu_reset] then sets the stack size
    to 0 and leaves 7 in slot 0, so the reset machine, before any step,
    has a non-zero word outside the occupied range.  Likewise the machine
    created over a freshly loaded buffer has its stack word as the
    allocator left it. *)
Theorem reset_breaks_free_slots_zero :
  (exists w c,
     cpu_run 2 Demo.push = Some (2, w) /\
     free_slots_zero (cpu_of w) /\
     cpu_reset (cpu_of w) = Some c /\
     stack_size c = 0 /\ stack_slot c 0 = Some 7 /\
     ~ free_slots_zero c) /\
  (exists m sb,
     cpu_create_memory Demo.dirty_heap [] 1 = Loaded m sb /\
     ~ free_slots_zero (cpu_create m sb 1)).
Proof.
  split.
  - do 2 eexists. split; [vm_compute; reflexivity|]. split.
    { intros k Hk. cbn in Hk. assert (k = 1) as -> by lia. by vm_compute. }
    split; [vm_compute; reflexivity|]. split; [by vm_compute|].
    split; [by vm_compute|].
    intros Hfree. specialize (Hfree 0). cbn in Hfree.
    specialize (Hfree ltac:(lia)). vm_compute in Hfree. discriminate.
  - do 2 eexists. split; [vm_compute; reflexivity|].
    intros Hfree. specialize (Hfree 0). cbn in Hfree.
    specialize (Hfree ltac:(lia)). vm_compute in Hfree. discriminate.
Qed.

(** * Further properties of the step *)

(** X1. The dispatch table has a handler for a word exactly when the word,
    read as unsigned, is one of 0..25: there is no gap in that range and
    nothing outside it. *)
Lemma lookup_instruction_covers op :
  is_Some (lookup_instruction instructions op) <-> 0 <= op <= 25.
Proof.
  unfold lookup_instruction, instructions. cbn [opcode execute].
  split.
  - intros Hsome.
    repeat match goal with
           | H : is_Some (if ?b then _ else _) |- _ =>
               destruct b eqn:?; [lia|]
           end.
    by destruct Hsome.
  - intros Hop.
    repeat match goal with
           | |- is_Some (if ?b then _ else _) =>
               destruct b eqn:?; [eauto|]
           end.
    lia.
Qed.

Lemma no_handler op :
  ~ 0 <= op <= 25 -> lookup_instruction instructions op = None.
Proof.
  intros Hbad.
  destruct (lookup_instruction instructions op) as [h|] eqn:Hlook; [|done].
  exfalso. apply Hbad.
  unfold lookup_instruction, instructions in Hlook. cbn [opcode execute] in Hlook.
  repeat match goal with
         | H : (if ?b then _ else _) = Some _ |- _ =>
             destruct b eqn:?; [lia|]
         end.
  done.
Qed.

(** X2. A step that cannot fetch an instruction returns 0 and changes the
    status only: to [CPU_INVALID_ADDRESS] when the instruction pointer is
    outside [0 .. end_of_stack] (memory is not read then), to
    [CPU_ILLEGAL_INSTRUCTION] when the word there is no opcode. The
    instruction pointer stays where it was. *)
Lemma cpu_step_refuses w s :
  status (cpu_of w) = CPU_OK ->
  not_executable w s ->
  cpu_step w = Some (0, World (with_status (cpu_of w) s) (stdin w) (stdout w)).
Proof.
  intros Hw [Hip|op Hip Hop Hbad].
  - unfold cpu_step, bind, get_cpu.
    rewrite bool_decide_eq_true_2 by done. cbn [negb].
    by replace ((inst_index (cpu_of w) <? 0)
                || (inst_index (cpu_of w) >? end_of_stack (cpu_of w)))
      with true by lia.
  - unfold fetched in Hop.
    destruct (mem_read _ _) as [word|] eqn:Hword; [|done].
    injection Hop as Hop.
    pose proof (no_handler op Hbad) as Hlook.
    unfold cpu_step, bind, get_cpu, read_memory, bind, get_cpu.
    rewrite bool_decide_eq_true_2 by done. cbn [negb].
    replace ((inst_index (cpu_of w) <? 0)
             || (inst_index (cpu_of w) >? end_of_stack (cpu_of w)))
      with false by lia.
    rewrite Hword. cbn. by rewrite Hop, Hlook.
Qed.

(** [cpu_step_refuses] at an instruction pointer of 100 in the twelve
    words of [Demo.sum], and at the word 77 of [Sample.data]. *)
Lemma cpu_step_refuses_witness :
  cpu_step (Sample.at_index Demo.sum 100)
  = Some (0, World (with_status (cpu_of (Sample.at_index Demo.sum 100))
                                CPU_INVALID_ADDRESS) [] []) /\
  cpu_step Sample.data
  = Some (0, World (with_status (cpu_of Sample.data)
                                CPU_ILLEGAL_INSTRUCTION) [] []).
Proof.
  split.
  - apply (cpu_step_refuses (Sample.at_index Demo.sum 100)).
    + reflexivity.
    + apply bad_address. vm_compute. intros [_ H]. by apply H.
  - apply (cpu_step_refuses Sample.data).
    + reflexivity.
    + apply (bad_opcode _ 77).
      * vm_compute. split; discriminate.
      * reflexivity.
      * lia.
Defined.

(** X3. What [cpu_step] returns agrees with the status it leaves: 1 with the
    status [CPU_OK] before and after, or 0 with a status that is not
    [CPU_OK]; on a machine that was not in status [CPU_OK] that is the 0.
    And from [CPU_OK] only the instruction HALT leads to [CPU_HALTED]. *)
Lemma cpu_step_result w r w' :
  cpu_step w = Some (r, w') ->
  ((r = 1 /\ status (cpu_of w) = CPU_OK /\ status (cpu_of w') = CPU_OK) \/
   (r = 0 /\ status (cpu_of w') <> CPU_OK)) /\
  (status (cpu_of w) = CPU_OK -> status (cpu_of w') = CPU_HALTED ->
   fetched w = Some 0x01).
Proof.
  intros Hstep.
  destruct (decide (status (cpu_of w) = CPU_OK)) as [Hw|Hw].
  - split.
    + destruct (cpu_step_reports w Hw _ _ Hstep) as [[-> ?]|[-> ?]]; eauto.
    + intros _ Hh. by destruct (cpu_step_halted _ _ _ Hw Hstep Hh).
  - split; [|done]. right.
    unfold cpu_step, bind, get_cpu in Hstep.
    rewrite bool_decide_eq_false_2 in Hstep by done.
    by injection Hstep as <- <-.
Qed.

(** [cpu_step_result] at the HALT of [Demo.sum], three steps in. *)
Lemma cpu_step_result_witness :
  ((0 = 1 /\ status (cpu_of (after_steps 3 Demo.sum)) = CPU_OK /\
    status (cpu_of sum_halted) = CPU_OK) \/
   (0 = 0 /\ status (cpu_of sum_halted) <> CPU_OK)) /\
  (status (cpu_of (after_steps 3 Demo.sum)) = CPU_OK ->
   status (cpu_of sum_halted) = CPU_HALTED ->
   fetched (after_steps 3 Demo.sum) = Some 0x01).
Proof.
  apply (cpu_step_result (after_steps 3 Demo.sum) 0 sum_halted).
  vm_compute. reflexivity.
Defined.

(** * The words below the stack slots *)

(** The steps from a state reach the states that [after_steps] computes. *)
Lemma reaches_step_first w r w1 w' :
  cpu_step w = Some (r, w1) -> reaches w1 w' -> reaches w w'.
Proof.
  intros Hstep Hreach. induction Hreach as [|w2 r2 w3 _ IH Hstep2].
  - eapply reaches_step; [apply reaches_here|done].
  - by eapply reaches_step.
Qed.

Lemma reaches_after_steps n : forall w, reaches w (after_steps n w).
Proof.
  induction n as [|n IH]; intros w; cbn [after_steps]; [apply reaches_here|].
  destruct (cpu_step w) as [[r w1]|] eqn:Hstep; [|apply reaches_here].
  eapply reaches_step_first; [done|apply IH].
Qed.

Ltac unchanged_lower_words Hinv :=
  unfold stack_bounded, lower_words_kept in *; cbn;
  (split; [exact Hinv | repeat split; reflexivity]).

Ltac open_lower_words Hinv Hsize Hcap :=
  unfold stack_bounded, lower_words_kept in *; cbn in *;
  destruct Hinv as [Hsize Hcap].

Lemma push_keeps_lower_words : keeps_lower_words execute_push.
Proof.
  intros w Hinv. unfold execute_push. post_run; try unchanged_lower_words Hinv.
  open_lower_words Hinv Hsize Hcap.
  small_wrap (stack_capacity (cpu_of w)).
  small_wrap (stack_size (cpu_of w) + 1).
  small_wrap (- stack_size (cpu_of w)).
  split; [lia|]. repeat split; try done.
  - by eapply mem_write_length.
  - intros i Hi. by rewrite (mem_read_write_ne _ _ _ _ _ Hv1) by lia.
Qed.

Lemma call_keeps_lower_words : keeps_lower_words execute_call.
Proof.
  intros w Hinv. unfold execute_call. post_run; try unchanged_lower_words Hinv.
  open_lower_words Hinv Hsize Hcap.
  small_wrap (stack_capacity (cpu_of w)).
  small_wrap (stack_size (cpu_of w) + 1).
  small_wrap (- stack_size (cpu_of w)).
  split; [lia|]. repeat split; try done.
  - by eapply mem_write_length.
  - intros i Hi. by rewrite (mem_read_write_ne _ _ _ _ _ Hv1) by lia.
Qed.

Lemma pop_keeps_lower_words : keeps_lower_words execute_pop.
Proof.
  intros w Hinv. unfold execute_pop. post_run; try unchanged_lower_words Hinv.
  open_lower_words Hinv Hsize Hcap.
  small_wrap (stack_size (cpu_of w) - 1).
  small_wrap (- (stack_size (cpu_of w) - 1)).
  split; [lia|]. repeat split; try done.
  - by eapply mem_write_length.
  - intros i Hi. by rewrite (mem_read_write_ne _ _ _ _ _ Hv2) by lia.
Qed.

Lemma ret_keeps_lower_words : keeps_lower_words execute_ret.
Proof.
  intros w Hinv. unfold execute_ret. post_run; try unchanged_lower_words Hinv.
  open_lower_words Hinv Hsize Hcap.
  small_wrap (stack_size (cpu_of w) - 1).
  small_wrap (- (stack_size (cpu_of w) - 1)).
  split; [lia|]. repeat split; try done.
  - by eapply mem_write_length.
  - intros i Hi. by rewrite (mem_read_write_ne _ _ _ _ _ Hv0) by lia.
Qed.

Lemma store_keeps_lower_words : keeps_lower_words execute_store.
Proof.
  intros w Hinv. unfold execute_store. post_run; try unchanged_lower_words Hinv.
  open_lower_words Hinv Hsize Hcap.
  injection Hv1 as <-. injection Hv2 as <-.
  pose proof (store_index_below (stack_size (cpu_of w))
                (reg_d (registers (cpu_of w))) v0 ltac:(lia) ltac:(lia))
    as Hbelow.
  set (stack_index :=
         wrap32 (wrap32 (wrap32 (stack_size (cpu_of w)
                                 - reg_d (registers (cpu_of w))) - v0) - 1))
    in *.
  small_wrap (- stack_index).
  split; [lia|]. repeat split; try done.
  - by eapply mem_write_length.
  - intros i Hi. by rewrite (mem_read_write_ne _ _ _ _ _ Hv4) by lia.
Qed.

Lemma handlers_keep_lower_words :
  Forall (fun i => keeps_lower_words (execute i)) instructions.
Proof.
  unfold instructions.
  repeat (apply Forall_cons_2;
          [ cbn [execute];
            first [ apply push_keeps_lower_words | apply pop_keeps_lower_words
                  | apply call_keeps_lower_words | apply ret_keeps_lower_words
                  | apply store_keeps_lower_words
                  | intros w Hinv; autounfold with handlers;
                    post_run; unchanged_lower_words Hinv ] | ]).
  apply Forall_nil_2.
Qed.

Lemma step_keeps_lower_words w r w' :
  stack_bounded (cpu_of w) ->
  cpu_step w = Some (r, w') ->
  stack_bounded (cpu_of w') /\ lower_words_kept (cpu_of w) (cpu_of w').
Proof.
  intros Hinv. revert r w'.
  change (post cpu_step w (fun _ w' => stack_bounded (cpu_of w') /\
                             lower_words_kept (cpu_of w) (cpu_of w'))).
  unfold cpu_step. post_run; try unchanged_lower_words Hinv.
  apply lookup_instruction_Some in Ho as (i & Hi & _ & <-).
  pose proof handlers_keep_lower_words as Hall.
  rewrite Forall_forall in Hall. specialize (Hall i Hi w Hinv).
  eapply post_conseq; [exact Hall|].
  intros r w1 [Hinv1 Hsame]. cbn beta. post_run; [done|].
  unfold stack_bounded, lower_words_kept in *. cbn. done.
Qed.

(** X4. From a state whose stack size is between 0 and a capacity that fits
    an [int32_t], every state that steps reach has its stack size within
    those bounds, the same stack layout, [end_of_stack] and buffer length,
    and every word at an index up to [stack_bottom - stack_capacity] as it
    was. The stack slots, above that index, are not covered: they change
    with the stack, also where they hold words of the program (an
    instruction fetched at [end_of_stack] has its operands there). *)
Lemma steps_keep_lower_words w w' :
  stack_bounded (cpu_of w) ->
  reaches w w' ->
  0 <= stack_size (cpu_of w') <= stack_capacity (cpu_of w') /\
  lower_words_kept (cpu_of w) (cpu_of w').
Proof.
  intros Hinv Hreach.
  enough (stack_bounded (cpu_of w') /\ lower_words_kept (cpu_of w) (cpu_of w'))
    as [[Hsize _] Hkept] by done.
  induction Hreach as [|w1 r w2 _ [Hinv1 Hkept1] Hstep].
  - split; [done|]. unfold lower_words_kept. by repeat split.
  - destruct (step_keeps_lower_words _ _ _ Hinv1 Hstep) as [Hinv2 Hkept2].
    split; [done|]. unfold lower_words_kept in *.
    destruct Hkept1 as (Hb1 & Hc1 & He1 & Hl1 & Hm1).
    destruct Hkept2 as (Hb2 & Hc2 & He2 & Hl2 & Hm2).
    repeat split; try congruence.
    intros i Hi. rewrite Hm2 by (rewrite Hb1, Hc1; lia). by apply Hm1.
Qed.

(** [steps_keep_lower_words] at [Demo.push], two steps in (MOVR A,7;
    PUSH A). *)
Lemma steps_keep_lower_words_witness :
  0 <= stack_size (cpu_of (after_steps 2 Demo.push))
    <= stack_capacity (cpu_of (after_steps 2 Demo.push)) /\
  lower_words_kept (cpu_of Demo.push) (cpu_of (after_steps 2 Demo.push)).
Proof.
  apply (steps_keep_lower_words Demo.push (after_steps 2 Demo.push)).
  - vm_compute. repeat split; discriminate.
  - apply reaches_after_steps.
Defined.

(** [steps_keep_free_slots_zero] at [Demo.push], two steps in. *)
Lemma steps_keep_free_slots_zero_witness :
  free_slots_zero (cpu_of (after_steps 2 Demo.push)) /\
  0 <= stack_size (cpu_of (after_steps 2 Demo.push)) /\
  same_stack_layout (cpu_of Demo.push) (cpu_of (after_steps 2 Demo.push)).
Proof.
  apply (steps_keep_free_slots_zero Demo.push (after_steps 2 Demo.push)).
  - split.
    + intros k Hk. cbn in Hk.
      assert (k = 0 \/ k = 1) as [->| ->] by lia; reflexivity.
    + vm_compute. split; [discriminate|reflexivity].
  - apply reaches_after_steps.
Defined.

(** * The stack instructions *)

(** X6. A stack instruction that the stack forbids (PUSH or CALL with
    [stack_size] at the capacity, POP or RET with an empty stack) returns 0
    with the status [CPU_INVALID_STACK_OPERATION]; the registers, the memory
    and the stack size are untouched, and the instruction pointer is left
    past the operands the handler has read. *)
Lemma stack_refusal w ip :
  status (cpu_of w) = CPU_OK ->
  0 <= inst_index (cpu_of w) <= end_of_stack (cpu_of w) ->
  stack_refused w ip ->
  exists w', cpu_step w = Some (0, w') /\
    failed_with CPU_INVALID_STACK_OPERATION w ip w'.
Proof.
  intros Hw Hip Href.
  enough (wp cpu_step w (fun a w' => a = 0 /\
            failed_with CPU_INVALID_STACK_OPERATION w ip w'))
    as (a & w' & E & -> & H); [by exists w'|].
  unfold failed_with.
  destruct Href; unfold operand, valid_index in *.
  - eapply cpu_step_dispatch; [done..|reflexivity|].
    unfold execute_push. wp_run. done.
  - eapply cpu_step_dispatch; [done..|reflexivity|].
    unfold execute_pop. wp_run. done.
  - eapply cpu_step_dispatch; [done..|reflexivity|].
    unfold execute_call. wp_run. done.
  - eapply cpu_step_dispatch; [done..|reflexivity|].
    unfold execute_ret. wp_run. done.
Qed.

(** [stack_refusal] at [Sample.pop_empty]: POP A on an empty stack. *)
Lemma stack_refusal_witness :
  exists w', cpu_step Sample.pop_empty = Some (0, w') /\
    failed_with CPU_INVALID_STACK_OPERATION Sample.pop_empty 1 w'.
Proof.
  apply (stack_refusal Sample.pop_empty 1).
  - reflexivity.
  - vm_compute. split; discriminate.
  - apply (refused_pop Sample.pop_empty 0).
    + reflexivity.
    + reflexivity.
    + unfold valid_index. lia.
    + vm_compute. discriminate.
Defined.

Lemma reg_get_set rs r v rs' :
  reg_set rs r v = Some rs' -> reg_get rs' r = Some v.
Proof.
  unfold reg_set, reg_get. intros H.
  assert (r = 0 \/ r = 1 \/ r = 2 \/ r = 3 \/ r = 4) as Hr.
  { destruct r as [|p|p]; [lia| |done].
    do 3 (destruct p as [p|p|]; try done; try lia). }
  destruct Hr as [ -> | [ -> | [ -> | [ -> | -> ] ] ] ];
    by injection H as <-.
Qed.

Lemma reg_set_is_Some rs r v : 0 <= r <= 4 -> is_Some (reg_set rs r v).
Proof.
  intros Hr.
  assert (r = 0 \/ r = 1 \/ r = 2 \/ r = 3 \/ r = 4) as H by lia.
  destruct H as [ -> | [ -> | [ -> | [ -> | -> ] ] ] ]; cbn; eauto.
Qed.

(** X7. PUSH followed by POP. With room on the stack, PUSH r stores the
    value of the register in the slot at [stack_size] and grows the stack by
    one, leaving the registers; and a POP r2 from any later state with that
    stack size and that slot intact puts the value in r2, zeroes the slot
    and restores the stack size. *)
Lemma push_then_pop w r v :
  status (cpu_of w) = CPU_OK ->
  0 <= inst_index (cpu_of w) <= end_of_stack (cpu_of w) ->
  fetched w = Some 0x11 ->
  operand w 1 = Some r -> valid_index r ->
  reg_get (registers (cpu_of w)) r = Some v ->
  0 <= stack_size (cpu_of w) < wrap32 (stack_capacity (cpu_of w)) ->
  is_Some (stack_slot (cpu_of w) (stack_size (cpu_of w))) ->
  exists w1,
    cpu_step w = Some (1, w1) /\
    stack_size (cpu_of w1) = stack_size (cpu_of w) + 1 /\
    stack_slot (cpu_of w1) (stack_size (cpu_of w)) = Some v /\
    registers (cpu_of w1) = registers (cpu_of w) /\
    forall w2 r2,
      status (cpu_of w2) = CPU_OK ->
      0 <= inst_index (cpu_of w2) <= end_of_stack (cpu_of w2) ->
      fetched w2 = Some 0x12 ->
      operand w2 1 = Some r2 -> valid_index r2 ->
      stack_size (cpu_of w2) = stack_size (cpu_of w1) ->
      stack_slot (cpu_of w2) (stack_size (cpu_of w)) = Some v ->
      exists w3,
        cpu_step w2 = Some (1, w3) /\
        reg_get (registers (cpu_of w3)) r2 = Some v /\
        reg_set (registers (cpu_of w2)) r2 v = Some (registers (cpu_of w3)) /\
        stack_size (cpu_of w3) = stack_size (cpu_of w) /\
        stack_slot (cpu_of w3) (stack_size (cpu_of w)) = Some 0.
Proof.
  intros Hw Hip Hop Hr Hvalid Hv Hsize Hslot.
  pose proof (wrap32_range (stack_capacity (cpu_of w))) as Hcap.
  unfold int32 in Hcap.
  assert (wrap32 (- stack_size (cpu_of w)) = - stack_size (cpu_of w)) as Hneg
    by (apply wrap32_id; unfold int32; lia).
  assert (wrap32 (stack_size (cpu_of w) + 1) = stack_size (cpu_of w) + 1)
    as Hsucc by (apply wrap32_id; unfold int32; lia).
  unfold operand, stack_slot, valid_index in *.
  destruct Hslot as [old Hold]. apply mem_read_bounds in Hold.
  destruct (mem_write_is_Some (memory (cpu_of w))
              (stack_bottom (cpu_of w) + wrap32 (- stack_size (cpu_of w)))
              v) as [m' Hm']; [lia|].
  assert (wp cpu_step w (fun a w1 => a = 1 /\
            stack_size (cpu_of w1) = stack_size (cpu_of w) + 1 /\
            stack_bottom (cpu_of w1) = stack_bottom (cpu_of w) /\
            registers (cpu_of w1) = registers (cpu_of w) /\
            memory (cpu_of w1) = m'))
    as (a & w1 & E & -> & Hsize1 & Hsb1 & Hregs1 & Hmem1).
  { eapply cpu_step_dispatch; [done..|reflexivity|].
    unfold execute_push. wp_run. done. }
  exists w1. split; [done|]. split; [done|]. split.
  { rewrite Hmem1, Hsb1. rewrite Hneg in Hm'.
    replace (stack_bottom (cpu_of w) - stack_size (cpu_of w))
      with (stack_bottom (cpu_of w) + - stack_size (cpu_of w)) by lia.
    by eapply mem_read_write_eq. }
  split; [done|].
  intros w2 r2 Hw2 Hip2 Hop2 Hr2 Hvalid2 Hsize2 Htop.
  rewrite Hsize1 in Hsize2.
  assert (wrap32 (stack_size (cpu_of w2) - 1) = stack_size (cpu_of w))
    as Hpred.
  { rewrite Hsize2.
    replace (stack_size (cpu_of w) + 1 - 1) with (stack_size (cpu_of w)) by lia.
    apply wrap32_id. unfold int32. lia. }
  assert (stack_bottom (cpu_of w2)
            + wrap32 (- wrap32 (stack_size (cpu_of w2) - 1))
          = stack_bottom (cpu_of w2) - stack_size (cpu_of w)) as Hslot2
    by (rewrite Hpred, Hneg; lia).
  pose proof (mem_read_bounds _ _ _ Htop) as Hin.
  destruct (mem_write_is_Some (memory (cpu_of w2))
              (stack_bottom (cpu_of w2)
               + wrap32 (- wrap32 (stack_size (cpu_of w2) - 1)))
              0) as [m2 Hm2]; [lia|].
  pose proof (mem_read_write_eq _ _ _ _ Hm2) as Hzero.
  rewrite Hslot2 in Hzero. rewrite <- Hslot2 in Htop.
  destruct (reg_set_is_Some (registers (cpu_of w2)) r2 v Hvalid2) as [rs Hrs].
  pose proof (reg_get_set _ _ _ _ Hrs) as Hget.
  enough (wp cpu_step w2 (fun a w3 => a = 1 /\
            registers (cpu_of w3) = rs /\
            stack_size (cpu_of w3) = stack_size (cpu_of w) /\
            stack_bottom (cpu_of w3) = stack_bottom (cpu_of w2) /\
            memory (cpu_of w3) = m2))
    as (a & w3 & E3 & -> & Hregs3 & Hsize3 & Hsb3 & Hmem3).
  { exists w3. rewrite Hregs3, Hmem3, Hsb3. done. }
  eapply cpu_step_dispatch; [done..|reflexivity|].
  unfold execute_pop. wp_run. done.
Qed.

(** [push_then_pop] at [Sample.at_push]: PUSH A with A = 7 on an empty
    stack. *)
Lemma push_then_pop_witness :
  exists w1,
    cpu_step Sample.at_push = Some (1, w1) /\
    stack_size (cpu_of w1) = stack_size (cpu_of Sample.at_push) + 1 /\
    stack_slot (cpu_of w1) (stack_size (cpu_of Sample.at_push)) = Some 7 /\
    registers (cpu_of w1) = registers (cpu_of Sample.at_push) /\
    forall w2 r2,
      status (cpu_of w2) = CPU_OK ->
      0 <= inst_index (cpu_of w2) <= end_of_stack (cpu_of w2) ->
      fetched w2 = Some 0x12 ->
      operand w2 1 = Some r2 -> valid_index r2 ->
      stack_size (cpu_of w2) = stack_size (cpu_of w1) ->
      stack_slot (cpu_of w2) (stack_size (cpu_of Sample.at_push)) = Some 7 ->
      exists w3,
        cpu_step w2 = Some (1, w3) /\
        reg_get (registers (cpu_of w3)) r2 = Some 7 /\
        reg_set (registers (cpu_of w2)) r2 7 = Some (registers (cpu_of w3)) /\
        stack_size (cpu_of w3) = stack_size (cpu_of Sample.at_push) /\
        stack_slot (cpu_of w3) (stack_size (cpu_of Sample.at_push)) = Some 0.
Proof.
  apply (push_then_pop Sample.at_push 0 7).
  - reflexivity.
  - vm_compute. split; discriminate.
  - reflexivity.
  - reflexivity.
  - unfold valid_index. lia.
  - reflexivity.
  - vm_compute. split; [discriminate|reflexivity].
  - eexists. reflexivity.
Defined.

(** * LOAD and STORE *)

Lemma load_index_eq size d num :
  0 <= size < 2^31 -> 0 <= wrap32 (d + num) ->
  wrap32 (wrap32 (size - wrap32 (d + num)) - 1) = size - 1 - wrap32 (d + num).
Proof.
  intros Hsize He. pose proof (wrap32_range (d + num)) as Hr. unfold int32 in Hr.
  rewrite (wrap32_id (size - wrap32 (d + num))) by (unfold int32; lia).
  rewrite wrap32_id by (unfold int32; lia). lia.
Qed.

Lemma store_index_eq size d num :
  0 <= size < 2^31 -> 0 <= wrap32 (d + num) ->
  wrap32 (wrap32 (wrap32 (size - d) - num) - 1) = size - 1 - wrap32 (d + num).
Proof.
  intros Hsize He.
  pose proof (wrap32_range (d + num)) as Hr1.
  pose proof (wrap32_range (wrap32 (wrap32 (size - d) - num) - 1)) as Hr2.
  destruct (wrap32_shift (d + num)) as [q1 H1].
  destruct (wrap32_shift (size - d)) as [q2 H2].
  destruct (wrap32_shift (wrap32 (size - d) - num)) as [q3 H3].
  destruct (wrap32_shift (wrap32 (wrap32 (size - d) - num) - 1)) as [q4 H4].
  unfold int32 in *. lia.
Qed.

(** X8. LOAD and STORE address the stack from its top: with [off = D + num]
    (in 32 bits), both refuse with [CPU_INVALID_STACK_OPERATION] unless [0
    <= off < stack_size], and otherwise LOAD copies the slot [stack_size - 1
    - off] into the register, while STORE writes the register into that slot
    and leaves every other slot, the registers and the stack size. *)
Lemma load_and_store w r n :
  status (cpu_of w) = CPU_OK ->
  0 <= inst_index (cpu_of w) <= end_of_stack (cpu_of w) ->
  operand w 1 = Some r -> operand w 2 = Some n -> valid_index r ->
  0 <= stack_size (cpu_of w) < 2^31 ->
  let off := wrap32 (reg_d (registers (cpu_of w)) + n) in
  let k := stack_size (cpu_of w) - 1 - off in
  ((fetched w = Some 0x0A \/ fetched w = Some 0x0B) ->
   off < 0 \/ stack_size (cpu_of w) <= off ->
   exists w', cpu_step w = Some (0, w') /\
     failed_with CPU_INVALID_STACK_OPERATION w
       (wrap32 (inst_index (cpu_of w) + 2)) w') /\
  (forall old, fetched w = Some 0x0A ->
   0 <= off < stack_size (cpu_of w) ->
   stack_slot (cpu_of w) k = Some old ->
   exists w', cpu_step w = Some (1, w') /\
     reg_set (registers (cpu_of w)) r old = Some (registers (cpu_of w')) /\
     memory (cpu_of w') = memory (cpu_of w) /\
     stack_size (cpu_of w') = stack_size (cpu_of w)) /\
  (forall v, fetched w = Some 0x0B ->
   0 <= off < stack_size (cpu_of w) ->
   is_Some (stack_slot (cpu_of w) k) ->
   reg_get (registers (cpu_of w)) r = Some v ->
   exists w', cpu_step w = Some (1, w') /\
     stack_slot (cpu_of w') k = Some v /\
     (forall j, j <> k -> stack_slot (cpu_of w') j = stack_slot (cpu_of w) j) /\
     registers (cpu_of w') = registers (cpu_of w) /\
     stack_size (cpu_of w') = stack_size (cpu_of w) /\
     stack_bottom (cpu_of w') = stack_bottom (cpu_of w)).
Proof.
  intros Hw Hip Hr Hn Hvalid Hsize off k.
  unfold operand, valid_index, failed_with, stack_slot in *.
  pose proof (wrap32_range (reg_d (registers (cpu_of w)) + n)) as Hoff.
  unfold int32 in Hoff. fold off in Hoff.
  split; [|split].
  - intros Hop Hout.
    enough (wp cpu_step w (fun a w' => a = 0 /\
       status (cpu_of w') = CPU_INVALID_STACK_OPERATION /\
       inst_index (cpu_of w') = wrap32 (inst_index (cpu_of w) + 2) /\
       registers (cpu_of w') = registers (cpu_of w) /\
       memory (cpu_of w') = memory (cpu_of w) /\
       stack_size (cpu_of w') = stack_size (cpu_of w) /\
       stdin w' = stdin w /\ stdout w' = stdout w))
      as (a & w' & E & -> & H); [by exists w'|].
    assert (0 <= off ->
            wrap32 (wrap32 (stack_size (cpu_of w) - off) - 1) < 0) as Hload.
    { intros Hpos. unfold off. rewrite load_index_eq by (done || lia).
      fold off. lia. }
    assert (0 <= off ->
            wrap32 (wrap32 (wrap32 (stack_size (cpu_of w)
                      - reg_d (registers (cpu_of w))) - n) - 1) < 0) as Hstore.
    { intros Hpos. rewrite store_index_eq by (done || lia). fold off. lia. }
    unfold off in *.
    destruct Hop as [Hop|Hop].
    + eapply cpu_step_dispatch; [done..|reflexivity|].
      unfold execute_load. wp_run; done.
    + eapply cpu_step_dispatch; [done..|reflexivity|].
      unfold execute_store. wp_run; done.
  - intros old Hop Hin Hslot.
    pose proof (load_index_eq (stack_size (cpu_of w))
                  (reg_d (registers (cpu_of w))) n Hsize ltac:(lia)) as Hidx.
    fold off in Hidx.
    assert (wrap32 (- (stack_size (cpu_of w) - 1 - off))
            = - (stack_size (cpu_of w) - 1 - off)) as Hneg
      by (apply wrap32_id; unfold int32; lia).
    destruct (reg_set_is_Some (registers (cpu_of w)) r old Hvalid) as [rs Hrs].
    enough (wp cpu_step w (fun a w' => a = 1 /\
       registers (cpu_of w') = rs /\
       memory (cpu_of w') = memory (cpu_of w) /\
       stack_size (cpu_of w') = stack_size (cpu_of w)))
      as (a & w' & E & -> & Hregs & H); [exists w'; by rewrite Hregs|].
    assert (mem_read (memory (cpu_of w))
              (stack_bottom (cpu_of w)
               + wrap32 (- wrap32 (wrap32 (stack_size (cpu_of w)
                    - wrap32 (reg_d (registers (cpu_of w)) + n)) - 1)))
            = Some old) as Hread.
    { fold off. rewrite Hidx, Hneg. rewrite <- Hslot. f_equal. all: unfold k; lia. }
    unfold off in *.
    eapply cpu_step_dispatch; [done..|reflexivity|].
    unfold execute_load. wp_run; done.
  - intros v Hop Hin Hslot Hv.
    pose proof (store_index_eq (stack_size (cpu_of w))
                  (reg_d (registers (cpu_of w))) n Hsize ltac:(lia)) as Hidx.
    fold off in Hidx.
    assert (wrap32 (- (stack_size (cpu_of w) - 1 - off))
            = - (stack_size (cpu_of w) - 1 - off)) as Hneg
      by (apply wrap32_id; unfold int32; lia).
    destruct Hslot as [old Hold]. apply mem_read_bounds in Hold.
    destruct (mem_write_is_Some (memory (cpu_of w))
                (stack_bottom (cpu_of w)
                 + wrap32 (- wrap32 (wrap32 (wrap32 (stack_size (cpu_of w)
                      - reg_d (registers (cpu_of w))) - n) - 1))) v)
      as [m' Hm'].
    { rewrite Hidx, Hneg. unfold k in Hold. lia. }
    enough (wp cpu_step w (fun a w' => a = 1 /\
       memory (cpu_of w') = m' /\
       registers (cpu_of w') = registers (cpu_of w) /\
       stack_size (cpu_of w') = stack_size (cpu_of w) /\
       stack_bottom (cpu_of w') = stack_bottom (cpu_of w)))
      as (a & w' & E & -> & Hmem & Hregs & Hsz & Hsb).
    { exists w'. rewrite Hmem, Hsb. repeat split; try done.
      - rewrite Hidx, Hneg in Hm'.
        replace (stack_bottom (cpu_of w) - k)
          with (stack_bottom (cpu_of w) + - (stack_size (cpu_of w) - 1 - off))
          by (unfold k; lia).
        by eapply mem_read_write_eq.
      - intros j Hj. rewrite Hidx, Hneg in Hm'.
        apply (mem_read_write_ne _ _ _ _ _ Hm'). unfold k in Hj. lia. }
    unfold off in *.
    eapply cpu_step_dispatch; [done..|reflexivity|].
    unfold execute_store. wp_run; done.
Qed.

(** [load_and_store] at [Sample.at_load]: LOAD B,0 with D = 0 and the one
    word 7 on the stack puts 7 in B. *)
Lemma load_and_store_witness :
  exists w', cpu_step Sample.at_load = Some (1, w') /\
    reg_set (registers (cpu_of Sample.at_load)) 1 7
    = Some (registers (cpu_of w')) /\
    memory (cpu_of w') = memory (cpu_of Sample.at_load) /\
    stack_size (cpu_of w') = stack_size (cpu_of Sample.at_load).
Proof.
  destruct (load_and_store Sample.at_load 1 0) as (_ & Hload & _).
  - reflexivity.
  - vm_compute. split; discriminate.
  - reflexivity.
  - reflexivity.
  - unfold valid_index. lia.
  - vm_compute. split; [discriminate|reflexivity].
  - apply (Hload 7).
    + reflexivity.
    + vm_compute. split; [discriminate|reflexivity].
    + reflexivity.
Defined.

(** * The input and output instructions *)

Lemma byte_val_range b : 0 <= byte_val b <= 255.
Proof.
  unfold byte_val. pose proof (Byte.to_N_bounded b). lia.
Qed.

(** X9. GET reads one byte of the input into the register, as a value in
    0..255, and consumes it. At the end of the input it stores -1 in the
    register and 0 in register C (when the register is C itself, the -1,
    written last, stays), and the step still succeeds. *)
Lemma get_reads_byte w r :
  status (cpu_of w) = CPU_OK ->
  0 <= inst_index (cpu_of w) <= end_of_stack (cpu_of w) ->
  fetched w = Some 0x0D ->
  operand w 1 = Some r -> valid_index r ->
  exists w', cpu_step w = Some (1, w') /\
    status (cpu_of w') = CPU_OK /\
    memory (cpu_of w') = memory (cpu_of w) /\
    stack_size (cpu_of w') = stack_size (cpu_of w) /\
    stdout w' = stdout w /\
    match stdin w with
    | b :: rest =>
        stdin w' = rest /\
        reg_set (registers (cpu_of w)) r (byte_val b)
          = Some (registers (cpu_of w'))
    | [] =>
        stdin w' = [] /\
        (exists rs, reg_set (registers (cpu_of w)) REGISTER_C 0 = Some rs /\
                    reg_set rs r (-1) = Some (registers (cpu_of w'))) /\
        reg_get (registers (cpu_of w')) r = Some (-1) /\
        (r <> REGISTER_C -> reg_c (registers (cpu_of w')) = 0)
    end.
Proof.
  intros Hw Hip Hop Hr Hvalid. unfold operand, valid_index in *.
  destruct (stdin w) as [|b rest] eqn:Hin.
  - destruct (reg_set_is_Some
                (Regs (reg_a (registers (cpu_of w))) (reg_b (registers (cpu_of w)))
                      0 (reg_d (registers (cpu_of w)))
                      (reg_result (registers (cpu_of w)))) r (-1) Hvalid)
      as [rs Hrs].
    enough (wp cpu_step w (fun a w' => a = 1 /\
              status (cpu_of w') = CPU_OK /\
              memory (cpu_of w') = memory (cpu_of w) /\
              stack_size (cpu_of w') = stack_size (cpu_of w) /\
              stdout w' = stdout w /\ stdin w' = [] /\
              registers (cpu_of w') = rs))
      as (a & w' & E & -> & Hs & Hm & Hsz & Hout & Hin' & Hregs).
    { exists w'. repeat split; try done.
      - exists (Regs (reg_a (registers (cpu_of w)))
                     (reg_b (registers (cpu_of w))) 0
                     (reg_d (registers (cpu_of w)))
                     (reg_result (registers (cpu_of w)))).
        split; [done|]. by rewrite Hregs.
      - rewrite Hregs. by eapply reg_get_set.
      - intros Hne. rewrite Hregs.
        assert (r = 0 \/ r = 1 \/ r = 3 \/ r = 4) as Hcases
          by (unfold REGISTER_C in Hne; lia).
        destruct Hcases as [ -> | [ -> | [ -> | -> ] ] ];
          by injection Hrs as <-. }
    eapply cpu_step_dispatch; [done..|reflexivity|].
    unfold execute_get.
    repeat (wp_step; rewrite ?Hin;
            change (getchar []) with (EOF, @nil byte); cbn [fst snd]).
    done.
  - pose proof (byte_val_range b) as Hb.
    destruct (reg_set_is_Some (registers (cpu_of w)) r (byte_val b) Hvalid)
      as [rs Hrs].
    enough (wp cpu_step w (fun a w' => a = 1 /\
              status (cpu_of w') = CPU_OK /\
              memory (cpu_of w') = memory (cpu_of w) /\
              stack_size (cpu_of w') = stack_size (cpu_of w) /\
              stdout w' = stdout w /\ stdin w' = rest /\
              registers (cpu_of w') = rs))
      as (a & w' & E & -> & Hs & Hm & Hsz & Hout & Hin' & Hregs).
    { exists w'. rewrite Hregs. done. }
    eapply cpu_step_dispatch; [done..|reflexivity|].
    unfold execute_get, EOF.
    repeat (wp_step; rewrite ?Hin;
            change (getchar (b :: rest)) with (byte_val b, rest);
            cbn [fst snd]).
    done.
Qed.

(** [get_reads_byte] at [Sample.get]: GET B with the letter A (65) on the
    input. *)
Lemma get_reads_byte_witness :
  exists w', cpu_step Sample.get = Some (1, w') /\
    status (cpu_of w') = CPU_OK /\
    memory (cpu_of w') = memory (cpu_of Sample.get) /\
    stack_size (cpu_of w') = stack_size (cpu_of Sample.get) /\
    stdout w' = stdout Sample.get /\
    stdin w' = [] /\
    reg_set (registers (cpu_of Sample.get)) 1 65
    = Some (registers (cpu_of w')).
Proof.
  apply (get_reads_byte Sample.get 1).
  - reflexivity.
  - vm_compute. split; discriminate.
  - reflexivity.
  - reflexivity.
  - unfold valid_index. lia.
Defined.

(** X10. IN reads a number as [scanf] with [%d] does. When the input holds a
    number that fits in 32 bits, the step succeeds and the register holds
    that number; when it holds no number, the step returns 0 with the
    status [CPU_IO_ERROR], the registers untouched and the instruction
    pointer past the operand. In both cases the input is consumed up to
    the end of the number (or of what was read in search of one), and the
    memory, the stack and the output are untouched. *)
Lemma in_scans_integer w r :
  status (cpu_of w) = CPU_OK ->
  0 <= inst_index (cpu_of w) <= end_of_stack (cpu_of w) ->
  fetched w = Some 0x0C ->
  operand w 1 = Some r -> valid_index r ->
  match (scan_number (stdin w)).1 with
  | Some n =>
      int32 n ->
      exists w', cpu_step w = Some (1, w') /\
        status (cpu_of w') = CPU_OK /\
        reg_set (registers (cpu_of w)) r n = Some (registers (cpu_of w')) /\
        memory (cpu_of w') = memory (cpu_of w) /\
        stack_size (cpu_of w') = stack_size (cpu_of w) /\
        stdout w' = stdout w /\
        stdin w' = (scan_number (stdin w)).2
  | None =>
      exists w', cpu_step w = Some (0, w') /\
        status (cpu_of w') = CPU_IO_ERROR /\
        inst_index (cpu_of w') = wrap32 (inst_index (cpu_of w) + 1) /\
        registers (cpu_of w') = registers (cpu_of w) /\
        memory (cpu_of w') = memory (cpu_of w) /\
        stack_size (cpu_of w') = stack_size (cpu_of w) /\
        stdout w' = stdout w /\
        stdin w' = (scan_number (stdin w)).2
  end.
Proof.
  intros Hw Hip Hop Hr Hvalid. unfold operand, valid_index in *.
  assert (scanf_d (stdin w)
          = (wrap32 <$> (strtol_value <$> (scan_number (stdin w)).1),
             (scan_number (stdin w)).2)) as Hscan.
  { unfold scanf_d. by destruct (scan_number (stdin w)). }
  destruct (scan_number (stdin w)) as [[n|] left]; cbn [fst snd] in *.
  - intros Hn.
    assert (wrap32 (strtol_value n) = n) as Hfit.
    { unfold strtol_value, LONG_MAX, LONG_MIN, int32 in *.
      rewrite Z.min_r, Z.max_r by lia. apply wrap32_id. unfold int32. lia. }
    cbn [fmap option_fmap option_map] in Hscan. rewrite Hfit in Hscan.
    destruct (reg_set_is_Some (registers (cpu_of w)) r n Hvalid) as [rs Hrs].
    enough (wp cpu_step w (fun a w' => a = 1 /\
              status (cpu_of w') = CPU_OK /\
              memory (cpu_of w') = memory (cpu_of w) /\
              stack_size (cpu_of w') = stack_size (cpu_of w) /\
              stdout w' = stdout w /\ stdin w' = left /\
              registers (cpu_of w') = rs))
      as (a & w' & E & -> & Hs & Hm & Hsz & Hout & Hin' & Hregs).
    { exists w'. rewrite Hregs. done. }
    eapply cpu_step_dispatch; [done..|reflexivity|].
    unfold execute_in.
    repeat (wp_step; rewrite ?Hscan; cbn [fst snd]).
    by rewrite Hw.
  - cbn [fmap option_fmap option_map] in Hscan.
    enough (wp cpu_step w (fun a w' => a = 0 /\
              status (cpu_of w') = CPU_IO_ERROR /\
              memory (cpu_of w') = memory (cpu_of w) /\
              stack_size (cpu_of w') = stack_size (cpu_of w) /\
              stdout w' = stdout w /\ stdin w' = left /\
              inst_index (cpu_of w') = wrap32 (inst_index (cpu_of w) + 1) /\
              registers (cpu_of w') = registers (cpu_of w)))
      as (a & w' & E & -> & Hs & Hm & Hsz & Hout & Hin' & Hip' & Hregs).
    { exists w'. done. }
    eapply cpu_step_dispatch; [done..|reflexivity|].
    unfold execute_in.
    repeat (wp_step; rewrite ?Hscan; cbn [fst snd]).
    done.
Qed.

(** [in_scans_integer] at [Sample.scan]: IN B with the digits 42 on the
    input. *)
Lemma in_scans_integer_witness :
  exists w', cpu_step Sample.scan = Some (1, w') /\
    status (cpu_of w') = CPU_OK /\
    reg_set (registers (cpu_of Sample.scan)) 1 42
    = Some (registers (cpu_of w')) /\
    memory (cpu_of w') = memory (cpu_of Sample.scan) /\
    stack_size (cpu_of w') = stack_size (cpu_of Sample.scan) /\
    stdout w' = stdout Sample.scan /\
    stdin w' = [].
Proof.
  apply (in_scans_integer Sample.scan 1).
  - reflexivity.
  - vm_compute. split; discriminate.
  - reflexivity.
  - reflexivity.
  - unfold valid_index. lia.
  - vm_compute. split; [discriminate|reflexivity].
Defined.

(** X11. OUT appends the value of the register, as a decimal number, to the
    output. PUT appends it as one character when it is in 0..255, and
    otherwise prints nothing and returns 0 with the status
    [CPU_ILLEGAL_OPERAND]. Neither changes the registers, the memory or the
    stack. *)
Lemma out_and_put w r v :
  status (cpu_of w) = CPU_OK ->
  0 <= inst_index (cpu_of w) <= end_of_stack (cpu_of w) ->
  operand w 1 = Some r -> valid_index r ->
  reg_get (registers (cpu_of w)) r = Some v ->
  (fetched w = Some 0x0E ->
   exists w', cpu_step w = Some (1, w') /\
     stdout w' = stdout w ++ [OutDecimal v] /\ stdin w' = stdin w /\
     registers (cpu_of w') = registers (cpu_of w) /\
     memory (cpu_of w') = memory (cpu_of w) /\
     stack_size (cpu_of w') = stack_size (cpu_of w)) /\
  (fetched w = Some 0x0F -> 0 <= v <= 255 ->
   exists w', cpu_step w = Some (1, w') /\
     stdout w' = stdout w ++ [OutChar v] /\ stdin w' = stdin w /\
     registers (cpu_of w') = registers (cpu_of w) /\
     memory (cpu_of w') = memory (cpu_of w) /\
     stack_size (cpu_of w') = stack_size (cpu_of w)) /\
  (fetched w = Some 0x0F -> ~ 0 <= v <= 255 ->
   exists w', cpu_step w = Some (0, w') /\
     failed_with CPU_ILLEGAL_OPERAND w
       (wrap32 (inst_index (cpu_of w) + 1)) w').
Proof.
  intros Hw Hip Hr Hvalid Hv. unfold operand, valid_index, failed_with in *.
  split; [|split].
  - intros Hop.
    enough (wp cpu_step w (fun a w' => a = 1 /\
       stdout w' = stdout w ++ [OutDecimal v] /\ stdin w' = stdin w /\
       registers (cpu_of w') = registers (cpu_of w) /\
       memory (cpu_of w') = memory (cpu_of w) /\
       stack_size (cpu_of w') = stack_size (cpu_of w)))
      as (a & w' & E & -> & H); [by exists w'|].
    eapply cpu_step_dispatch; [done..|reflexivity|].
    unfold execute_out. wp_run. done.
  - intros Hop Hrange.
    enough (wp cpu_step w (fun a w' => a = 1 /\
       stdout w' = stdout w ++ [OutChar v] /\ stdin w' = stdin w /\
       registers (cpu_of w') = registers (cpu_of w) /\
       memory (cpu_of w') = memory (cpu_of w) /\
       stack_size (cpu_of w') = stack_size (cpu_of w)))
      as (a & w' & E & -> & H); [by exists w'|].
    eapply cpu_step_dispatch; [done..|reflexivity|].
    unfold execute_put. wp_run. done.
  - intros Hop Hrange.
    enough (wp cpu_step w (fun a w' => a = 0 /\
       status (cpu_of w') = CPU_ILLEGAL_OPERAND /\
       inst_index (cpu_of w') = wrap32 (inst_index (cpu_of w) + 1) /\
       registers (cpu_of w') = registers (cpu_of w) /\
       memory (cpu_of w') = memory (cpu_of w) /\
       stack_size (cpu_of w') = stack_size (cpu_of w) /\
       stdin w' = stdin w /\ stdout w' = stdout w))
      as (a & w' & E & -> & H); [by exists w'|].
    eapply cpu_step_dispatch; [done..|reflexivity|].
    unfold execute_put. wp_run. done.
Qed.

(** [out_and_put] at [Sample.out]: OUT A with A = 65 prints 65. *)
Lemma out_and_put_witness :
  exists w', cpu_step Sample.out = Some (1, w') /\
    stdout w' = stdout Sample.out ++ [OutDecimal 65] /\
    stdin w' = stdin Sample.out /\
    registers (cpu_of w') = registers (cpu_of Sample.out) /\
    memory (cpu_of w') = memory (cpu_of Sample.out) /\
    stack_size (cpu_of w') = stack_size (cpu_of Sample.out).
Proof.
  destruct (out_and_put Sample.out 0 65) as (Hout & _ & _).
  - reflexivity.
  - vm_compute. split; discriminate.
  - reflexivity.
  - unfold valid_index. lia.
  - reflexivity.
  - apply Hout. reflexivity.
Defined.

(** * Arithmetic, comparison and moves *)

Lemma reg_get_valid rs r v : reg_get rs r = Some v -> valid_index r.
Proof.
  unfold reg_get, valid_index. intros H.
  destruct r as [|p|p]; [lia| |done].
  do 3 (destruct p as [p|p|]; try done; try lia).
Qed.

Lemma valid_index_cases r :
  valid_index r -> r = 0 \/ r = 1 \/ r = 2 \/ r = 3 \/ r = 4.
Proof. unfold valid_index. lia. Qed.

Lemma reg_get_set_ne rs r v rs' r' :
  reg_set rs r v = Some rs' -> r' <> r -> reg_get rs' r' = reg_get rs r'.
Proof.
  intros Hset Hne.
  pose proof (reg_get_valid rs r) as Hvalid.
  assert (valid_index r) as Hr.
  { unfold reg_set in Hset. unfold valid_index.
    destruct r as [|p|p]; [lia| |done].
    do 3 (destruct p as [p|p|]; try done; try lia). }
  destruct (valid_index_cases r Hr) as [ -> | [ -> | [ -> | [ -> | -> ] ] ] ];
    injection Hset as <-;
    (destruct r' as [|p|p]; [try done; lia| |done];
     do 3 (destruct p as [p|p|]; try done; try lia)).
Qed.

Lemma wrap32_to_u32 z : wrap32 (to_u32 z) = wrap32 z.
Proof.
  unfold wrap32, to_u32.
  rewrite <- (Z.add_mod_idemp_l z) by lia. done.
Qed.

(** X12. ADD, SUB and MUL whose exact result fits in 32 bits: A and the
    result register hold that result afterwards, the other registers are as
    they were, and the instruction pointer is past the operand. *)
Lemma arithmetic_exact w op r b result :
  status (cpu_of w) = CPU_OK ->
  0 <= inst_index (cpu_of w) <= end_of_stack (cpu_of w) ->
  fetched w = Some op ->
  operand w 1 = Some r ->
  reg_get (registers (cpu_of w)) r = Some b ->
  arithmetic (reg_a (registers (cpu_of w))) b op result ->
  int32 result ->
  exists w', cpu_step w = Some (1, w') /\
    advanced 2 w w' /\
    registers (cpu_of w')
    = Regs result (reg_b (registers (cpu_of w)))
           (reg_c (registers (cpu_of w))) (reg_d (registers (cpu_of w)))
           result.
Proof.
  intros Hw Hip Hop Hr Hb Harith Hfits.
  pose proof (reg_get_valid _ _ _ Hb) as Hvalid.
  unfold operand, valid_index in *.
  enough (wp cpu_step w (fun x w' => x = 1 /\
            status (cpu_of w') = CPU_OK /\
            inst_index (cpu_of w')
            = wrap32 (wrap32 (inst_index (cpu_of w) + 1) + 1) /\
            memory (cpu_of w') = memory (cpu_of w) /\
            stack_size (cpu_of w') = stack_size (cpu_of w) /\
            stdin w' = stdin w /\ stdout w' = stdout w /\
            registers (cpu_of w')
            = Regs (wrap32 result) (reg_b (registers (cpu_of w)))
                   (reg_c (registers (cpu_of w)))
                   (reg_d (registers (cpu_of w))) (wrap32 result)))
    as (x & w' & E & -> & Hs & Hi & Hm & Hsz & Hin & Hout & Hregs).
  { exists w'. split; [done|]. split.
    - unfold advanced. rewrite wrap32_add_l in Hi.
      replace (inst_index (cpu_of w) + 1 + 1)
        with (inst_index (cpu_of w) + 2) in Hi by lia.
      done.
    - by rewrite Hregs, (wrap32_id _ Hfits). }
  destruct Harith.
  - eapply cpu_step_dispatch; [done..|reflexivity|].
    unfold execute_add. wp_run. done.
  - eapply cpu_step_dispatch; [done..|reflexivity|].
    unfold execute_sub. wp_run. done.
  - eapply cpu_step_dispatch; [done..|reflexivity|].
    unfold execute_mul. wp_run. done.
Qed.

(** [arithmetic_exact] at [Sample.at_add]: ADD B with A = 5 and B = 3. *)
Lemma arithmetic_exact_witness :
  exists w', cpu_step Sample.at_add = Some (1, w') /\
    advanced 2 Sample.at_add w' /\
    registers (cpu_of w') = Regs 8 3 0 0 8.
Proof.
  apply (arithmetic_exact Sample.at_add 0x02 1 3 8).
  - reflexivity.
  - vm_compute. split; discriminate.
  - reflexivity.
  - reflexivity.
  - reflexivity.
  - apply (arithmetic_add 5 3).
  - unfold int32. lia.
Defined.

(** X13. INC and DEC whose exact result fits in 32 bits: the register and
    the result register hold that result afterwards, and the other registers
    are as they were. *)
Lemma counting_exact w op r v result :
  status (cpu_of w) = CPU_OK ->
  0 <= inst_index (cpu_of w) <= end_of_stack (cpu_of w) ->
  fetched w = Some op ->
  operand w 1 = Some r ->
  reg_get (registers (cpu_of w)) r = Some v ->
  counting v op result ->
  int32 result ->
  exists w', cpu_step w = Some (1, w') /\
    advanced 2 w w' /\
    reg_get (registers (cpu_of w')) r = Some result /\
    reg_get (registers (cpu_of w')) REGISTER_RESULT = Some result /\
    forall r', r' <> r -> r' <> REGISTER_RESULT ->
      reg_get (registers (cpu_of w')) r' = reg_get (registers (cpu_of w)) r'.
Proof.
  intros Hw Hip Hop Hr Hv Hcount Hfits.
  pose proof (reg_get_valid _ _ _ Hv) as Hvalid.
  unfold operand in *.
  assert (exists rs rs',
            reg_set (registers (cpu_of w)) r result = Some rs /\
            reg_set rs REGISTER_RESULT result = Some rs') as (rs & rs' & Hrs & Hrs').
  { destruct (reg_set_is_Some (registers (cpu_of w)) r result Hvalid)
      as [rs Hrs].
    exists rs. destruct (reg_set_is_Some rs REGISTER_RESULT result) as [rs' Hrs'];
      [unfold valid_index, REGISTER_RESULT; lia|].
    by exists rs'. }
  enough (wp cpu_step w (fun x w' => x = 1 /\
            status (cpu_of w') = CPU_OK /\
            inst_index (cpu_of w')
            = wrap32 (wrap32 (inst_index (cpu_of w) + 1) + 1) /\
            memory (cpu_of w') = memory (cpu_of w) /\
            stack_size (cpu_of w') = stack_size (cpu_of w) /\
            stdin w' = stdin w /\ stdout w' = stdout w /\
            registers (cpu_of w') = rs'))
    as (x & w' & E & -> & Hs & Hi & Hm & Hsz & Hin & Hout & Hregs).
  { exists w'. split; [done|]. split.
    { unfold advanced. rewrite wrap32_add_l in Hi.
      replace (inst_index (cpu_of w) + 1 + 1)
        with (inst_index (cpu_of w) + 2) in Hi by lia.
      done. }
    rewrite Hregs. split.
    { destruct (decide (r = REGISTER_RESULT)) as [->|Hne].
      - by eapply reg_get_set.
      - rewrite (reg_get_set_ne _ _ _ _ _ Hrs') by done.
        by eapply reg_get_set. }
    split; [by eapply reg_get_set|].
    intros r' Hr1 Hr2.
    rewrite (reg_get_set_ne _ _ _ _ _ Hrs') by done.
    by rewrite (reg_get_set_ne _ _ _ _ _ Hrs) by done. }
  pose proof (reg_get_set _ _ _ _ Hrs) as Hget.
  rewrite <- (wrap32_id _ Hfits) in Hrs, Hget, Hrs'.
  unfold valid_index, REGISTER_RESULT in *.
  cbn in Hrs'. apply (inj Some) in Hrs'. subst rs'.
  destruct Hcount.
  - eapply cpu_step_dispatch; [done..|reflexivity|].
    unfold execute_inc. wp_run. done.
  - eapply cpu_step_dispatch; [done..|reflexivity|].
    unfold execute_dec. wp_run. done.
Qed.

(** [counting_exact] at [Sample.inc]: INC A with A = 41. *)
Lemma counting_exact_witness :
  exists w', cpu_step Sample.inc = Some (1, w') /\
    advanced 2 Sample.inc w' /\
    reg_get (registers (cpu_of w')) 0 = Some 42 /\
    reg_get (registers (cpu_of w')) REGISTER_RESULT = Some 42 /\
    forall r', r' <> 0 -> r' <> REGISTER_RESULT ->
      reg_get (registers (cpu_of w')) r'
      = reg_get (registers (cpu_of Sample.inc)) r'.
Proof.
  apply (counting_exact Sample.inc 0x06 0 41 42).
  - reflexivity.
  - vm_compute. split; discriminate.
  - reflexivity.
  - reflexivity.
  - reflexivity.
  - apply (counting_inc 41).
  - unfold int32. lia.
Defined.

(** X14. CMP followed by a conditional jump. CMP leaves the difference of
    the two registers in the result register (when it fits in 32 bits), and
    the jump that follows it is taken by JZ exactly when the registers are
    equal, by JNZ when they differ, by JGT when the first is the greater;
    otherwise execution goes on after the jump. *)
Lemma cmp_then_branch w r1 r2 v1 v2 op taken addr :
  status (cpu_of w) = CPU_OK ->
  0 <= inst_index (cpu_of w) ->
  inst_index (cpu_of w) + 3 <= end_of_stack (cpu_of w) ->
  end_of_stack (cpu_of w) < 2^31 - 2 ->
  fetched w = Some 19 ->
  operand w 1 = Some r1 -> operand w 2 = Some r2 ->
  reg_get (registers (cpu_of w)) r1 = Some v1 ->
  reg_get (registers (cpu_of w)) r2 = Some v2 ->
  int32 (v1 - v2) ->
  operand w 3 = Some op -> operand w 4 = Some addr ->
  branches v1 v2 op taken ->
  - 2^31 < addr < 2^31 ->
  exists w2,
    succeeds 2 w w2 /\
    status (cpu_of w2) = CPU_OK /\
    reg_result (registers (cpu_of w2)) = v1 - v2 /\
    inst_index (cpu_of w2)
    = if taken then addr else inst_index (cpu_of w) + 5.
Proof.
  intros Hw Hip0 Hip3 Heos Hop Hr1 Hr2 Hv1 Hv2 Hfits Hnext Haddr Hbranch Hint.
  pose proof (reg_get_valid _ _ _ Hv1) as Hvalid1.
  pose proof (reg_get_valid _ _ _ Hv2) as Hvalid2.
  unfold operand, valid_index, int32 in *.
  assert (wp cpu_step w (fun x w1 => x = 1 /\
            status (cpu_of w1) = CPU_OK /\
            inst_index (cpu_of w1)
            = wrap32 (wrap32 (inst_index (cpu_of w) + 2) + 1) /\
            memory (cpu_of w1) = memory (cpu_of w) /\
            end_of_stack (cpu_of w1) = end_of_stack (cpu_of w) /\
            reg_result (registers (cpu_of w1)) = wrap32 (v1 - v2)))
    as (x & w1 & E1 & -> & Hs1 & Hi1 & Hm1 & He1 & Hres1).
  { eapply cpu_step_dispatch; [done|lia|done|reflexivity|].
    unfold execute_cmp. wp_run. done. }
  rewrite wrap32_add_l, wrap32_id in Hi1 by (unfold int32; lia).
  rewrite wrap32_id in Hres1 by done.
  assert (fetched w1 = Some op) as Hop1.
  { unfold fetched. rewrite Hm1, Hi1.
    replace (inst_index (cpu_of w) + 2 + 1)
      with (inst_index (cpu_of w) + 3) by lia.
    rewrite Hnext. by destruct Hbranch. }
  assert (mem_read (memory (cpu_of w1)) (inst_index (cpu_of w1) + 1)
          = Some addr) as Haddr1.
  { rewrite Hm1, Hi1. rewrite <- Haddr. f_equal. lia. }
  assert (wrap32 (wrap32 (inst_index (cpu_of w1) + 1) + 1)
          = inst_index (cpu_of w) + 5) as Hpast.
  { rewrite wrap32_add_l, wrap32_id by (unfold int32; lia). lia. }
  pose proof (wrap32_pred_succ addr ltac:(unfold int32; lia)) as Hland.
  enough (wp cpu_step w1 (fun x w2 => x = 1 /\
            status (cpu_of w2) = CPU_OK /\
            reg_result (registers (cpu_of w2))
            = reg_result (registers (cpu_of w1)) /\
            inst_index (cpu_of w2)
            = if taken then wrap32 (wrap32 (addr - 1) + 1)
              else wrap32 (wrap32 (inst_index (cpu_of w1) + 1) + 1)))
    as (x & w2 & E2 & -> & Hs2 & Hres2 & Hi2).
  { exists w2. split.
    { eapply succeeds_S; [done|]. eapply succeeds_S; [done|]. constructor. }
    split; [done|]. split; [congruence|].
    rewrite Hi2. by destruct taken. }
  destruct Hbranch.
  - destruct (v1 =? v2) eqn:Heq;
      (eapply cpu_step_dispatch; [done|lia|done|reflexivity|]);
      unfold execute_jz; wp_run; done.
  - destruct (v1 =? v2) eqn:Heq; cbn [negb];
      (eapply cpu_step_dispatch; [done|lia|done|reflexivity|]);
      unfold execute_jnz; wp_run; done.
  - destruct (v1 >? v2) eqn:Heq;
      (eapply cpu_step_dispatch; [done|lia|done|reflexivity|]);
      unfold execute_jgt; wp_run; done.
Qed.

(** [cmp_then_branch] at [Sample.cmp_jz]: CMP A,B; JZ 6 with A = B = 5
    jumps to 6. *)
Lemma cmp_then_branch_witness :
  exists w2,
    succeeds 2 Sample.cmp_jz w2 /\
    status (cpu_of w2) = CPU_OK /\
    reg_result (registers (cpu_of w2)) = 0 /\
    inst_index (cpu_of w2) = 6.
Proof.
  apply (cmp_then_branch Sample.cmp_jz 0 1 5 5 21 true 6).
  - reflexivity.
  - vm_compute. discriminate.
  - vm_compute. discriminate.
  - vm_compute. reflexivity.
  - reflexivity.
  - reflexivity.
  - reflexivity.
  - reflexivity.
  - reflexivity.
  - unfold int32. lia.
  - reflexivity.
  - reflexivity.
  - apply (branches_jz 5 5).
  - lia.
Defined.

(** X15. SWAP exchanges the two registers and leaves the others. *)
Lemma swap_exchanges w r1 r2 v1 v2 :
  status (cpu_of w) = CPU_OK ->
  0 <= inst_index (cpu_of w) <= end_of_stack (cpu_of w) ->
  fetched w = Some 0x10 ->
  operand w 1 = Some r1 -> operand w 2 = Some r2 ->
  reg_get (registers (cpu_of w)) r1 = Some v1 ->
  reg_get (registers (cpu_of w)) r2 = Some v2 ->
  exists w', cpu_step w = Some (1, w') /\
    advanced 3 w w' /\
    reg_get (registers (cpu_of w')) r1 = Some v2 /\
    reg_get (registers (cpu_of w')) r2 = Some v1 /\
    forall r, r <> r1 -> r <> r2 ->
      reg_get (registers (cpu_of w')) r = reg_get (registers (cpu_of w)) r.
Proof.
  intros Hw Hip Hop Hr1 Hr2 Hv1 Hv2.
  pose proof (reg_get_valid _ _ _ Hv1) as Hvalid1.
  pose proof (reg_get_valid _ _ _ Hv2) as Hvalid2.
  destruct (reg_set_is_Some (registers (cpu_of w)) r1 v2 Hvalid1) as [rs Hrs].
  destruct (reg_set_is_Some rs r2 v1 Hvalid2) as [rs' Hrs'].
  unfold operand, valid_index in *.
  enough (wp cpu_step w (fun x w' => x = 1 /\
            status (cpu_of w') = CPU_OK /\
            inst_index (cpu_of w')
            = wrap32 (wrap32 (inst_index (cpu_of w) + 2) + 1) /\
            memory (cpu_of w') = memory (cpu_of w) /\
            stack_size (cpu_of w') = stack_size (cpu_of w) /\
            stdin w' = stdin w /\ stdout w' = stdout w /\
            registers (cpu_of w') = rs'))
    as (x & w' & E & -> & Hs & Hi & Hm & Hsz & Hin & Hout & Hregs).
  { exists w'. split; [done|]. split.
    { unfold advanced. rewrite wrap32_add_l in Hi.
      replace (inst_index (cpu_of w) + 2 + 1)
        with (inst_index (cpu_of w) + 3) in Hi by lia.
      done. }
    rewrite Hregs. split.
    { destruct (decide (r1 = r2)) as [->|Hne].
      - rewrite (reg_get_set _ _ _ _ Hrs'). congruence.
      - rewrite (reg_get_set_ne _ _ _ _ _ Hrs') by done.
        by eapply reg_get_set. }
    split; [by eapply reg_get_set|].
    intros r Hne1 Hne2.
    rewrite (reg_get_set_ne _ _ _ _ _ Hrs') by done.
    by rewrite (reg_get_set_ne _ _ _ _ _ Hrs) by done. }
  eapply cpu_step_dispatch; [done..|reflexivity|].
  unfold execute_swap. wp_run. done.
Qed.

(** [swap_exchanges] at [Sample.swap]: SWAP A,B with A = 1 and B = 2. *)
Lemma swap_exchanges_witness :
  exists w', cpu_step Sample.swap = Some (1, w') /\
    advanced 3 Sample.swap w' /\
    reg_get (registers (cpu_of w')) 0 = Some 2 /\
    reg_get (registers (cpu_of w')) 1 = Some 1 /\
    forall r, r <> 0 -> r <> 1 ->
      reg_get (registers (cpu_of w')) r
      = reg_get (registers (cpu_of Sample.swap)) r.
Proof.
  apply (swap_exchanges Sample.swap 0 1 1 2).
  - reflexivity.
  - vm_compute. split; discriminate.
  - reflexivity.
  - reflexivity.
  - reflexivity.
  - reflexivity.
  - reflexivity.
Defined.

(** X16. MOVR stores its immediate, a 32-bit word of the program, in the
    register: the detour through [uint32_t] gives the word back. *)
Lemma movr_sets w r n :
  status (cpu_of w) = CPU_OK ->
  0 <= inst_index (cpu_of w) <= end_of_stack (cpu_of w) ->
  fetched w = Some 0x09 ->
  operand w 1 = Some r -> operand w 2 = Some n ->
  valid_index r -> int32 n ->
  exists w', cpu_step w = Some (1, w') /\
    advanced 3 w w' /\
    reg_set (registers (cpu_of w)) r n = Some (registers (cpu_of w')).
Proof.
  intros Hw Hip Hop Hr Hn Hvalid Hint.
  destruct (reg_set_is_Some (registers (cpu_of w)) r n Hvalid) as [rs Hrs].
  unfold operand, valid_index in *.
  enough (wp cpu_step w (fun x w' => x = 1 /\
            status (cpu_of w') = CPU_OK /\
            inst_index (cpu_of w')
            = wrap32 (wrap32 (inst_index (cpu_of w) + 2) + 1) /\
            memory (cpu_of w') = memory (cpu_of w) /\
            stack_size (cpu_of w') = stack_size (cpu_of w) /\
            stdin w' = stdin w /\ stdout w' = stdout w /\
            registers (cpu_of w') = rs))
    as (x & w' & E & -> & Hs & Hi & Hm & Hsz & Hin & Hout & Hregs).
  { exists w'. split; [done|]. split; [|by rewrite Hregs].
    unfold advanced. rewrite wrap32_add_l in Hi.
    replace (inst_index (cpu_of w) + 2 + 1)
      with (inst_index (cpu_of w) + 3) in Hi by lia.
    done. }
  rewrite <- (wrap32_id n Hint), <- wrap32_to_u32 in Hrs.
  eapply cpu_step_dispatch; [done..|reflexivity|].
  unfold execute_movr. wp_run. done.
Qed.

(** [movr_sets] at [Demo.sum]: MOVR A,5. *)
Lemma movr_sets_witness :
  exists w', cpu_step Demo.sum = Some (1, w') /\
    advanced 3 Demo.sum w' /\
    reg_set (registers (cpu_of Demo.sum)) 0 5 = Some (registers (cpu_of w')).
Proof.
  apply (movr_sets Demo.sum 0 5).
  - reflexivity.
  - vm_compute. split; discriminate.
  - reflexivity.
  - reflexivity.
  - reflexivity.
  - unfold valid_index. lia.
  - unfold int32. lia.
Defined.

(** X17. [cpu_set_register] followed by [cpu_get_register] of the same
    register gives the value back; the other registers and the rest of the
    machine are untouched. With an index outside 0..4 the assertion of
    either function fails. *)
Lemma register_round_trip w r v :
  (valid_index r ->
   exists w',
     cpu_set_register r v w = Some (tt, w') /\
     cpu_get_register r w' = Some (v, w') /\
     (forall r', r' <> r ->
        reg_get (registers (cpu_of w')) r'
        = reg_get (registers (cpu_of w)) r') /\
     cpu_of w' = with_registers (cpu_of w) (registers (cpu_of w')) /\
     stdin w' = stdin w /\ stdout w' = stdout w) /\
  (~ valid_index r ->
   cpu_set_register r v w = None /\ cpu_get_register r w = None).
Proof.
  split.
  - intros Hvalid.
    destruct (reg_set_is_Some (registers (cpu_of w)) r v Hvalid) as [rs Hrs].
    exists (World (with_registers (cpu_of w) rs) (stdin w) (stdout w)).
    unfold cpu_set_register, cpu_get_register, write_register, read_register,
      get_cpu, put_cpu, bind, lift_option, ret.
    cbn. rewrite Hrs. cbn. rewrite (reg_get_set _ _ _ _ Hrs).
    split; [done|]. split; [done|]. split; [|done].
    intros r' Hne. by rewrite (reg_get_set_ne _ _ _ _ _ Hrs) by done.
  - intros Hbad.
    assert (reg_set (registers (cpu_of w)) r v = None /\
            reg_get (registers (cpu_of w)) r = None) as [Hset Hget].
    { unfold reg_set, reg_get, valid_index in *.
      destruct r as [|p|p]; [lia| |done].
      do 3 (destruct p as [p|p|]; try done; try lia). }
    unfold cpu_set_register, cpu_get_register, write_register, read_register,
      get_cpu, put_cpu, bind, lift_option, ret.
    cbn. by rewrite Hset, Hget.
Qed.

(** [register_round_trip] at [Demo.sum]: B set to 9 and read back. *)
Lemma register_round_trip_witness :
  exists w',
    cpu_set_register 1 9 Demo.sum = Some (tt, w') /\
    cpu_get_register 1 w' = Some (9, w') /\
    (forall r', r' <> 1 ->
       reg_get (registers (cpu_of w')) r'
       = reg_get (registers (cpu_of Demo.sum)) r') /\
    cpu_of w' = with_registers (cpu_of Demo.sum) (registers (cpu_of w')) /\
    stdin w' = stdin Demo.sum /\ stdout w' = stdout Demo.sum.
Proof.
  apply (register_round_trip Demo.sum 1 9).
  unfold valid_index. lia.
Defined.

(** * Running in instalments *)

Lemma run_loop_shift n : forall w ex er d,
  run_loop n (ex + d) er w =
    match run_loop n ex er w with
    | Some ((e, r), w') => Some ((e + d, r), w')
    | None => None
    end.
Proof.
  induction n as [|n IH]; intros w ex er d; [done|].
  destruct (cpu_step w) as [[r w1]|] eqn:Hstep.
  2:{ cbn [run_loop]. unfold bind at 1 3. by rewrite Hstep. }
  rewrite !(run_loop_S _ _ _ _ _ _ Hstep).
  case_bool_decide.
  { do 3 f_equal. lia. }
  destruct (r =? 0); [done|].
  replace (ex + d + 1) with (ex + 1 + d) by lia. apply IH.
Qed.

Lemma run_loop_resume a w w1 : succeeds a w w1 ->
  forall b ex er, status (cpu_of w) = CPU_OK ->
  run_loop (a + b) ex er w = run_loop b (ex + Z.of_nat a) er w1.
Proof.
  induction 1 as [w|a w w1 w2 Hstep Hs IH]; intros b ex er Hw.
  - cbn [Nat.add]. f_equal. lia.
  - cbn [Nat.add]. rewrite (run_loop_S _ _ _ _ _ _ Hstep).
    pose proof (cpu_step_one _ _ Hw Hstep) as Hok.
    rewrite bool_decide_eq_false_2 by congruence.
    replace (1 =? 0) with false by lia.
    rewrite IH by done. f_equal. lia.
Qed.

(** X18. A run can be taken in instalments. When [cpu_run a] returns [a] and
    leaves the machine in status [CPU_OK] (its budget ran out), a further
    [cpu_run b] ends in the state in which [cpu_run (a + b)] from the start
    ends, and the counts add up: the value of the long run is that of the
    second run with [a] more steps, counted negatively when it is negative. *)
Lemma cpu_run_resume (a b : nat) w w1 :
  status (cpu_of w) = CPU_OK ->
  cpu_run a w = Some (Z.of_nat a, w1) ->
  status (cpu_of w1) = CPU_OK ->
  succeeds a w w1 /\
  cpu_run (a + b) w =
    match cpu_run b w1 with
    | Some (r, w') => Some (if r <? 0 then r - Z.of_nat a else r + Z.of_nat a, w')
    | None => None
    end.
Proof.
  intros Hw Hrun Hw1.
  assert (forall n w0, status (cpu_of w0) = CPU_OK ->
            cpu_run n w0 =
            match run_loop n 0 0 w0 with
            | Some ((ex, er), w') =>
                Some (if er >? 0 then - (er + ex) else ex, w')
            | None => None
            end) as Hunfold.
  { intros n w0 H0. unfold cpu_run, bind, get_cpu.
    rewrite bool_decide_eq_true_2 by done. cbn [negb].
    destruct (run_loop n 0 0 w0) as [[[ex er] w']|]; [|done].
    by destruct (er >? 0). }
  assert (succeeds a w w1) as Hs.
  { rewrite Hunfold in Hrun by done.
    destruct (run_loop a 0 0 w) as [[[ex er] w']|] eqn:Hloop; [|done].
    injection Hrun as Hr <-.
    apply run_loop_sound in Hloop; [|done].
    destruct Hloop as [[Hs _]
                      |[(k & w2 & r0 & Hk & _ & _ & Hh & _)
                       |(k & w2 & Hk & _ & _ & _ & [= -> ->])]].
    - done.
    - congruence.
    - replace (0 + 1 >? 0) with true in Hr by lia. lia. }
  split; [done|].
  rewrite (Hunfold (a + b)%nat w Hw), (Hunfold b w1 Hw1).
  rewrite (run_loop_resume _ _ _ Hs b 0 0 Hw).
  rewrite (run_loop_shift b w1 0 0 (Z.of_nat a)).
  destruct (run_loop b 0 0 w1) as [[[ex er] w']|] eqn:Hloop; [|done].
  apply run_loop_sound in Hloop; [|done].
  f_equal. f_equal.
  destruct Hloop as [[_ [= -> ->]]
                    |[(k & w2 & r0 & Hk & _ & _ & _ & [= -> ->])
                     |(k & w2 & Hk & _ & _ & _ & [= -> ->])]].
  - replace (0 >? 0) with false by lia.
    replace (0 + Z.of_nat b <? 0) with false by lia. done.
  - replace (0 >? 0) with false by lia.
    replace (0 + Z.of_nat k + 1 <? 0) with false by lia. done.
  - replace (0 + 1 >? 0) with true by lia.
    replace (- (0 + 1 + (0 + Z.of_nat k)) <? 0) with true by lia. lia.
Qed.

(** [cpu_run_resume] at [Demo.sum]: two steps, then five more, against
    seven at once. *)
Lemma cpu_run_resume_witness :
  succeeds 2 Demo.sum (after_steps 2 Demo.sum) /\
  cpu_run (2 + 5) Demo.sum =
    match cpu_run 5 (after_steps 2 Demo.sum) with
    | Some (r, w') => Some (if r <? 0 then r - Z.of_nat 2 else r + Z.of_nat 2, w')
    | None => None
    end.
Proof.
  apply (cpu_run_resume 2 5 Demo.sum (after_steps 2 Demo.sum)).
  - reflexivity.
  - vm_compute. reflexivity.
  - reflexivity.
Defined.

(** * The words the loader stores *)

Lemma to_u32_wrap32 z : to_u32 (wrap32 z) = z mod 2^32.
Proof.
  destruct (wrap32_shift z) as [q ->]. unfold to_u32.
  rewrite (Z.mul_comm (2^32) q). apply Z.mod_add. lia.
Qed.

(** The bits of a byte shifted to its place in the word. *)
Lemma shifted_byte b k :
  0 <= k <= 3 ->
  to_u32 (wrap32 (Z.shiftl (byte_val b) (k * 8))) = byte_val b * 2^(8 * k).
Proof.
  intros Hk. pose proof (byte_val_range b) as Hb.
  rewrite to_u32_wrap32, Z.shiftl_mul_pow2 by lia.
  replace (k * 8) with (8 * k) by lia.
  apply Z.mod_small.
  assert (k = 0 \/ k = 1 \/ k = 2 \/ k = 3) as [->|[->|[->| ->]]] by lia; lia.
Qed.

(** [|] on values that share no bit adds them. *)
Lemma lor_disjoint x y n :
  0 <= n -> 0 <= x < 2^n -> Z.lor x (y * 2^n) = x + y * 2^n.
Proof.
  intros Hn Hx.
  assert (Z.land x (y * 2^n) = 0) as Hland.
  { apply Z.bits_inj'. intros i Hi.
    rewrite Z.land_spec, Z.bits_0, <- Z.shiftl_mul_pow2 by lia.
    destruct (decide (i < n)) as [Hlt|Hge].
    - rewrite (Z.shiftl_spec_low y n i) by lia. apply andb_false_r.
    - destruct (decide (x = 0)) as [->|Hne].
      + by rewrite Z.bits_0.
      + rewrite (Z.bits_above_log2 x i); [done|lia|].
        assert (Z.log2 x < n) by (apply Z.log2_lt_pow2; lia). lia. }
  rewrite <- (Z.lxor_lor _ _ Hland). symmetry. by apply Z.add_nocarry_lxor.
Qed.

(** The word that is stored after the fourth byte. *)
Lemma packed_word b0 b1 b2 b3 :
  wrap32
    (Z.lor (Z.lor (Z.lor (Z.lor 0 (byte_val b0 * 2^(8 * 0)))
                         (byte_val b1 * 2^(8 * 1)))
                  (byte_val b2 * 2^(8 * 2)))
           (byte_val b3 * 2^(8 * 3)))
  = le_word (b0, b1, b2, b3).
Proof.
  pose proof (byte_val_range b0). pose proof (byte_val_range b1).
  pose proof (byte_val_range b2). pose proof (byte_val_range b3).
  rewrite Z.lor_0_l. change (8 * 0) with 0. rewrite Z.pow_0_r, Z.mul_1_r.
  rewrite (lor_disjoint (byte_val b0) (byte_val b1) (8 * 1)) by lia.
  rewrite (lor_disjoint _ (byte_val b2) (8 * 2)) by lia.
  rewrite (lor_disjoint _ (byte_val b3) (8 * 3)) by lia.
  unfold le_word. f_equal. lia.
Qed.

(** One byte of the input: either an allocation fails, or the loop goes on
    from a state in which the byte is part of the pending word, or, when it
    is the fourth, the word is stored.  The words stored before stay. *)
Lemma read_program_byte h b rest l :
  loader_ok h l ->
  (read_program h (b :: rest) l = inr LoadNull /\
   exists n, can_alloc h n = false) \/
  exists l',
    read_program h (b :: rest) l = read_program h rest l' /\
    loader_ok h l' /\
    same_below (l_memory l) (l_memory l') (l_memory_index l) /\
    (l_memory_index l < l_memory_size l ->
     l_memory_size l' = l_memory_size l) /\
    let result :=
      Z.lor (l_result l)
            (to_u32 (wrap32 (Z.shiftl (byte_val b) (l_cycle_index l * 8)))) in
    if l_cycle_index l =? 3 then
      l_memory_index l' = l_memory_index l + 1 /\
      l_cycle_index l' = 0 /\ l_result l' = 0 /\
      mem_read (l_memory l') (l_memory_index l) = Some (wrap32 result)
    else
      l_memory_index l' = l_memory_index l /\
      l_cycle_index l' = l_cycle_index l + 1 /\ l_result l' = result.
Proof.
  intros (Hlen & Hidx & Hcyc & Hfresh & Hblock).
  cbn [read_program].
  set (grown := if l_memory_index l =? l_memory_size l then _ else _).
  assert (match grown with
          | Some (m, size) =>
              Z.of_nat (length m) = size /\ l_memory_index l < size /\
              fresh_from h m (l_memory_index l) size /\ BLOCK_SIZE <= size /\
              same_below (l_memory l) m (l_memory_size l) /\
              (l_memory_index l < l_memory_size l -> size = l_memory_size l)
          | None => exists n, can_alloc h n = false
          end) as Hgrown.
  { subst grown. destruct (l_memory_index l =? l_memory_size l) eqn:E.
    - destruct (realloc_block h _ _) as [m'|] eqn:Hre.
      + pose proof (realloc_block_fresh _ _ _ _ _ Hlen Hre Hfresh).
        pose proof (realloc_block_length _ _ _ _ Hre).
        change BLOCK_SIZE with 1024 in *.
        split; [lia|]. split; [lia|]. split; [done|]. split; [lia|].
        split; [|lia].
        intros i Hi. unfold realloc_block in Hre.
        destruct (can_alloc h _); [|done].
        apply (inj Some) in Hre. subst m'. unfold mem_read.
        destruct (0 <=? i) eqn:Ei; [|done]. apply lookup_app_l. lia.
      + unfold realloc_block in Hre. case_match; [done|]. eauto.
    - split; [done|]. split; [lia|]. split; [done|]. split; [done|].
      split; [|done]. by intros i Hi. }
  destruct grown as [[m size]|]; [|by left].
  destruct Hgrown as (Hm & Hlt & Hfresh' & Hblock' & Hsame & Hsize).
  pose proof (byte_val_nonneg b) as Hb.
  replace (byte_val b =? EOF) with false by (unfold EOF; lia).
  right. destruct (l_cycle_index l + 1 =? 4) eqn:E4.
  - destruct (mem_write_is_Some m (l_memory_index l)
                (wrap32 (Z.lor (l_result l)
                   (to_u32 (wrap32 (Z.shiftl (byte_val b)
                                              (l_cycle_index l * 8)))))))
      as [m' Hm']; [lia|].
    rewrite Hm'. eexists. split; [done|]. cbn.
    replace (l_cycle_index l =? 3) with true by lia.
    split.
    { unfold loader_ok; cbn. rewrite (mem_write_length _ _ _ _ Hm').
      split; [done|]. split; [lia|]. split; [lia|]. split; [|done].
      intros i Hi. rewrite (mem_read_write_ne _ _ _ _ _ Hm') by lia.
      apply Hfresh'. lia. }
    split.
    { intros i Hi. rewrite (mem_read_write_ne _ _ _ _ _ Hm') by lia.
      apply Hsame. lia. }
    split; [done|]. split; [done|]. split; [done|]. split; [done|].
    apply (mem_read_write_eq _ _ _ _ Hm').
  - eexists. split; [done|]. cbn.
    replace (l_cycle_index l =? 3) with false by lia.
    split.
    { unfold loader_ok; cbn.
      split; [done|]. split; [lia|]. split; [lia|]. split; done. }
    split; [|done].
    intros i Hi. apply Hsame. lia.
Qed.

(** Four bytes of the input at a word boundary: the word they denote is
    stored at [memory_index], and the loop is at a word boundary again. *)
Lemma read_program_quad h q rest l :
  loader_ok h l -> l_cycle_index l = 0 -> l_result l = 0 ->
  (read_program h (program_of [q] ++ rest) l = inr LoadNull /\
   exists n, can_alloc h n = false) \/
  exists l',
    read_program h (program_of [q] ++ rest) l = read_program h rest l' /\
    loader_ok h l' /\ l_cycle_index l' = 0 /\ l_result l' = 0 /\
    l_memory_index l' = l_memory_index l + 1 /\
    same_below (l_memory l) (l_memory l') (l_memory_index l) /\
    (l_memory_index l < l_memory_size l ->
     l_memory_size l' = l_memory_size l) /\
    mem_read (l_memory l') (l_memory_index l) = Some (le_word q).
Proof.
  intros Hok Hcyc Hres. destruct q as [[[b0 b1] b2] b3]. cbn [program_of app].
  destruct (read_program_byte h b0 (b1 :: b2 :: b3 :: rest) l Hok)
    as [?|(l1 & -> & Hok1 & Hsame1 & Hsize1 & H1)]; [by left|].
  rewrite Hcyc, Hres in H1. change (0 =? 3) with false in H1.
  cbv beta zeta iota in H1. destruct H1 as (Hidx1 & Hcyc1 & Hres1).
  change (0 + 1) with 1 in Hcyc1.
  destruct (read_program_byte h b1 (b2 :: b3 :: rest) l1 Hok1)
    as [?|(l2 & -> & Hok2 & Hsame2 & Hsize2 & H2)]; [by left|].
  rewrite Hcyc1, Hres1 in H2. change (1 =? 3) with false in H2.
  cbv beta zeta iota in H2. destruct H2 as (Hidx2 & Hcyc2 & Hres2).
  change (1 + 1) with 2 in Hcyc2.
  destruct (read_program_byte h b2 (b3 :: rest) l2 Hok2)
    as [?|(l3 & -> & Hok3 & Hsame3 & Hsize3 & H3)]; [by left|].
  rewrite Hcyc2, Hres2 in H3. change (2 =? 3) with false in H3.
  cbv beta zeta iota in H3. destruct H3 as (Hidx3 & Hcyc3 & Hres3).
  change (2 + 1) with 3 in Hcyc3.
  destruct (read_program_byte h b3 rest l3 Hok3)
    as [?|(l4 & -> & Hok4 & Hsame4 & Hsize4 & H4)]; [by left|].
  rewrite Hcyc3, Hres3 in H4. change (3 =? 3) with true in H4.
  cbv beta zeta iota in H4.
  destruct H4 as (Hidx4 & Hcyc4 & Hres4 & Hword).
  right. exists l4. split; [done|]. split; [done|].
  split; [done|]. split; [done|]. split; [lia|]. split.
  { intros i Hi. rewrite Hsame4, Hsame3, Hsame2, Hsame1 by lia. done. }
  split; [lia|].
  rewrite Hidx3, Hidx2, Hidx1 in Hword. rewrite Hword. f_equal.
  rewrite (shifted_byte b0 0), (shifted_byte b1 1), (shifted_byte b2 2),
    (shifted_byte b3 3) by lia.
  apply packed_word.
Qed.

Lemma program_of_cons q quads :
  program_of (q :: quads) = program_of [q] ++ program_of quads.
Proof. by destruct q as [[[b0 b1] b2] b3]. Qed.

Lemma length_program_of quads :
  Z.of_nat (length (program_of quads)) = 4 * Z.of_nat (length quads).
Proof.
  induction quads as [|[[[b0 b1] b2] b3] quads IH]; [done|].
  cbn [program_of length]. lia.
Qed.

(** The reading loop on a file of whole words: unless an allocation fails,
    it ends at a word boundary with every word of the file stored, in
    order, from [memory_index] on, and the words below as they were; the
    buffer has not grown when the words fit into it. *)
Lemma read_program_words h quads : forall l,
  loader_ok h l -> l_cycle_index l = 0 -> l_result l = 0 ->
  match read_program h (program_of quads) l with
  | inl l' =>
      loader_ok h l' /\ l_cycle_index l' = 0 /\
      l_memory_index l' = l_memory_index l + Z.of_nat (length quads) /\
      same_below (l_memory l) (l_memory l') (l_memory_index l) /\
      (l_memory_index l + Z.of_nat (length quads) <= l_memory_size l ->
       l_memory_size l' = l_memory_size l) /\
      forall i q, quads !! i = Some q ->
        mem_read (l_memory l') (l_memory_index l + Z.of_nat i)
        = Some (le_word q)
  | inr r => r = LoadNull /\ exists n, can_alloc h n = false
  end.
Proof.
  induction quads as [|q quads IH]; intros l Hok Hcyc Hres.
  - cbn. split; [done|]. split; [done|]. split; [lia|].
    split; [by intros i Hi|]. split; [done|]. intros i q Hq. done.
  - rewrite program_of_cons.
    destruct (read_program_quad h q (program_of quads) l Hok Hcyc Hres)
      as [[-> Hn]|(l1 & -> & Hok1 & Hcyc1 & Hres1 & Hidx1 & Hsame1 & Hsize1
                   & Hword)]; [done|].
    specialize (IH l1 Hok1 Hcyc1 Hres1).
    destruct (read_program h (program_of quads) l1) as [l'|r]; [|done].
    destruct IH as (Hok' & Hcyc' & Hidx' & Hsame' & Hsize' & Hwords).
    split; [done|]. split; [done|]. cbn [length].
    split; [lia|]. split.
    { intros i Hi. rewrite Hsame' by lia. by apply Hsame1. }
    split; [lia|].
    intros [|i] q' Hq'.
    + cbn in Hq'. apply (inj Some) in Hq'. subst q'.
      rewrite Z.add_0_r, Hsame' by lia. done.
    + cbn in Hq'. specialize (Hwords i q' Hq').
      rewrite Hidx1 in Hwords. rewrite <- Hwords. f_equal. lia.
Qed.

Lemma mod_size_negative z : - 2^64 <= z < 0 -> z mod 2^64 = z + 2^64.
Proof.
  intros Hz. rewrite <- (Z.mod_add z 1) by lia.
  rewrite Z.mod_small by lia. lia.
Qed.

(** The second loop of the loader appends to the buffer. *)
Lemma extend_for_stack_same h fuel : forall m size idx cap,
  Z.of_nat (length m) = size ->
  match extend_for_stack h fuel m size idx cap with
  | Some (inl (m', size')) => same_below m m' size
  | _ => True
  end.
Proof.
  induction fuel as [|fuel IH]; intros m size idx cap Hlen;
    cbn [extend_for_stack].
  - destruct (to_size (idx + cap) >? size); [done|]. by intros i Hi.
  - destruct (to_size (idx + cap) >? size); [|by intros i Hi].
    destruct (realloc_block h m size) as [m1|] eqn:Hre; [|done].
    pose proof (realloc_block_length _ _ _ _ Hre) as Hlen1.
    specialize (IH m1 (size + BLOCK_SIZE) idx cap ltac:(lia)).
    destruct (extend_for_stack h fuel m1 _ idx cap) as [[[m' size']|]|];
      [|done..].
    intros i Hi. rewrite IH by (change BLOCK_SIZE with 1024; lia).
    unfold realloc_block in Hre. destruct (can_alloc h _); [|done].
    apply (inj Some) in Hre. subst m1. unfold mem_read.
    destruct (0 <=? i) eqn:Ei; [|done]. apply lookup_app_l. lia.
Qed.

(** X19. What a loaded buffer holds. Whenever the loader returns a buffer
    for a file of whole words, the stack bottom is the last index of the
    buffer, four times the number of words fits into the buffer, word [i] of
    the buffer is the little-endian value of bytes [4i .. 4i+3] of the file,
    the words after the program up to a quarter of the buffer are zero, and
    the rest is as the allocator left it. *)
Lemma loaded_words h quads stack_capacity m sb :
  cpu_create_memory h (program_of quads) stack_capacity = Loaded m sb ->
  Z.of_nat (length m) < 2^62 ->
  sb = Z.of_nat (length m) - 1 /\
  4 * Z.of_nat (length quads) <= Z.of_nat (length m) /\
  (forall i q, quads !! i = Some q ->
     mem_read m (Z.of_nat i) = Some (le_word q)) /\
  (forall i, Z.of_nat (length quads) <= i < Z.of_nat (length m) / 4 ->
     mem_read m i = Some 0) /\
  (forall i, Z.of_nat (length m) / 4 <= i < Z.of_nat (length m) ->
     mem_read m i = Some (fresh h i)).
Proof.
  unfold cpu_create_memory.
  destruct (can_alloc h _); cbn [negb]; [|done].
  pose proof (read_program_words h quads _ (initial_loader_ok h)
                eq_refl eq_refl) as Hread.
  destruct (read_program h (program_of quads) _) as [l|r].
  2:{ destruct Hread as [-> _]. done. }
  destruct Hread as ((Hlen & Hidx & Hcyc & Hfresh & Hblock) & _ & Hn & _ & _
                     & Hwords).
  cbn [l_memory_index] in Hn, Hwords. rewrite Z.add_0_l in Hn.
  destruct (l_cycle_index l =? 0); cbn [negb]; [|done].
  pose proof (extend_for_stack_spec h (extend_fuel (l_memory_index l) stack_capacity)
                _ _ _ stack_capacity Hlen Hfresh) as Hext.
  pose proof (extend_for_stack_same h (extend_fuel (l_memory_index l) stack_capacity)
                _ _ (l_memory_index l) stack_capacity Hlen) as Hsame.
  destruct (extend_for_stack h _ _ _ _ _) as [[[m1 size1]|r]|];
    [|by subst r|done].
  destruct Hext as (Hlen1 & Hge & Hfresh1).
  destruct (memset_zero m1 _ _) as [m2|] eqn:Hset; [|done].
  intros [= <- <-] Hsmall.
  pose proof (memset_zero_length _ _ _ _ Hset) as Hlen2.
  pose proof (memset_zero_guard _ _ _ _ Hset) as (Hstart & Hbytes & Hend & Hmod).
  rewrite Hlen2 in *.
  change BLOCK_SIZE with 1024 in *. unfold sizeof_int32, to_size in *.
  set (n := Z.of_nat (length quads)) in *.
  assert (4 * n <= size1) as Hfit.
  { destruct (decide (4 * n <= size1)) as [|Hneg]; [done|exfalso].
    rewrite Hn in Hend, Hmod.
    rewrite mod_size_negative in Hend, Hmod by lia.
    pose proof (Z.div_mod (size1 - n * 4 + 2^64) 4 ltac:(lia)) as Hq4.
    lia. }
  assert (((size1 - l_memory_index l * 4) mod 2^64) / 4 = size1 / 4 - n)
    as Hquarter.
  { rewrite Hn, Z.mod_small by lia.
    replace (size1 - n * 4) with (size1 + (- n) * 4) by lia.
    rewrite Z.div_add by lia. lia. }
  assert (forall i, mem_read m2 i =
            if (n <=? i) && (i <? size1 / 4) then Some 0 else mem_read m1 i)
    as Hread.
  { intros i. rewrite (memset_zero_read _ _ _ _ i Hset), Hquarter, Hn.
    by replace (n + (size1 / 4 - n)) with (size1 / 4) by lia. }
  split; [lia|]. split; [lia|]. rewrite Hlen1.
  split; [|split].
  - intros i q Hq. pose proof (lookup_lt_Some _ _ _ Hq) as Hi.
    rewrite Hread. replace ((n <=? Z.of_nat i) && _) with false by lia.
    rewrite Hsame by lia. by rewrite <- (Hwords i q Hq).
  - intros i Hi. rewrite Hread.
    by replace ((n <=? i) && (i <? size1 / 4)) with true by lia.
  - intros i Hi. rewrite Hread.
    replace ((n <=? i) && (i <? size1 / 4)) with false by lia.
    apply Hfresh1.
    pose proof (Z.div_mod size1 4 ltac:(lia)).
    pose proof (Z.mod_pos_bound size1 4 ltac:(lia)). lia.
Qed.

(** [loaded_words] at [Sample.file], loaded with two stack words from an
    allocator whose storage holds 0x55555555. *)
Lemma loaded_words_witness :
  1023 = Z.of_nat (length Sample.loaded) - 1 /\
  4 * Z.of_nat (length Sample.file) <= Z.of_nat (length Sample.loaded) /\
  (forall i q, Sample.file !! i = Some q ->
     mem_read Sample.loaded (Z.of_nat i) = Some (le_word q)) /\
  (forall i, Z.of_nat (length Sample.file) <= i
             < Z.of_nat (length Sample.loaded) / 4 ->
     mem_read Sample.loaded i = Some 0) /\
  (forall i, Z.of_nat (length Sample.loaded) / 4 <= i
             < Z.of_nat (length Sample.loaded) ->
     mem_read Sample.loaded i = Some (fresh Demo.dirty_heap i)).
Proof.
  apply (loaded_words Demo.dirty_heap Sample.file 2 Sample.loaded 1023).
  - vm_compute. reflexivity.
  - vm_compute. reflexivity.
Defined.

(** X20. A program of at most 256 words whose stack fits into the first
    block with it loads when the allocator does not fail: the buffer is one
    block of 1024 words and the stack bottom its last index. A program of
    more than 256 words, in the same block, does not: the final [memset] is
    given a length that wrapped around and leaves the buffer. *)
Lemma first_block_load h quads stack_capacity :
  (forall n, can_alloc h n = true) ->
  0 <= stack_capacity ->
  Z.of_nat (length quads) + stack_capacity <= 1024 ->
  if Z.of_nat (length quads) <=? 256 then
    exists m,
      cpu_create_memory h (program_of quads) stack_capacity = Loaded m 1023 /\
      length m = 1024%nat
  else
    cpu_create_memory h (program_of quads) stack_capacity = LoadOverrun.
Proof.
  intros Halloc Hcap Hfit. unfold cpu_create_memory.
  rewrite Halloc. cbn [negb].
  pose proof (read_program_words h quads _ (initial_loader_ok h)
                eq_refl eq_refl) as Hread.
  destruct (read_program h (program_of quads) _) as [l|r].
  2:{ destruct Hread as [_ [n Hn]]. by rewrite Halloc in Hn. }
  destruct Hread as ((Hlen & Hidx & _ & _ & _) & Hcyc & Hn & _ & Hsize & _).
  cbn [l_memory_index l_memory_size] in Hn, Hsize. rewrite Z.add_0_l in Hn.
  change BLOCK_SIZE with 1024 in *.
  specialize (Hsize ltac:(lia)).
  rewrite Hcyc. change (negb (0 =? 0)) with false. cbv iota.
  set (n := Z.of_nat (length quads)) in *.
  assert ((to_size (l_memory_index l + stack_capacity) >? l_memory_size l)
          = false) as Hno.
  { unfold to_size. rewrite Z.mod_small by lia. lia. }
  assert (forall fuel, extend_for_stack h fuel (l_memory l) (l_memory_size l)
            (l_memory_index l) stack_capacity
          = Some (inl (l_memory l, l_memory_size l))) as ->.
  { intros [|fuel]; cbn [extend_for_stack]; by rewrite Hno. }
  rewrite Hn, Hsize. unfold sizeof_int32, to_size.
  destruct (n <=? 256) eqn:Hle.
  - rewrite Z.mod_small by lia.
    destruct (memset_zero (l_memory l) n (1024 - n * 4)) as [m|] eqn:Hset.
    + exists m. split; [done|].
      rewrite (memset_zero_length _ _ _ _ Hset). lia.
    + exfalso. unfold memset_zero in Hset.
      replace (1024 - n * 4) with ((256 - n) * 4) in Hset by lia.
      rewrite Z.div_mul, Z.mod_mul in Hset by lia.
      replace ((0 <=? n) && (0 <=? (256 - n) * 4)
               && (n + (256 - n) <=? Z.of_nat (length (l_memory l)))
               && (0 =? 0)) with true in Hset by lia.
      done.
  - destruct (memset_zero (l_memory l) n _) as [m|] eqn:Hset; [|done].
    exfalso. apply memset_zero_guard in Hset as (_ & _ & Hend & _).
    rewrite mod_size_negative in Hend by lia.
    pose proof (Z.div_mod (1024 - n * 4 + 2^64) 4 ltac:(lia)) as Hq4.
    pose proof (Z.mod_pos_bound (1024 - n * 4 + 2^64) 4 ltac:(lia)). lia.
Qed.

(** [first_block_load] at [Sample.file], four words, with two stack
    words. *)
Lemma first_block_load_witness :
  exists m,
    cpu_create_memory Demo.clean_heap (program_of Sample.file) 2
    = Loaded m 1023 /\
    length m = 1024%nat.
Proof.
  apply (first_block_load Demo.clean_heap Sample.file 2).
  - intros n. reflexivity.
  - lia.
  - vm_compute. discriminate.
Defined.

(** * The effect of a reset *)

(** [cpu_reset_effect] at the state in which [Demo.push_halt] halts. *)
Lemma cpu_reset_effect_witness :
  registers Sample.pushed_reset = zero_regs /\
  status Sample.pushed_reset = CPU_OK /\
  stack_size Sample.pushed_reset = 0 /\
  inst_index Sample.pushed_reset = inst_index Sample.pushed /\
  end_of_stack Sample.pushed_reset = end_of_stack Sample.pushed /\
  stack_capacity Sample.pushed_reset = stack_capacity Sample.pushed /\
  stack_bottom Sample.pushed_reset = stack_bottom Sample.pushed /\
  (forall i, mem_read (memory Sample.pushed_reset) i =
     if (stack_bottom Sample.pushed - stack_capacity Sample.pushed <=? i)
        && (i <? stack_bottom Sample.pushed)
     then Some 0 else mem_read (memory Sample.pushed) i).
Proof.
  apply (cpu_reset_effect Sample.pushed Sample.pushed_reset).
  - vm_compute. split; [discriminate|reflexivity].
  - vm_compute. reflexivity.
Defined.
